(** * Bounded-section editors of the build-preparation scripts

    A shallow embedding of the two line-oriented editors of the repository:

    - [setupKeychainsAndroid] (prepare/keychains_android.js), which rewrites
      or creates the [<queries>] section of an AndroidManifest.xml;
    - [updateEntitlementsFile] (the iOS keychain module), which rewrites or
      creates the [keychain-access-groups] array of an entitlements plist.

    JavaScript strings are sequences of UTF-16 code units; they are modelled
    as lists of code units ([N]).  The string primitives the scripts use
    ([includes], [split], [join], the two regular expressions) are written
    out as functions on such lists.  Console output is presentation only and
    is not modelled. *)

From Stdlib Require Import String Ascii List NArith Bool Arith Lia.
Import ListNotations.

Set Implicit Arguments.
Set Warnings "-register-all".

(** ** JavaScript string primitives *)

Module JsString.

Definition char := N.
Definition str := list char.

(** An ASCII literal as a sequence of code units. *)
Definition lit (s : string) : str :=
  map N_of_ascii (list_ascii_of_string s).

Definition NL : char := 10%N.
Definition TAB : char := 9%N.
Definition DQUOTE : char := 34%N.
Definition LT : char := 60%N.

Fixpoint str_eqb (a b : str) : bool :=
  match a, b with
  | [], [] => true
  | x :: a', y :: b' => N.eqb x y && str_eqb a' b'
  | _, _ => false
  end.

(** The class [\s] of a JavaScript regular expression: WhiteSpace and
    LineTerminator code points. *)
Definition is_space (c : char) : bool :=
  ((9 <=? c) && (c <=? 13) || (c =? 32) || (c =? 160) || (c =? 5760)
   || (8192 <=? c) && (c <=? 8202) || (c =? 8232) || (c =? 8233)
   || (c =? 8239) || (c =? 8287) || (c =? 12288) || (c =? 65279))%N.

(** [strip_prefix p s] is the rest of [s] after the prefix [p], if [s]
    starts with [p]. *)
Fixpoint strip_prefix (p s : str) : option str :=
  match p with
  | [] => Some s
  | c :: p' =>
      match s with
      | [] => None
      | d :: s' => if N.eqb c d then strip_prefix p' s' else None
      end
  end.

(** [String.prototype.includes]: [pat] occurs somewhere in [s]. *)
Fixpoint includes (s pat : str) : bool :=
  match strip_prefix pat s with
  | Some _ => true
  | None =>
      match s with
      | [] => false
      | _ :: s' => includes s' pat
      end
  end.

(** [s.split("\n")]: never empty, the empty string gives one empty line. *)
Fixpoint split_lines (s : str) : list str :=
  match s with
  | [] => [[]]
  | c :: s' =>
      if N.eqb c NL then [] :: split_lines s'
      else match split_lines s' with
           | [] => [[c]]
           | l :: ls => (c :: l) :: ls
           end
  end.

(** [lines.join("\n")]. *)
Fixpoint join_lines (ls : list str) : str :=
  match ls with
  | [] => []
  | l :: rest =>
      match rest with
      | [] => l
      | _ :: _ => l ++ NL :: join_lines rest
      end
  end.

(** Longest whitespace prefix: [line.match(/^\s*/)[0]]. *)
Fixpoint leading_ws (s : str) : str :=
  match s with
  | [] => []
  | c :: s' => if is_space c then c :: leading_ws s' else []
  end.

(** What is left after a greedy [\s*]. *)
Fixpoint skip_ws (s : str) : str :=
  match s with
  | [] => []
  | c :: s' => if is_space c then skip_ws s' else s
  end.

Definition no_newline (s : str) : Prop := ~ In NL s.
Definition all_space (s : str) : Prop := Forall (fun c => is_space c = true) s.

End JsString.
Import JsString.

(** ** The file system and [JSON.parse], as the scripts use them *)

Module Fs.

(** The calls of Node's [fs] module that the scripts make. *)
Inductive fs_event : Type :=
| ExistsSync (path : str)
| ReadFileSync (path : str)
| WriteFileSync (path content : str).

(** Regular files by path, their contents as the strings read and written;
    [events] is the history of calls, oldest first.  Every path of the world
    is either such a file, which can be read and written, or missing:
    directories and files without permission are not part of it.  Where the
    source catches the failure of a write, the write is [tryWriteFileSync]
    below. *)
Record world : Type := World {
  files : str -> option str;
  events : list fs_event
}.

Definition IO (A : Type) : Type := world -> A * world.

Definition ret {A} (a : A) : IO A := fun w => (a, w).

Definition bind {A B} (m : IO A) (k : A -> IO B) : IO B :=
  fun w => let (a, w') := m w in k a w'.

Definition record (e : fs_event) (w : world) : world :=
  World (files w) (events w ++ [e]).

(** [fs.existsSync] in such a world: the path holds a file. *)
Definition existsSync (path : str) : IO bool :=
  fun w =>
    (match files w path with Some _ => true | None => false end,
     record (ExistsSync path) w).

(** [None] stands for the exception thrown on a path that cannot be
    read. *)
Definition readFileSync (path : str) : IO (option str) :=
  fun w => (files w path, record (ReadFileSync path) w).

(** [fs.writeFileSync] when it returns: the path holds the content.  The
    functions that call it outside a [try] are modelled where it returns: an
    exception would leave them without a result. *)
Definition writeFileSync (path content : str) : IO unit :=
  fun w =>
    (tt,
     World (fun q => if str_eqb q path then Some content else files w q)
           (events w ++ [WriteFileSync path content])).

(** [fs.writeFileSync] inside a [try]: [writable] tells for which paths the
    call returns.  For the others (a missing directory, a file that cannot
    be written) it throws, no file changes, and the result is [false]; the
    call is in the history either way. *)
Definition tryWriteFileSync (writable : str -> bool) (path content : str)
  : IO bool :=
  fun w =>
    if writable path then (true, snd (writeFileSync path content w))
    else (false, record (WriteFileSync path content) w).

Definition event_path (e : fs_event) : str :=
  match e with
  | ExistsSync p => p
  | ReadFileSync p => p
  | WriteFileSync p _ => p
  end.

Definition is_write (e : fs_event) : bool :=
  match e with
  | WriteFileSync _ _ => true
  | _ => false
  end.

(** Values produced by [JSON.parse]; an object holds one member per key. *)
Inductive json : Type :=
| JNull
| JBool (b : bool)
| JNumber (repr : str)
| JString (s : str)
| JArray (items : list json)
| JObject (members : list (str * json)).

Fixpoint assoc (key : str) (members : list (str * json)) : option json :=
  match members with
  | [] => None
  | (k, v) :: rest => if str_eqb k key then Some v else assoc key rest
  end.

End Fs.
Import Fs.

Declare Scope io_scope.
Delimit Scope io_scope with io.
Notation "x <- m ;; k" := (bind m (fun x => k))
  (at level 61, m at next level, right associativity) : io_scope.
Open Scope io_scope.

(** ** prepare/keychains_android.js *)

Module KeychainsAndroid.

(** Lines 11-12. *)
Definition DEFAULT_CONFIG_FILE : str :=
  Eval cbv in lit "./build.config.json".
Definition DEFAULT_MANIFEST_PATH : str :=
  Eval cbv in lit "android/app/src/main/AndroidManifest.xml".

Definition QUERIES_OPEN : str := Eval cbv in lit "<queries".
Definition QUERIES_CLOSE : str := Eval cbv in lit "</queries>".
Definition QUERIES_TAG : str := Eval cbv in lit "<queries>".
Definition APPLICATION_OPEN : str := Eval cbv in lit "<application".
Definition PACKAGE_OPEN : str := Eval cbv in lit "<package".
Definition ANDROID_NAME : str := Eval cbv in lit "android:name".
Definition SELF_CLOSE : str := Eval cbv in lit "/>".
Definition EMPTY_CLOSE : str := Eval cbv in lit "></queries>".
Definition KEYCHAINS_KEY : str := Eval cbv in lit "keychains".
Definition PACKAGE_ATTR : str := Eval cbv in lit "<package android:name=".
Definition PACKAGE_END : str := Eval cbv in lit " />".
Definition TWO_SPACES : str := Eval cbv in lit "  ".

(** The replacement text of line 118: the open tag, a line break, the close
    tag. *)
Definition QUERIES_EXPLICIT : str := QUERIES_TAG ++ NL :: QUERIES_CLOSE.

(** The regular expression [/<queries\s*\/>|<queries\s*><\/queries>/]
    anchored at the start of [s]: the text after the match.  Both
    alternatives start with [<queries\s*]; the character after the
    whitespace is not whitespace, so the greedy [\s*] never gives back. *)
Definition match_empty_queries (s : str) : option str :=
  match strip_prefix QUERIES_OPEN s with
  | None => None
  | Some r =>
      match strip_prefix SELF_CLOSE (skip_ws r) with
      | Some t => Some t
      | None => strip_prefix EMPTY_CLOSE (skip_ws r)
      end
  end.

(** [regex.test(manifestContent)], line 113. *)
Fixpoint test_empty_queries (s : str) : bool :=
  match match_empty_queries s with
  | Some _ => true
  | None =>
      match s with
      | [] => false
      | _ :: s' => test_empty_queries s'
      end
  end.

(** [manifestContent.replace(regex, "<queries>\n</queries>")], lines
    116-119: the leftmost match only. *)
Fixpoint replace_empty_queries (s : str) : str :=
  match match_empty_queries s with
  | Some t => QUERIES_EXPLICIT ++ t
  | None =>
      match s with
      | [] => []
      | c :: s' => c :: replace_empty_queries s'
      end
  end.

(** Lines 113-120. *)
Definition normalize_queries (manifestContent : str) : str :=
  if test_empty_queries manifestContent
  then replace_empty_queries manifestContent
  else manifestContent.

(** The loop of lines 129-136 from line [i] on; [None] is the [-1] of the
    source. *)
Fixpoint find_queries_lines (lines : list str) (i : nat)
    (queriesOpenLine queriesCloseLine : option nat)
  : option nat * option nat :=
  match lines with
  | [] => (queriesOpenLine, queriesCloseLine)
  | l :: rest =>
      let o :=
        match queriesOpenLine with
        | None => if includes l QUERIES_OPEN then Some i else None
        | Some _ => queriesOpenLine
        end in
      let c :=
        match queriesCloseLine with
        | None => if includes l QUERIES_CLOSE then Some i else None
        | Some _ => queriesCloseLine
        end in
      find_queries_lines rest (S i) o c
  end.

(** Lines 162 and 238. *)
Definition package_line (packageIndent pkg : str) : str :=
  packageIndent ++ PACKAGE_ATTR ++ DQUOTE :: pkg ++ DQUOTE :: PACKAGE_END.

(** The test of lines 171-174. *)
Definition is_package_entry (line : str) : bool :=
  includes line PACKAGE_OPEN && includes line ANDROID_NAME.

(** The loop of lines 154-183 from line [i] on: the lines pushed to
    [newLines]. *)
Fixpoint rewrite_queries (queriesOpenLine queriesCloseLine : nat)
    (packageIndent : str) (packages : list str)
    (i : nat) (inQueriesSection : bool) (lines : list str) : list str :=
  match lines with
  | [] => []
  | l :: rest =>
      if Nat.eqb i queriesOpenLine then
        l :: map (package_line packageIndent) packages
          ++ rewrite_queries queriesOpenLine queriesCloseLine packageIndent
               packages (S i) true rest
      else if Nat.eqb i queriesCloseLine then
        l :: rewrite_queries queriesOpenLine queriesCloseLine packageIndent
               packages (S i) false rest
      else if inQueriesSection then
        if is_package_entry l then
          rewrite_queries queriesOpenLine queriesCloseLine packageIndent
            packages (S i) inQueriesSection rest
        else
          l :: rewrite_queries queriesOpenLine queriesCloseLine packageIndent
                 packages (S i) inQueriesSection rest
      else
        l :: rewrite_queries queriesOpenLine queriesCloseLine packageIndent
               packages (S i) inQueriesSection rest
  end.

(** Lines 109-194: the branch taken when the manifest contains
    [<queries]; [None] is the [return false] of line 193. *)
Definition update_queries (manifestContent : str) (packages : list str)
  : option str :=
  let manifestContent := normalize_queries manifestContent in
  let lines := split_lines manifestContent in
  match find_queries_lines lines 0 None None with
  | (Some queriesOpenLine, Some queriesCloseLine) =>
      let queriesIndent := leading_ws (nth queriesOpenLine lines []) in
      let packageIndent := queriesIndent ++ TWO_SPACES in
      Some (join_lines
              (rewrite_queries queriesOpenLine queriesCloseLine
                 packageIndent packages 0 false lines))
  | _ => None
  end.

(** The loop of lines 207-212: the first line containing [<application]. *)
Fixpoint find_application_line (lines : list str) (i : nat) : option nat :=
  match lines with
  | [] => None
  | l :: rest =>
      if includes l APPLICATION_OPEN then Some i
      else find_application_line rest (S i)
  end.

(** The loop of lines 232-248 from line [i] on. *)
Fixpoint insert_queries (applicationLine : nat)
    (queriesIndent packageIndent : str) (packages : list str)
    (i : nat) (lines : list str) : list str :=
  match lines with
  | [] => []
  | l :: rest =>
      (if Nat.eqb i applicationLine then
         (queriesIndent ++ QUERIES_TAG)
           :: map (package_line packageIndent) packages
           ++ [queriesIndent ++ QUERIES_CLOSE; []]
       else [])
      ++ l :: insert_queries applicationLine queriesIndent packageIndent
                packages (S i) rest
  end.

(** Lines 195-253: the branch taken when the manifest has no [<queries];
    [None] is the [return false] of line 219. *)
Definition create_queries (manifestContent : str) (packages : list str)
  : option str :=
  let lines := split_lines manifestContent in
  match find_application_line lines 0 with
  | None => None
  | Some applicationLine =>
      let applicationIndent := leading_ws (nth applicationLine lines []) in
      let queriesIndent := applicationIndent in
      let packageIndent := queriesIndent ++ TWO_SPACES in
      Some (join_lines
              (insert_queries applicationLine queriesIndent packageIndent
                 packages 0 lines))
  end.

(** Lines 108-253: the new manifest text, or [None] where the function
    returns [false] before writing. *)
Definition edit_manifest (manifestContent : str) (packages : list str)
  : option str :=
  if includes manifestContent QUERIES_OPEN
  then update_queries manifestContent packages
  else create_queries manifestContent packages.

(** The options after the merge of line 62. *)
Record options : Type := Options {
  manifestPath : str;
  packages : list str
}.

(** Lines 56-59. *)
Definition defaultOptions : options := Options DEFAULT_MANIFEST_PATH [].

Section WithJson.

(** [JSON.parse] ([None] when it throws) and the string conversion of a
    template literal are JavaScript built-ins, taken as parameters. *)
Variable JSON_parse : str -> option json.
Variable ToString : json -> str.

(** Lines 29-44.  Array items are kept as the strings the template literals
    of lines 162 and 238 make of them. *)
Definition extractJsonArray (filePath key : str) : IO (list str) :=
  ex <- existsSync filePath ;;
  if negb ex then ret []
  else
    content <- readFileSync filePath ;;
    match content with
    | None => ret []
    | Some fileContent =>
        match JSON_parse fileContent with
        | Some (JObject members) =>
            match assoc key members with
            | Some (JArray items) => ret (map ToString items)
            | _ => ret []
            end
        | _ => ret []
        end
    end.

(** Lines 64-81. *)
Definition load_packages (configFile : str) (config : options)
  : IO (list str) :=
  match packages config with
  | _ :: _ => ret (packages config)
  | [] =>
      ex <- existsSync configFile ;;
      if ex then
        configPackages <- extractJsonArray configFile KEYCHAINS_KEY ;;
        match configPackages with
        | _ :: _ => ret configPackages
        | [] => ret []
        end
      else ret []
  end.

(** Lines 52-277.  [config] is the merge of the default and the supplied
    options. *)
Definition setupKeychainsAndroid (configFile : str) (config : options)
  : IO bool :=
  pkgs <- load_packages configFile config ;;
  match pkgs with
  | [] => ret false
  | _ :: _ =>
      ex <- existsSync (manifestPath config) ;;
      if negb ex then ret false
      else
        content <- readFileSync (manifestPath config) ;;
        match content with
        | None => ret false (* not reached: the file was seen to exist *)
        | Some manifestContent =>
            match edit_manifest manifestContent pkgs with
            | None => ret false
            | Some manifestContent' =>
                _ <- writeFileSync (manifestPath config) manifestContent' ;;
                ret true
            end
        end
  end.

End WithJson.

End KeychainsAndroid.

(** ** The iOS keychain module: [updateEntitlementsFile] *)

Module KeychainsIos.

(** Line 28. *)
Definition DEFAULT_BUNDLE_ID : str := Eval cbv in lit "com.myapp.default".

Definition KEYCHAIN_KEY : str :=
  Eval cbv in lit "<key>keychain-access-groups</key>".
Definition ARRAY_CLOSE : str := Eval cbv in lit "</array>".
Definition DICT_CLOSE : str := Eval cbv in lit "</dict>".
Definition STRING_PREFIX : str :=
  Eval cbv in lit "<string>$(AppIdentifierPrefix)".
Definition STRING_CLOSE : str := Eval cbv in lit "</string>".

(** The pushed lines of lines 175 and 208, 207 and 216: a tab, then the
    tag. *)
Definition ARRAY_LINE : str := Eval cbv in TAB :: lit "<array>".
Definition KEY_LINE : str := Eval cbv in TAB :: KEYCHAIN_KEY.
Definition ARRAY_CLOSE_LINE : str := Eval cbv in TAB :: ARRAY_CLOSE.

(** Lines 176, 180, 209 and 213: two tabs, then the [<string>] element. *)
Definition keychain_string (id : str) : str :=
  TAB :: TAB :: STRING_PREFIX ++ id ++ STRING_CLOSE.

(** The lines pushed after a key line (lines 175-181) and inside a new
    block (lines 208-214): array start, the bundle ID, the keychains. *)
Definition keychain_entries (bundleId : str) (keychains : list str)
  : list str :=
  ARRAY_LINE :: keychain_string bundleId :: map keychain_string keychains.

(** The loop of lines 169-189. *)
Fixpoint update_keychain_lines (bundleId : str) (keychains : list str)
    (inKeychainSection : bool) (lines : list str) : list str :=
  match lines with
  | [] => []
  | line :: rest =>
      if includes line KEYCHAIN_KEY then
        line :: keychain_entries bundleId keychains
          ++ update_keychain_lines bundleId keychains true rest
      else if inKeychainSection && includes line ARRAY_CLOSE then
        line :: update_keychain_lines bundleId keychains false rest
      else if negb inKeychainSection then
        line :: update_keychain_lines bundleId keychains inKeychainSection rest
      else
        update_keychain_lines bundleId keychains inKeychainSection rest
  end.

(** The loop of lines 202-221. *)
Fixpoint add_keychain_lines (bundleId : str) (keychains : list str)
    (lines : list str) : list str :=
  match lines with
  | [] => []
  | line :: rest =>
      if includes line DICT_CLOSE then
        KEY_LINE :: keychain_entries bundleId keychains
          ++ ARRAY_CLOSE_LINE :: line
          :: add_keychain_lines bundleId keychains rest
      else
        line :: add_keychain_lines bundleId keychains rest
  end.

(** Lines 156-225: the text written back. *)
Definition edit_entitlements (content bundleId : str) (keychains : list str)
  : str :=
  let lines := split_lines content in
  if includes content KEYCHAIN_KEY
  then join_lines (update_keychain_lines bundleId keychains false lines)
  else join_lines (add_keychain_lines bundleId keychains lines).

(** Lines 153-232; a failed read and a failed write are the exceptions
    caught at line 228. *)
Definition updateEntitlementsFile (writable : str -> bool)
    (filePath bundleId : str) (keychains : list str) : IO bool :=
  r <- readFileSync filePath ;;
  match r with
  | None => ret false
  | Some content =>
      written <- tryWriteFileSync writable filePath
                   (edit_entitlements content bundleId keychains) ;;
      if written then ret true else ret false
  end.

End KeychainsIos.

Import KeychainsAndroid KeychainsIos.

(** * Vocabulary of the statements *)

(** ** Texts with a marker: a line, or a whole document *)

Definition has_open (l : str) : bool := includes l QUERIES_OPEN.
Definition has_close (l : str) : bool := includes l QUERIES_CLOSE.
Definition not_package (l : str) : bool := negb (is_package_entry l).
Definition has_application (l : str) : bool := includes l APPLICATION_OPEN.
Definition has_key (l : str) : bool := includes l KEYCHAIN_KEY.
Definition has_array_close (l : str) : bool := includes l ARRAY_CLOSE.
Definition has_dict_close (l : str) : bool := includes l DICT_CLOSE.

(** Pieces of the markers, for the case analyses on the regular
    expression. *)
Definition LETTER_Q : char := 113%N.
Definition QUERIES_NAME : str := Eval cbv in lit "queries".
Definition QUERIES_CLOSE_NAME : str := Eval cbv in lit "/queries>".

(** ** Sections *)

(** [lo] is the first line with an open marker, [lc] the first line with a
    close marker, and [lc] comes after [lo]. *)
Definition queries_section (lines pre : list str) (lo : str)
    (mid : list str) (lc : str) (post : list str) : Prop :=
  lines = pre ++ lo :: mid ++ lc :: post /\
  Forall (fun l => has_open l = false /\ has_close l = false) pre /\
  has_open lo = true /\ has_close lo = false /\
  Forall (fun l => has_close l = false) mid /\
  has_close lc = true.

(** The text the update branch writes for such a document. *)
Definition reconciled (packages pre : list str) (lo : str)
    (mid : list str) (lc : str) (post : list str) : list str :=
  pre ++ lo :: map (package_line (leading_ws lo ++ TWO_SPACES)) packages
    ++ filter not_package mid ++ lc :: post.

(** [lo] is the first line with an open marker, and the first line with a
    close marker is [lo] itself or a line above it. *)
Definition open_ended (lines pre : list str) (lo : str)
    (rest : list str) : Prop :=
  lines = pre ++ lo :: rest /\
  Forall (fun l => has_open l = false) pre /\
  has_open lo = true /\
  (has_close lo = true \/ Exists (fun l => has_close l = true) pre).

(** [ind] is the indentation of the line [l]: its characters up to the
    first one that is not whitespace. *)
Definition indentation_of (l ind : str) : Prop :=
  exists body,
    l = ind ++ body /\ all_space ind /\
    match body with
    | [] => True
    | c :: _ => is_space c = false
    end.


(** The section of an entitlements file: the only key line [lk], and the
    first line with [</array>] after it, [la]. *)
Definition keychain_section (lines pre : list str) (lk : str)
    (mid : list str) (la : str) (post : list str) : Prop :=
  lines = pre ++ lk :: mid ++ la :: post /\
  Forall (fun l => has_key l = false) pre /\
  has_key lk = true /\
  Forall (fun l => has_key l = false /\ has_array_close l = false) mid /\
  has_key la = false /\ has_array_close la = true /\
  Forall (fun l => has_key l = false) post.

(** ** Entries *)

(** An entry without [<] and without a line break. *)
Definition clean_entry (p : str) : Prop := ~ In LT p /\ ~ In NL p.

(** An entry without a line break and without the close marker of the
    Android section; one without the key and the array end of the iOS
    section. *)
Definition fits_queries (p : str) : Prop :=
  ~ In NL p /\ has_close p = false.

Definition fits_keychains (id : str) : Prop :=
  has_key id = false /\ has_array_close id = false.

(** ** Matches of the regular expression across lines *)

(** What follows a line decides a match begun in it only when the line
    ends in [<queries] and whitespace. *)
Definition blocks (u : str) : Prop :=
  strip_prefix SELF_CLOSE (skip_ws u) = None /\
  strip_prefix EMPTY_CLOSE (skip_ws u) = None.

(** No match starts in a line: at no suffix [s] of it. *)
Definition line_free (l u : str) : Prop :=
  forall a s, l = a ++ s -> match_empty_queries (s ++ NL :: u) = None.

(** ** File-system histories *)

(** A history extension made only of existence checks and reads. *)
Definition read_only (w w' : world) (evs : list fs_event) : Prop :=
  w' = World (files w) (events w ++ evs) /\
  Forall (fun e => is_write e = false) evs.

(** ** Example documents *)

Module Examples.

Definition config_path : str := DEFAULT_CONFIG_FILE.
Definition manifest_path : str := DEFAULT_MANIFEST_PATH.
Definition entitlements_path : str :=
  Eval cbv in lit "ios/MyApp/MyApp.entitlements".

Definition com_a : str := Eval cbv in lit "com.a.app".
Definition com_b : str := Eval cbv in lit "com.b.app".
Definition bundle : str := DEFAULT_BUNDLE_ID.

(** A manifest with a populated section and a foreign [<intent>] child. *)
Definition manifest_populated_lines : list str :=
  Eval cbv in
    [lit "<manifest>";
     lit "  <queries>";
     lit "    <intent />";
     lit "    <package android:name=" ++ DQUOTE :: lit "old.app"
       ++ DQUOTE :: lit " />";
     lit "  </queries>";
     lit "  <application />";
     lit "</manifest>"].
Definition manifest_populated : str :=
  Eval cbv in join_lines manifest_populated_lines.

(** A manifest without a section. *)
Definition manifest_plain_lines : list str :=
  Eval cbv in
    [lit "<manifest>"; lit "  <application />"; lit "</manifest>"].
Definition manifest_plain : str := Eval cbv in join_lines manifest_plain_lines.

(** A manifest with neither a section nor an [<application>] tag. *)
Definition manifest_bare : str :=
  Eval cbv in join_lines [lit "<manifest>"; lit "</manifest>"].

(** A close marker above the section. *)
Definition manifest_stray_close : str :=
  Eval cbv in
    join_lines [lit "</queries>"; lit "<queries>"; lit "</queries>"].

(** The section in self-closing form and as an indented explicit pair. *)
Definition manifest_self_closing : str :=
  Eval cbv in
    join_lines [lit "<manifest>"; lit "  <queries/>";
                lit "  <application />"; lit "</manifest>"].
Definition manifest_explicit_indented : str :=
  Eval cbv in
    join_lines [lit "<manifest>"; lit "  <queries>"; lit "  </queries>";
                lit "  <application />"; lit "</manifest>"].

(** Two self-closing sections. *)
Definition manifest_two_sections : str :=
  Eval cbv in join_lines [lit "<queries/>"; lit "<queries/>"].
Definition manifest_two_sections_explicit : str :=
  Eval cbv in
    join_lines [lit "<queries/>"; lit "<queries>"; lit "</queries>"].

(** A section on one line, and a package line further down. *)
Definition stray_package : str :=
  Eval cbv in
    lit "  <!-- <package android:name=" ++ DQUOTE :: lit "old.app"
      ++ DQUOTE :: lit " /> -->".
Definition manifest_one_line_section : str :=
  Eval cbv in
    join_lines [lit "<manifest>"; lit "  <queries> </queries>";
                lit "  <application />"; stray_package; lit "</manifest>"].


(** A manifest without a section, with a close marker in a comment above
    the [<application] line and a package line below it. *)
Definition manifest_comment_close : str :=
  Eval cbv in
    join_lines [lit "<!-- no </queries> yet -->"; lit "<manifest>";
                lit "  <application />"; stray_package; lit "</manifest>"].

(** The same manifest without the package line. *)
Definition manifest_comment_only : str :=
  Eval cbv in
    join_lines [lit "<!-- no </queries> yet -->"; lit "<manifest>";
                lit "  <application />"; lit "</manifest>"].

(** An entry with a line break, and entries with a closing tag. *)
Definition entry_two_lines : str := Eval cbv in lit "a" ++ NL :: lit "b".
Definition entry_array_close : str := Eval cbv in lit "</array>".
Definition entry_queries_close : str := Eval cbv in lit "</queries>".

(** A parser that always throws, and one file on disk. *)
Definition no_json : str -> option json := fun _ => None.
Definition no_string : json -> str := fun _ => [].

Definition world_with (path content : str) : world :=
  World (fun q => if str_eqb q path then Some content else None) [].

(** An entitlements file with a keychain array, and one without. *)
Definition entitlements_with_groups_lines : list str :=
  Eval cbv in
    [lit "<dict>";
     TAB :: lit "<key>keychain-access-groups</key>";
     TAB :: lit "<array>";
     TAB :: TAB :: lit "<!-- shared -->";
     TAB :: lit "</array>";
     lit "</dict>"].
Definition entitlements_with_groups : str :=
  Eval cbv in join_lines entitlements_with_groups_lines.

Definition entitlements_plain_lines : list str :=
  Eval cbv in [lit "<dict>"; lit "</dict>"].
Definition entitlements_plain : str :=
  Eval cbv in join_lines entitlements_plain_lines.


End Examples.

(** ** The iOS keychain module: [createEntitlementsFile] *)

Module EntitlementsFile.

(** The template literal of lines 134-141. *)
Definition ENTITLEMENTS_TEMPLATE_LINES : list str :=
  Eval cbv in
    [lit "<?xml version=" ++ DQUOTE :: lit "1.0" ++ DQUOTE
       :: lit " encoding=" ++ DQUOTE :: lit "UTF-8" ++ DQUOTE :: lit "?>";
     lit "<!DOCTYPE plist PUBLIC " ++ DQUOTE
       :: lit "-//Apple//DTD PLIST 1.0//EN" ++ DQUOTE :: lit " " ++ DQUOTE
       :: lit "http://www.apple.com/DTDs/PropertyList-1.0.dtd" ++ DQUOTE
       :: lit ">";
     lit "<plist version=" ++ DQUOTE :: lit "1.0" ++ DQUOTE :: lit ">";
     lit "<dict>";
     TAB :: lit "<key>aps-environment</key>";
     TAB :: lit "<string>production</string>";
     lit "</dict>";
     lit "</plist>"].

Definition ENTITLEMENTS_TEMPLATE : str :=
  Eval cbv in join_lines ENTITLEMENTS_TEMPLATE_LINES.

(** Lines 133-150; a failed write is the exception caught at line 146. *)
Definition createEntitlementsFile (writable : str -> bool) (filePath : str)
  : IO bool :=
  written <- tryWriteFileSync writable filePath ENTITLEMENTS_TEMPLATE ;;
  if written then ret true else ret false.

End EntitlementsFile.
Import EntitlementsFile.

(** ** The iOS keychain module: looking for the project *)

Module JsStringMore.

(** [String.prototype.startsWith] and [endsWith]. *)
Definition startsWith (s p : str) : bool :=
  match strip_prefix p s with
  | Some _ => true
  | None => false
  end.

Definition endsWith (s p : str) : bool := startsWith (rev s) (rev p).

(** [s.replace(pat, rep)] for a string pattern and a replacement without
    [$]: the first occurrence only. *)
Fixpoint replace_first (s pat rep : str) : str :=
  match strip_prefix pat s with
  | Some rest => rep ++ rest
  | None =>
      match s with
      | [] => []
      | c :: s' => c :: replace_first s' pat rep
      end
  end.

End JsStringMore.
Import JsStringMore.

Module Dirs.

(** What [fs.readdirSync(dir, { withFileTypes: true })] returns for one
    entry: its name, and whether it is a directory. *)
Record dirent : Type := Dirent {
  name : str;
  isDirectory : bool
}.

(** The directories of the file system by path; [None] stands for the
    exception [readdirSync] throws on a path it cannot list. *)
Definition listing : Type := str -> option (list dirent).

(** A directory as [scanDir] walks it: files, directories with their
    entries, and directories that [readdirSync] cannot list. *)
Inductive node : Type :=
| File (name : str)
| Dir (name : str) (children : list node)
| Unreadable (name : str).

End Dirs.
Import Dirs.

Module ProjectSearch.

Definition PODS : str := Eval cbv in lit "Pods".
Definition DOT : str := Eval cbv in lit ".".
Definition XCODEPROJ : str := Eval cbv in lit ".xcodeproj".
Definition ENTITLEMENTS : str := Eval cbv in lit ".entitlements".
Definition EXCLUDED : list str :=
  Eval cbv in [lit "build"; lit "Frameworks"; lit "node_modules"].

(** The first filter of lines 69-74 and the second of lines 75-77. *)
Definition is_candidate (entry : dirent) : bool :=
  isDirectory entry && negb (str_eqb (name entry) PODS)
    && negb (startsWith (name entry) DOT).

Definition not_excluded (entry : dirent) : bool :=
  negb (existsb (str_eqb (name entry)) EXCLUDED).

(** [subEntries.some((name) => name.endsWith(".xcodeproj"))], line 84. *)
Definition has_xcodeproj (subEntries : list str) : bool :=
  existsb (fun n => endsWith n XCODEPROJ) subEntries.

Section WithPaths.

(** [path.join] of two segments. *)
Variable path_join : str -> str -> str.

Section WithListing.

Variable readdirSync : listing.

(** The loop of lines 81-90; a directory that cannot be listed is
    skipped. *)
Fixpoint first_project_dir (iosDir : str) (projectDirs : list str)
  : option str :=
  match projectDirs with
  | [] => None
  | dir :: rest =>
      match readdirSync (path_join iosDir dir) with
      | Some subEntries =>
          if has_xcodeproj (map name subEntries) then Some dir
          else first_project_dir iosDir rest
      | None => first_project_dir iosDir rest
      end
  end.

(** The loop of lines 93-97. *)
Fixpoint first_xcodeproj_entry (entries : list dirent) : option str :=
  match entries with
  | [] => None
  | entry :: rest =>
      if isDirectory entry && endsWith (name entry) XCODEPROJ
      then Some (replace_first (name entry) XCODEPROJ [])
      else first_xcodeproj_entry rest
  end.

(** Lines 63-103; [None] is the [null] returned. *)
Definition findIosProjectDir (iosDir : str) : option str :=
  match readdirSync iosDir with
  | None => None
  | Some entries =>
      let projectDirs :=
        map name (filter not_excluded (filter is_candidate entries)) in
      match first_project_dir iosDir projectDirs with
      | Some dir => Some dir
      | None => first_xcodeproj_entry entries
      end
  end.

End WithListing.

(** [scanDir] of lines 110-122 on one entry and on the entries of a
    directory; [None] is the exception of a directory that cannot be
    listed, which leaves the loop. *)
Fixpoint scan_entry (dir : str) (entry : node) : option (list str) :=
  match entry with
  | File n =>
      if endsWith n ENTITLEMENTS then Some [path_join dir n] else Some []
  | Dir n children =>
      (fix scan_entries (entries : list node) : option (list str) :=
         match entries with
         | [] => Some []
         | e :: rest =>
             match scan_entry (path_join dir n) e with
             | None => None
             | Some found =>
                 match scan_entries rest with
                 | None => None
                 | Some more => Some (found ++ more)
                 end
             end
         end) children
  | Unreadable _ => None
  end.

Fixpoint scanDir (dir : str) (entries : list node) : option (list str) :=
  match entries with
  | [] => Some []
  | e :: rest =>
      match scan_entry dir e with
      | None => None
      | Some found =>
          match scanDir dir rest with
          | None => None
          | Some more => Some (found ++ more)
          end
      end
  end.

(** Lines 106-130: [projectDir] with its entries, or [None] when it
    cannot be listed; any exception gives the empty list. *)
Definition findEntitlementsFiles (projectDir : str)
    (entries : option (list node)) : list str :=
  match entries with
  | None => []
  | Some es =>
      match scanDir projectDir es with
      | Some files => files
      | None => []
      end
  end.

End WithPaths.

End ProjectSearch.
Import ProjectSearch.

(** ** prepare/google_service_info.js: [findIosProjectName] *)

Module GoogleServiceInfo.

Section WithPaths.

Variable path_join : str -> str -> str.

(** [fs.existsSync] on a directory path, and the listings. *)
Variable existsSync_dir : str -> bool.
Variable readdirSync : listing.

(** The loop of lines 48-65.  The outer [None] is an exception thrown by
    [readdirSync], which nothing catches; [Some None] is the end of the
    loop without a [return]. *)
Fixpoint scan_project_dirs (iosPath : str) (entries : list dirent)
  : option (option str) :=
  match entries with
  | [] => Some None
  | entry :: rest =>
      if isDirectory entry && negb (str_eqb (name entry) PODS)
           && negb (startsWith (name entry) DOT)
      then
        if existsb (str_eqb (name entry)) EXCLUDED
        then scan_project_dirs iosPath rest
        else
          match readdirSync (path_join iosPath (name entry)) with
          | None => None
          | Some subEntries =>
              if has_xcodeproj (map name subEntries)
              then Some (Some (name entry))
              else scan_project_dirs iosPath rest
          end
      else scan_project_dirs iosPath rest
  end.

(** Lines 39-75; the inner [None] is the [null] returned. *)
Definition findIosProjectName (iosPath : str) : option (option str) :=
  if negb (existsSync_dir iosPath) then Some None
  else
    match readdirSync iosPath with
    | None => None
    | Some entries =>
        match scan_project_dirs iosPath entries with
        | None => None
        | Some (Some projectName) => Some (Some projectName)
        | Some None => Some (first_xcodeproj_entry entries)
        end
    end.

End WithPaths.

End GoogleServiceInfo.

(** ** The preparation script: [parseArgs] *)

Module PrepareArgs.

Definition DEFAULT_CONFIG_FILE : str := Eval cbv in lit "./build.config.json".
Definition OPT_FILE : str := Eval cbv in lit "--file".
Definition OPT_APP_ICON : str := Eval cbv in lit "--app-icon".
Definition OPT_LOGO : str := Eval cbv in lit "--logo".
Definition OPT_AUTO : str := Eval cbv in lit "--autoVersionCode".
Definition OPT_HELP : str := Eval cbv in lit "--help".
Definition ONE : str := Eval cbv in lit "1".
Definition ZERO : str := Eval cbv in lit "0".

(** The object [args] of lines 357-363; [None] is [null]. *)
Record args : Type := Args {
  configFile : str;
  appIcon : option str;
  logoIcon : option str;
  autoVersionCode : bool;
  help : bool
}.

Definition initial_args : args :=
  Args DEFAULT_CONFIG_FILE None None false false.

(** A call either returns or ends the process with an exit code. *)
Inductive outcome (A : Type) : Type :=
| Returns (a : A)
| Exits (code : N).

Arguments Returns {A} a.
Arguments Exits {A} code.

(** Lines 376-387: the value given to [--autoVersionCode]. *)
Definition auto_value (value : str) : bool :=
  if str_eqb value ONE then true
  else if str_eqb value ZERO then false
  else false.

(** The loop of lines 365-398 from index [i] on: [argv] holds
    [process.argv[i]] and what follows it.  A test [i + 1 <
    process.argv.length] is the match on the rest. *)
Fixpoint parse_from (argv : list str) (a : args) : outcome args :=
  match argv with
  | [] => Returns a
  | arg :: rest =>
      match str_eqb arg OPT_FILE, rest with
      | true, value :: after =>
          parse_from after
            (Args value (appIcon a) (logoIcon a) (autoVersionCode a) (help a))
      | _, _ =>
      match str_eqb arg OPT_APP_ICON, rest with
      | true, value :: after =>
          parse_from after
            (Args (configFile a) (Some value) (logoIcon a)
               (autoVersionCode a) (help a))
      | _, _ =>
      match str_eqb arg OPT_LOGO, rest with
      | true, value :: after =>
          parse_from after
            (Args (configFile a) (appIcon a) (Some value)
               (autoVersionCode a) (help a))
      | _, _ =>
      match str_eqb arg OPT_AUTO, rest with
      | true, value :: after =>
          parse_from after
            (Args (configFile a) (appIcon a) (logoIcon a)
               (auto_value value) (help a))
      | _, _ =>
          if str_eqb arg OPT_AUTO then
            parse_from rest
              (Args (configFile a) (appIcon a) (logoIcon a) true (help a))
          else if str_eqb arg OPT_HELP then
            parse_from rest
              (Args (configFile a) (appIcon a) (logoIcon a)
                 (autoVersionCode a) true)
          else Exits 1%N
      end end end end
  end.

(** Lines 356-401: [process.argv] is read from index 2 on. *)
Definition parseArgs (process_argv : list str) : outcome args :=
  parse_from (skipn 2 process_argv) initial_args.

(** The options that take the argument after them as their value. *)
Definition takes_value (arg : str) : bool :=
  str_eqb arg OPT_FILE || str_eqb arg OPT_APP_ICON || str_eqb arg OPT_LOGO
  || str_eqb arg OPT_AUTO.

(** The assignment an option makes with its value. *)
Definition apply_value (opt value : str) (a : args) : args :=
  if str_eqb opt OPT_FILE then
    Args value (appIcon a) (logoIcon a) (autoVersionCode a) (help a)
  else if str_eqb opt OPT_APP_ICON then
    Args (configFile a) (Some value) (logoIcon a) (autoVersionCode a) (help a)
  else if str_eqb opt OPT_LOGO then
    Args (configFile a) (appIcon a) (Some value) (autoVersionCode a) (help a)
  else
    Args (configFile a) (appIcon a) (logoIcon a) (auto_value value) (help a).

Definition request_help (a : args) : args :=
  Args (configFile a) (appIcon a) (logoIcon a) (autoVersionCode a) true.

(** The argument lists [parseArgs] accepts: [--help], an option with its
    value, and [--autoVersionCode] alone at the very end. *)
Inductive accepted : list str -> Prop :=
| accepted_nil : accepted []
| accepted_help rest :
    accepted rest -> accepted (OPT_HELP :: rest)
| accepted_value opt value rest :
    takes_value opt = true -> accepted rest ->
    accepted (opt :: value :: rest)
| accepted_flag : accepted [OPT_AUTO].

(** The same without the flag at the end: every option is complete. *)
Inductive complete : list str -> Prop :=
| complete_nil : complete []
| complete_help rest :
    complete rest -> complete (OPT_HELP :: rest)
| complete_value opt value rest :
    takes_value opt = true -> complete rest ->
    complete (opt :: value :: rest).

End PrepareArgs.

(** ** The preparation script: [updateAndroidConfig] *)

Module PrepareAndroid.

(** Lines 234-244. *)
Definition gradlePath : str := Eval cbv in lit "android/app/build.gradle".
Definition stringsPath : str :=
  Eval cbv in lit "android/app/src/main/res/values/strings.xml".
Definition colorsPath : str :=
  Eval cbv in lit "android/app/src/main/res/values/colors.xml".
Definition colorsNightPath : str :=
  Eval cbv in lit "android/app/src/main/res/values-night/colors.xml".
Definition manifestPath : str :=
  Eval cbv in lit "android/app/src/main/AndroidManifest.xml".

(** The fields of [config] the function reads, as the texts its template
    literals make of them. *)
Record config : Type := Config {
  ANDROID_APP_ID : str;
  APP_NAME : str;
  PRIMARY_COLOR : str;
  THEME_COLOR : str;
  VERSION : str;
  autoVersionCode : bool;
  CONFIG_FILE : str
}.

(** The regular expressions of lines 270, 277, 285, 289, 310 and 330. *)
Inductive regex : Type :=
| RE_APPLICATION_ID
| RE_APP_NAME
| RE_PRIMARY_COLOR
| RE_THEME_COLOR
| RE_VERSION_NAME
| RE_VERSION_CODE.

(** How a call ends: it returns, [process.exit] ends the process, or an
    exception leaves the function. *)
Inductive ending : Type :=
| Completed
| Exited (code : N)
| Threw.

(** The replacement texts of lines 271, 278, 286, 290 and 311. *)
Definition application_id_text (id : str) : str :=
  lit "applicationId " ++ DQUOTE :: id ++ [DQUOTE].

Definition app_name_text (appName : str) : str :=
  lit "<string name=" ++ DQUOTE :: lit "app_name" ++ DQUOTE :: lit ">"
    ++ appName ++ lit "</string>".

Definition color_text (colorName color : str) : str :=
  lit "<color name=" ++ DQUOTE :: colorName ++ DQUOTE :: lit ">"
    ++ color ++ lit "</color>".

Definition version_name_text (version : str) : str :=
  lit "versionName " ++ DQUOTE :: version ++ [DQUOTE].

Section WithBuiltins.

Variable JSON_parse : str -> option json.
Variable ToString : json -> str.

(** [content.replace(re, replacement)] for the six regular expressions,
    and the text of [currentVersionCode + 1] for the version code that
    lines 315-316 read from the gradle text: parameters, like
    [JSON.parse]. *)
Variable replace : regex -> str -> str -> str.
Variable next_version_code : str -> str.

(** Lines 284-291 and 297-304. *)
Definition update_colors (config : config) (content : str) : str :=
  replace RE_THEME_COLOR
    (replace RE_PRIMARY_COLOR content
       (color_text (lit "primary_color") (PRIMARY_COLOR config)))
    (color_text (lit "theme_color") (THEME_COLOR config)).

(** Lines 269-272, 309-312 and 329-332: the gradle text that is written
    when the version code is incremented. *)
Definition update_gradle (config : config) (content : str) : str :=
  let gradleContent :=
    replace RE_VERSION_NAME
      (replace RE_APPLICATION_ID content
         (application_id_text (ANDROID_APP_ID config)))
      (version_name_text (VERSION config)) in
  replace RE_VERSION_CODE gradleContent
    (lit "versionCode " ++ next_version_code gradleContent).

(** Lines 294-306; [false] when the read throws. *)
Definition update_night_colors (config : config) : IO bool :=
  ex <- existsSync colorsNightPath ;;
  if ex then
    r <- readFileSync colorsNightPath ;;
    match r with
    | None => ret false
    | Some colorsNightContent =>
        _ <- writeFileSync colorsNightPath
               (update_colors config colorsNightContent) ;;
        ret true
    end
  else ret true.

(** Lines 230-353. *)
Definition updateAndroidConfig (config : config) : IO ending :=
  g <- existsSync gradlePath ;;
  if negb g then ret (Exited 1%N) else
  s <- existsSync stringsPath ;;
  if negb s then ret (Exited 1%N) else
  c <- existsSync colorsPath ;;
  if negb c then ret (Exited 1%N) else
  m <- existsSync manifestPath ;;
  if negb m then ret (Exited 1%N) else
  gradle <- readFileSync gradlePath ;;
  match gradle with
  | None => ret Threw
  | Some gradleContent =>
      strings <- readFileSync stringsPath ;;
      match strings with
      | None => ret Threw
      | Some stringsContent =>
          _ <- writeFileSync stringsPath
                 (replace RE_APP_NAME stringsContent
                    (app_name_text (APP_NAME config))) ;;
          colors <- readFileSync colorsPath ;;
          match colors with
          | None => ret Threw
          | Some colorsContent =>
              _ <- writeFileSync colorsPath
                     (update_colors config colorsContent) ;;
              night <- update_night_colors config ;;
              if negb night then ret Threw else
              _ <- (if autoVersionCode config
                    then writeFileSync gradlePath
                           (update_gradle config gradleContent)
                    else ret tt) ;;
              _ <- setupKeychainsAndroid JSON_parse ToString
                     (CONFIG_FILE config) defaultOptions ;;
              ret Completed
          end
      end
  end.

End WithBuiltins.

End PrepareAndroid.

(** ** Vocabulary for the project search *)

(** The directory [dir] of [iosDir] lists a name ending in
    [.xcodeproj]. *)
Definition holds_project (path_join : str -> str -> str)
    (readdirSync : listing) (iosDir dir : str) : Prop :=
  exists subEntries,
    readdirSync (path_join iosDir dir) = Some subEntries /\
    has_xcodeproj (map name subEntries) = true.

(** Every directory at or below the entry can be listed. *)
Fixpoint readable (entry : node) : bool :=
  match entry with
  | File _ => true
  | Dir _ children => forallb readable children
  | Unreadable _ => false
  end.

(** [p] is the path of an entry that is not a directory, has a name
    ending in [.entitlements] and lies in [dir] or in a directory below
    it, with [dir] listing [entries]. *)
Inductive entitlements_below (path_join : str -> str -> str)
  : str -> list node -> str -> Prop :=
| below_here dir entries n :
    In (File n) entries -> endsWith n ENTITLEMENTS = true ->
    entitlements_below path_join dir entries (path_join dir n)
| below_deeper dir entries n children p :
    In (Dir n children) entries ->
    entitlements_below path_join (path_join dir n) children p ->
    entitlements_below path_join dir entries p.

(** What [scanDir] does on one entry: it fails exactly on an entry that
    is not readable, and otherwise finds the entitlements files below. *)
Definition scan_spec (path_join : str -> str -> str) (entry : node)
  : Prop :=
  forall dir,
    (scan_entry path_join dir entry = None <-> readable entry = false) /\
    (forall found, scan_entry path_join dir entry = Some found ->
       forall p, In p found
                 <-> entitlements_below path_join dir [entry] p).

(** ** More example inputs *)

Module MoreExamples.

(** A parser that answers with a config object whose [keychains] array
    holds two strings, and the string conversion of strings. *)
Definition config_json : str -> option json :=
  fun _ =>
    Some (JObject
            [(KEYCHAINS_KEY,
              JArray [JString Examples.com_a; JString Examples.com_b])]).

Definition string_of_json (j : json) : str :=
  match j with
  | JString s => s
  | _ => []
  end.

(** Joining two segments with a slash, and an [ios] directory in the
    usual layout: the sources in [MyApp], the project in
    [MyApp.xcodeproj]. *)
Definition slash_join (a b : str) : str := a ++ lit "/" ++ b.

Definition ios_dir : str := Eval cbv in lit "ios".

Definition ios_listing : listing :=
  fun p =>
    if str_eqb p ios_dir then
      Some [Dirent (lit "Pods") true;
            Dirent (lit "MyApp") true;
            Dirent (lit "MyApp.xcodeproj") true;
            Dirent (lit "Podfile") false]
    else if str_eqb p (slash_join ios_dir (lit "MyApp")) then
      Some [Dirent (lit "Info.plist") false;
            Dirent (lit "MyApp.entitlements") false]
    else if str_eqb p (slash_join ios_dir (lit "MyApp.xcodeproj")) then
      Some [Dirent (lit "project.pbxproj") false]
    else if str_eqb p (slash_join ios_dir (lit "Pods")) then
      Some [Dirent (lit "Pods.xcodeproj") true]
    else None.

(** The entries of a project directory with an entitlements file below a
    subdirectory, and the same with a directory that cannot be listed. *)
Definition project_entries : list node :=
  [File (lit "Info.plist");
   Dir (lit "Support") [File (lit "MyApp.entitlements")];
   Dir (lit "Old.entitlements") []].

Definition project_entries_locked : list node :=
  project_entries ++ [Unreadable (lit "Private")].

(** A project with the four files the Android step needs, a
    configuration without version code increment, and a replacement that
    puts the new text in place of the whole content. *)
Definition android_world : world :=
  World
    (fun q =>
       if str_eqb q PrepareAndroid.gradlePath then
         Some (lit "versionCode 1")
       else if str_eqb q PrepareAndroid.stringsPath then
         Some (lit "<resources/>")
       else if str_eqb q PrepareAndroid.colorsPath then
         Some (lit "<resources/>")
       else if str_eqb q PrepareAndroid.manifestPath then
         Some Examples.manifest_plain
       else None)
    [].

Definition android_config : PrepareAndroid.config :=
  PrepareAndroid.Config (lit "com.example") (lit "Example") (lit "#FFFFFF")
    (lit "#000000") (lit "1.0.0") false Examples.config_path.

Definition replace_all : PrepareAndroid.regex -> str -> str -> str :=
  fun _ _ replacement => replacement.

Definition next_code : str -> str := fun _ => lit "2".

End MoreExamples.

(** * Properties *)

(** ** Prefixes and occurrences *)

Lemma strip_prefix_app (p s : str) : strip_prefix p (p ++ s) = Some s.
Proof.
  induction p as [|c p IH]; simpl; [reflexivity|].
  now rewrite N.eqb_refl.
Qed.

Lemma strip_prefix_eq (p s r : str) :
  strip_prefix p s = Some r -> s = p ++ r.
Proof.
  revert s; induction p as [|c p IH]; simpl; intros s H.
  - congruence.
  - destruct s as [|d s]; [discriminate|].
    destruct (N.eqb_spec c d) as [->|]; [|discriminate].
    f_equal; auto.
Qed.

Lemma strip_prefix_ext (p t u r : str) :
  strip_prefix p t = Some r -> strip_prefix p (t ++ u) = Some (r ++ u).
Proof.
  intros H. apply strip_prefix_eq in H. subst t.
  rewrite <- app_assoc. apply strip_prefix_app.
Qed.

(** A prefix that does not contain [x] cannot reach over an [x]. *)
Lemma strip_prefix_cut (p t u r : str) (x : char) :
  ~ In x p ->
  strip_prefix p (t ++ x :: u) = Some r ->
  exists r0, strip_prefix p t = Some r0 /\ r = r0 ++ x :: u.
Proof.
  revert t; induction p as [|c p IH]; simpl; intros t Hx H.
  - exists t. split; congruence.
  - destruct t as [|d t]; simpl in H.
    + destruct (N.eqb_spec c x) as [->|]; [|discriminate].
      exfalso; apply Hx; now left.
    + destruct (N.eqb c d); [|discriminate].
      apply IH; auto.
Qed.

Lemma includes_here (s p r : str) :
  strip_prefix p s = Some r -> includes s p = true.
Proof. intros H. destruct s; simpl; now rewrite H. Qed.

Lemma includes_iff (s p : str) :
  includes s p = true <-> exists a b, s = a ++ p ++ b.
Proof.
  split.
  - induction s as [|c s IH]; simpl.
    + destruct (strip_prefix p []) as [r|] eqn:E; [|discriminate].
      intros _. exists [], r. simpl. now apply strip_prefix_eq.
    + destruct (strip_prefix p (c :: s)) as [r|] eqn:E.
      * intros _. exists [], r. simpl. now apply strip_prefix_eq.
      * intros H. destruct (IH H) as (a & b & ->).
        now exists (c :: a), b.
  - intros (a & b & ->). induction a as [|c a IH]; simpl.
    + apply includes_here with b, strip_prefix_app.
    + destruct (strip_prefix p (c :: a ++ p ++ b)); auto.
Qed.

Lemma includes_app_l (a b p : str) :
  includes a p = true -> includes (a ++ b) p = true.
Proof.
  rewrite !includes_iff. intros (x & y & ->).
  exists x, (y ++ b). now rewrite <- !app_assoc.
Qed.

Lemma includes_app_r (a b p : str) :
  includes b p = true -> includes (a ++ b) p = true.
Proof.
  rewrite !includes_iff. intros (x & y & ->).
  exists (a ++ x), y. now rewrite <- !app_assoc.
Qed.

Lemma includes_app_false (a b p : str) :
  includes (a ++ b) p = false ->
  includes a p = false /\ includes b p = false.
Proof.
  intros H. split.
  - destruct (includes a p) eqn:E; [|reflexivity].
    now rewrite (includes_app_l _ _ _ E) in H.
  - destruct (includes b p) eqn:E; [|reflexivity].
    now rewrite (includes_app_r _ _ _ E) in H.
Qed.

Lemma includes_cons_false (c : char) (s p : str) :
  includes (c :: s) p = false -> includes s p = false.
Proof. apply (includes_app_false [c] s p). Qed.

(** An occurrence of a pattern without [x] lies on one side of an [x]. *)
Lemma includes_cut (a b p : str) (x : char) :
  ~ In x p -> p <> [] ->
  includes (a ++ x :: b) p = true ->
  includes a p = true \/ includes b p = true.
Proof.
  intros Hx Hp. induction a as [|c a IH]; simpl.
  - destruct (strip_prefix p (x :: b)) eqn:E; [|auto].
    destruct p as [|d p]; [congruence|]. simpl in E.
    destruct (N.eqb_spec d x) as [->|]; [|discriminate].
    exfalso; apply Hx; now left.
  - destruct (strip_prefix p (c :: a ++ x :: b)) eqn:E.
    + intros _. left.
      apply (strip_prefix_cut p (c :: a) b) in E; [|assumption].
      destruct E as (r0 & E & _). now rewrite E.
    + intros H. destruct (IH H) as [H1|H1]; [left|now right].
      destruct (strip_prefix p (c :: a)); auto.
Qed.

(** ** Lines *)

Lemma split_lines_not_nil (s : str) : split_lines s <> [].
Proof.
  induction s as [|c s IH]; simpl; [discriminate|].
  destruct (N.eqb c NL); [discriminate|].
  destruct (split_lines s); discriminate.
Qed.

Lemma join_lines_cons (l : str) (rest : list str) :
  rest <> [] -> join_lines (l :: rest) = l ++ NL :: join_lines rest.
Proof. destruct rest; [congruence|reflexivity]. Qed.

Lemma join_split (s : str) : join_lines (split_lines s) = s.
Proof.
  induction s as [|c s IH]; [reflexivity|].
  simpl split_lines.
  destruct (N.eqb_spec c NL) as [->|Hc].
  - rewrite join_lines_cons by apply split_lines_not_nil.
    simpl. now rewrite IH.
  - pose proof (split_lines_not_nil s) as Hn.
    destruct (split_lines s) as [|l ls]; [congruence|].
    rewrite <- IH. destruct ls; reflexivity.
Qed.

Lemma split_lines_no_newline (s : str) : Forall no_newline (split_lines s).
Proof.
  induction s as [|c s IH]; simpl.
  - constructor; [intros []|constructor].
  - destruct (N.eqb_spec c NL) as [->|Hc].
    + constructor; [intros []|assumption].
    + destruct (split_lines s) as [|l ls]; inversion IH; subst.
      * constructor; [|constructor]. intros [H|[]]; congruence.
      * constructor; [|assumption].
        intros [H|H]; [congruence|contradiction].
Qed.

Lemma split_lines_line (l : str) :
  no_newline l -> split_lines l = [l].
Proof.
  induction l as [|c l IH]; intros H; [reflexivity|].
  simpl. destruct (N.eqb_spec c NL) as [->|Hc].
  - exfalso; apply H; now left.
  - rewrite IH; [reflexivity|]. intros Hin; apply H; now right.
Qed.

Lemma split_lines_app (l s : str) :
  no_newline l -> split_lines (l ++ NL :: s) = l :: split_lines s.
Proof.
  induction l as [|c l IH]; intros H; simpl.
  - reflexivity.
  - destruct (N.eqb_spec c NL) as [->|Hc].
    + exfalso; apply H; now left.
    + rewrite IH; [reflexivity|]. intros Hin; apply H; now right.
Qed.

Lemma split_join (ls : list str) :
  ls <> [] -> Forall no_newline ls -> split_lines (join_lines ls) = ls.
Proof.
  induction ls as [|l ls IH]; intros Hn HF; [congruence|].
  inversion HF; subst.
  destruct ls as [|l' ls'].
  - now apply split_lines_line.
  - rewrite join_lines_cons by discriminate.
    rewrite split_lines_app by assumption.
    f_equal. apply IH; [discriminate|assumption].
Qed.

Lemma join_lines_app (xs ys : list str) :
  xs <> [] -> ys <> [] ->
  join_lines (xs ++ ys) = join_lines xs ++ NL :: join_lines ys.
Proof.
  induction xs as [|x xs IH]; intros Hx Hy; [congruence|].
  destruct xs as [|x' xs'].
  - simpl app. now rewrite join_lines_cons.
  - change ((x :: x' :: xs') ++ ys) with (x :: (x' :: xs') ++ ys).
    rewrite !join_lines_cons by (try discriminate; destruct ys; discriminate).
    rewrite IH by (assumption || discriminate).
    now rewrite <- app_assoc.
Qed.

(** A pattern found in a line is found in the joined text. *)
Lemma includes_join (ls : list str) (l p : str) :
  In l ls -> includes l p = true -> includes (join_lines ls) p = true.
Proof.
  induction ls as [|x ls IH]; intros Hin Hl; [contradiction|].
  destruct ls as [|x' ls'].
  - destruct Hin as [->|[]]. assumption.
  - rewrite join_lines_cons by discriminate.
    destruct Hin as [->|Hin].
    + now apply includes_app_l.
    + apply includes_app_r. apply (includes_app_r [NL]). now apply IH.
Qed.

(** A pattern without a line break found in the joined text is found in
    one of the lines. *)
Lemma includes_join_inv (ls : list str) (p : str) :
  ~ In NL p -> p <> [] ->
  includes (join_lines ls) p = true ->
  exists l, In l ls /\ includes l p = true.
Proof.
  intros Hnl Hp. induction ls as [|x ls IH]; intros H.
  - simpl in H. destruct p; [congruence|discriminate].
  - destruct ls as [|x' ls'].
    + exists x. split; [now left|assumption].
    + rewrite join_lines_cons in H by discriminate.
      apply includes_cut in H; auto.
      destruct H as [H|H].
      * exists x. split; [now left|assumption].
      * destruct (IH H) as (l & Hin & Hl).
        exists l. split; [now right|assumption].
Qed.

Lemma includes_split (s p : str) :
  includes s p = false ->
  Forall (fun l => includes l p = false) (split_lines s).
Proof.
  intros H. apply Forall_forall. intros l Hin.
  destruct (includes l p) eqn:E; [|reflexivity].
  rewrite <- (join_split s) in H.
  now rewrite (includes_join _ _ _ Hin E) in H.
Qed.

Lemma includes_split_inv (s p : str) :
  ~ In NL p -> p <> [] ->
  includes s p = true ->
  exists l, In l (split_lines s) /\ includes l p = true.
Proof.
  intros Hnl Hp H. rewrite <- (join_split s) in H.
  now apply includes_join_inv.
Qed.

(** ** The scanning loops of the Android editor *)

Lemma find_queries_lines_found (lines : list str) (i o c : nat) :
  find_queries_lines lines i (Some o) (Some c) = (Some o, Some c).
Proof. revert i; induction lines as [|l ls IH]; intros i; simpl; auto. Qed.

Lemma find_queries_lines_close (mid post : list str) (lc : str) (i o : nat) :
  Forall (fun l => has_close l = false) mid ->
  has_close lc = true ->
  find_queries_lines (mid ++ lc :: post) i (Some o) None
  = (Some o, Some (i + length mid)).
Proof.
  unfold has_close. intros Hmid Hc. revert i.
  induction Hmid as [|l mid Hl _ IH]; intros i; simpl.
  - rewrite Hc, find_queries_lines_found. do 2 f_equal. lia.
  - rewrite Hl, IH. do 2 f_equal. lia.
Qed.

Lemma find_queries_lines_section
    (pre mid post : list str) (lo lc : str) (i : nat) :
  Forall (fun l => has_open l = false /\ has_close l = false) pre ->
  has_open lo = true -> has_close lo = false ->
  Forall (fun l => has_close l = false) mid ->
  has_close lc = true ->
  find_queries_lines (pre ++ lo :: mid ++ lc :: post) i None None
  = (Some (i + length pre), Some (i + length pre + 1 + length mid)).
Proof.
  unfold has_open, has_close. intros Hpre Ho Hoc Hmid Hc. revert i.
  induction Hpre as [|l pre [Hl1 Hl2] _ IH]; intros i; simpl.
  - rewrite Ho, Hoc, find_queries_lines_close by assumption.
    do 2 f_equal; lia.
  - rewrite Hl1, Hl2, IH. do 2 f_equal; lia.
Qed.

(** The scan returns the first line with an open marker and the first line
    with a close marker, each searched from the top of the document. *)
Lemma find_queries_lines_first (lines : list str) (i : nat) (qo qc : option nat)
    (o c : nat) :
  find_queries_lines lines i qo qc = (Some o, Some c) ->
  (qo = Some o \/
   qo = None /\ i <= o /\ has_open (nth (o - i) lines []) = true /\
   o - i < length lines /\
   forall j, j < o - i -> has_open (nth j lines []) = false) /\
  (qc = Some c \/
   qc = None /\ i <= c /\ has_close (nth (c - i) lines []) = true /\
   c - i < length lines /\
   forall j, j < c - i -> has_close (nth j lines []) = false).
Proof.
  unfold has_open, has_close.
  revert i qo qc; induction lines as [|l ls IH]; intros i qo qc; simpl.
  - intros [= -> ->]. auto.
  - intros H. apply IH in H. destruct H as [Ho Hc]. split.
    + destruct qo as [o'|]; [destruct Ho as [Ho|(Ho & _)]; [auto|discriminate]|].
      right. split; [reflexivity|].
      destruct (includes l QUERIES_OPEN) eqn:E.
      * destruct Ho as [[= <-]|(Ho & _)]; [|discriminate].
        rewrite Nat.sub_diag. repeat split; simpl; auto; lia.
      * destruct Ho as [Ho|(_ & Hi & Hn & Hlen & Hlt)]; [discriminate|].
        replace (o - i) with (S (o - S i)) by lia.
        repeat split; simpl; auto; try lia.
        intros [|j] Hj; [assumption|]. apply Hlt. lia.
    + destruct qc as [c'|]; [destruct Hc as [Hc|(Hc & _)]; [auto|discriminate]|].
      right. split; [reflexivity|].
      destruct (includes l QUERIES_CLOSE) eqn:E.
      * destruct Hc as [[= <-]|(Hc & _)]; [|discriminate].
        rewrite Nat.sub_diag. repeat split; simpl; auto; lia.
      * destruct Hc as [Hc|(_ & Hi & Hn & Hlen & Hlt)]; [discriminate|].
        replace (c - i) with (S (c - S i)) by lia.
        repeat split; simpl; auto; try lia.
        intros [|j] Hj; [assumption|]. apply Hlt. lia.
Qed.

(** ** The rewriting loop of the Android editor *)

(** Up to the open line every line is copied, wherever the close line is. *)
Lemma rewrite_queries_prefix (o c : nat) (ind : str) (P pre rest : list str)
    (i : nat) :
  i + length pre <= o ->
  rewrite_queries o c ind P i false (pre ++ rest)
  = pre ++ rewrite_queries o c ind P (i + length pre) false rest.
Proof.
  revert i; induction pre as [|l pre IH]; intros i Hi; simpl in *.
  - now rewrite Nat.add_0_r.
  - destruct (Nat.eqb_spec i o); [lia|].
    replace (i + S (length pre)) with (S i + length pre) by lia.
    destruct (Nat.eqb_spec i c); now rewrite IH by lia.
Qed.

Lemma rewrite_queries_at_open (o c : nat) (ind : str) (P : list str)
    (b : bool) (l : str) (rest : list str) :
  rewrite_queries o c ind P o b (l :: rest)
  = l :: map (package_line ind) P ++ rewrite_queries o c ind P (S o) true rest.
Proof. simpl. now rewrite Nat.eqb_refl. Qed.

Section RewriteQueries.

Variables (o c : nat) (packageIndent : str) (packages : list str).
Hypothesis open_before_close : o < c.

Let rw := rewrite_queries o c packageIndent packages.

Lemma rewrite_queries_inside (mid rest : list str) (i : nat) :
  o < i -> i + length mid <= c ->
  rw i true (mid ++ rest)
  = filter not_package mid ++ rw (i + length mid) true rest.
Proof.
  unfold rw, not_package.
  revert i; induction mid as [|l mid IH]; intros i Ho Hi; simpl in *.
  - now rewrite Nat.add_0_r.
  - destruct (Nat.eqb_spec i o); [lia|].
    destruct (Nat.eqb_spec i c); [lia|].
    replace (i + S (length mid)) with (S i + length mid) by lia.
    destruct (is_package_entry l); simpl; now rewrite IH by lia.
Qed.

Lemma rewrite_queries_after (post : list str) (i : nat) :
  c < i -> rw i false post = post.
Proof.
  unfold rw. revert i; induction post as [|l post IH]; intros i Hi; simpl.
  - reflexivity.
  - destruct (Nat.eqb_spec i o); [lia|].
    destruct (Nat.eqb_spec i c); [lia|].
    now rewrite IH by lia.
Qed.

Lemma rewrite_queries_close (i : nat) (b : bool) (l : str) (rest : list str) :
  i = c -> rw i b (l :: rest) = l :: rw (S i) false rest.
Proof.
  intros ->. unfold rw. simpl.
  destruct (Nat.eqb_spec c o); [lia|]. now rewrite Nat.eqb_refl.
Qed.

Lemma rewrite_queries_section (pre mid post : list str) (lo lc : str) :
  o = length pre -> c = length pre + 1 + length mid ->
  rw 0 false (pre ++ lo :: mid ++ lc :: post)
  = pre ++ lo :: map (package_line packageIndent) packages
      ++ filter not_package mid ++ lc :: post.
Proof.
  intros Ho Hc. unfold rw. rewrite rewrite_queries_prefix by lia.
  simpl plus. rewrite <- Ho, rewrite_queries_at_open. fold rw.
  rewrite rewrite_queries_inside by lia.
  rewrite rewrite_queries_close by lia.
  rewrite rewrite_queries_after by lia.
  reflexivity.
Qed.

End RewriteQueries.

(** ** The creation loops of the Android editor *)

Lemma find_application_line_first (pre post : list str) (la : str) (i : nat) :
  Forall (fun l => has_application l = false) pre ->
  has_application la = true ->
  find_application_line (pre ++ la :: post) i = Some (i + length pre).
Proof.
  unfold has_application. intros Hpre Ha. revert i.
  induction Hpre as [|l pre Hl _ IH]; intros i; simpl.
  - rewrite Ha. f_equal; lia.
  - rewrite Hl, IH. f_equal; lia.
Qed.

Lemma find_application_line_none (lines : list str) (i : nat) :
  Forall (fun l => has_application l = false) lines ->
  find_application_line lines i = None.
Proof.
  unfold has_application. intros H. revert i.
  induction H as [|l ls Hl _ IH]; intros i; simpl; [reflexivity|].
  now rewrite Hl.
Qed.

Lemma find_application_line_some (lines : list str) (i a : nat) :
  find_application_line lines i = Some a ->
  exists pre la post,
    lines = pre ++ la :: post /\ a = i + length pre /\
    Forall (fun l => has_application l = false) pre /\
    has_application la = true.
Proof.
  unfold has_application.
  revert i; induction lines as [|l ls IH]; intros i; simpl; [discriminate|].
  destruct (includes l APPLICATION_OPEN) eqn:E.
  - intros [= <-]. exists [], l, ls. simpl. repeat split; auto.
  - intros H. destruct (IH _ H) as (pre & la & post & -> & -> & Hpre & Ha).
    exists (l :: pre), la, post. simpl. repeat split; auto; lia.
Qed.

Lemma insert_queries_after (a : nat) (qi pi : str) (pk post : list str)
    (i : nat) :
  a < i -> insert_queries a qi pi pk i post = post.
Proof.
  revert i; induction post as [|l post IH]; intros i Hi; simpl; [reflexivity|].
  destruct (Nat.eqb_spec i a); [lia|]. simpl. now rewrite IH by lia.
Qed.

Lemma insert_queries_at (qi pi : str) (pk pre post : list str) (la : str)
    (i : nat) :
  insert_queries (i + length pre) qi pi pk i (pre ++ la :: post)
  = pre ++ (qi ++ QUERIES_TAG) :: map (package_line pi) pk
      ++ (qi ++ QUERIES_CLOSE) :: [] :: la :: post.
Proof.
  revert i; induction pre as [|l pre IH]; intros i; simpl.
  - rewrite Nat.add_0_r, Nat.eqb_refl. simpl.
    rewrite <- app_assoc. simpl.
    now rewrite insert_queries_after by lia.
  - destruct (Nat.eqb_spec i (i + S (length pre))); [lia|]. simpl.
    replace (i + S (length pre)) with (S i + length pre) by lia.
    now rewrite IH.
Qed.

(** ** The regular expression for the empty forms *)

Lemma test_empty_queries_unfold (s : str) :
  test_empty_queries s =
  match match_empty_queries s with
  | Some _ => true
  | None => match s with [] => false | _ :: s' => test_empty_queries s' end
  end.
Proof. destruct s; reflexivity. Qed.

Lemma replace_empty_queries_unfold (s : str) :
  replace_empty_queries s =
  match match_empty_queries s with
  | Some t => QUERIES_EXPLICIT ++ t
  | None =>
      match s with [] => [] | c :: s' => c :: replace_empty_queries s' end
  end.
Proof. destruct s; reflexivity. Qed.

Lemma test_empty_queries_here (s : str) :
  test_empty_queries s = false -> match_empty_queries s = None.
Proof.
  rewrite test_empty_queries_unfold.
  destruct (match_empty_queries s); congruence.
Qed.

Lemma test_empty_queries_cons (c : char) (s : str) :
  test_empty_queries (c :: s) = false -> test_empty_queries s = false.
Proof.
  rewrite test_empty_queries_unfold.
  destruct (match_empty_queries _); congruence.
Qed.

Lemma test_empty_queries_app (a b : str) :
  test_empty_queries (a ++ b) = false -> test_empty_queries b = false.
Proof.
  induction a as [|c a IH]; simpl app; [auto|].
  intros H. apply IH. now apply test_empty_queries_cons in H.
Qed.

Lemma test_empty_queries_step (c : char) (s : str) :
  match_empty_queries (c :: s) = None ->
  test_empty_queries (c :: s) = test_empty_queries s.
Proof. intros H. rewrite test_empty_queries_unfold. now rewrite H. Qed.

Lemma replace_empty_queries_none (s : str) :
  test_empty_queries s = false -> replace_empty_queries s = s.
Proof.
  induction s as [|c s IH]; intros H; rewrite replace_empty_queries_unfold;
    rewrite (test_empty_queries_here _ H); [reflexivity|].
  f_equal. apply IH. now apply test_empty_queries_cons in H.
Qed.

Lemma normalize_queries_none (s : str) :
  test_empty_queries s = false -> normalize_queries s = s.
Proof. unfold normalize_queries. now intros ->. Qed.

Lemma normalize_queries_replace (s : str) :
  normalize_queries s = replace_empty_queries s.
Proof.
  unfold normalize_queries. destruct (test_empty_queries s) eqn:E; auto.
  now rewrite replace_empty_queries_none.
Qed.

Lemma match_empty_queries_open (s t : str) :
  match_empty_queries s = Some t ->
  exists r, strip_prefix QUERIES_OPEN s = Some r.
Proof.
  unfold match_empty_queries.
  destruct (strip_prefix QUERIES_OPEN s) as [r|]; [eauto|discriminate].
Qed.

Lemma no_open_no_match (s : str) :
  has_open s = false -> match_empty_queries s = None.
Proof.
  unfold has_open. intros H.
  destruct (match_empty_queries s) as [t|] eqn:E; [|reflexivity].
  destruct (match_empty_queries_open _ E) as (r & Hr).
  now rewrite (includes_here _ _ Hr) in H.
Qed.

(** A text without the open marker contains no empty form. *)
Lemma no_open_no_empty_form (s : str) :
  has_open s = false -> test_empty_queries s = false.
Proof.
  unfold has_open. induction s as [|c s IH]; intros H.
  - rewrite test_empty_queries_unfold. now rewrite no_open_no_match.
  - rewrite test_empty_queries_step by now apply no_open_no_match.
    apply IH. now apply includes_cons_false in H.
Qed.

Lemma is_space_not_lt (c : char) : is_space c = true -> c <> LT.
Proof. intros H ->. discriminate H. Qed.

Lemma skip_ws_all_space (ws s : str) :
  all_space ws -> skip_ws (ws ++ s) = skip_ws s.
Proof. induction 1 as [|c ws Hc _ IH]; simpl; [reflexivity|now rewrite Hc]. Qed.

(** After a greedy [\s*] over [a ++ b]: either [a] is all whitespace and
    the scan goes on in [b], or it stops inside [a]. *)
Lemma skip_ws_app (a b : str) :
  (all_space a /\ skip_ws (a ++ b) = skip_ws b) \/
  (exists c w, skip_ws a = c :: w /\ skip_ws (a ++ b) = c :: w ++ b).
Proof.
  induction a as [|c a IH]; simpl.
  - left. split; [constructor|reflexivity].
  - destruct (is_space c) eqn:E.
    + destruct IH as [[Ha Hs]|(d & w & Ha & Hs)].
      * left. split; [now constructor|assumption].
      * right. eauto.
    + right. eauto.
Qed.

Lemma leading_ws_all_space (s : str) : all_space (leading_ws s).
Proof.
  induction s as [|c s IH]; simpl; [constructor|].
  destruct (is_space c) eqn:E; now constructor.
Qed.

Lemma leading_ws_app (ws s : str) (c : char) :
  all_space ws -> is_space c = false -> leading_ws (ws ++ c :: s) = ws.
Proof.
  induction 1 as [|d ws Hd _ IH]; intros Hc; simpl.
  - now rewrite Hc.
  - rewrite Hd. f_equal. now apply IH.
Qed.

Lemma leading_ws_prefix (s : str) : exists r, s = leading_ws s ++ r.
Proof.
  induction s as [|c s [r IH]]; simpl; [now exists []|].
  destruct (is_space c); [|now exists (c :: s)].
  exists r. simpl. now f_equal.
Qed.

Lemma match_empty_queries_line (s u u' t : str) :
  match_empty_queries (s ++ NL :: u) = Some t ->
  blocks u ->
  exists t', match_empty_queries (s ++ NL :: u') = Some t'.
Proof.
  unfold match_empty_queries. intros H [Hb1 Hb2].
  destruct (strip_prefix QUERIES_OPEN (s ++ NL :: u)) as [r|] eqn:E;
    [|discriminate].
  apply strip_prefix_cut in E;
    [|unfold QUERIES_OPEN, NL; simpl; intuition discriminate].
  destruct E as (r0 & E & ->).
  rewrite (strip_prefix_ext _ _ (NL :: u') E).
  destruct (skip_ws_app r0 (NL :: u)) as [[Ha Hs]|(c & w & Ha & Hs)].
  - rewrite Hs in H. change (skip_ws (NL :: u)) with (skip_ws u) in H.
    rewrite Hb1, Hb2 in H. discriminate.
  - rewrite Hs in H.
    destruct (skip_ws_app r0 (NL :: u')) as [[Ha' _]|(c' & w' & Ha' & Hs')].
    + exfalso. clear - Ha Ha'. induction Ha' as [|d r0 Hd _ IH]; simpl in Ha.
      * discriminate.
      * rewrite Hd in Ha. auto.
    + rewrite Hs'. rewrite Ha in Ha'. injection Ha' as <- <-.
      change (c :: w ++ NL :: u) with ((c :: w) ++ NL :: u) in H.
      change (c :: w ++ NL :: u') with ((c :: w) ++ NL :: u').
      destruct (strip_prefix SELF_CLOSE ((c :: w) ++ NL :: u)) as [t1|] eqn:E1.
      * apply strip_prefix_cut in E1;
          [|unfold SELF_CLOSE, NL; simpl; intuition discriminate].
        destruct E1 as (t0 & E1 & _).
        rewrite (strip_prefix_ext _ _ (NL :: u') E1). eauto.
      * apply strip_prefix_cut in H;
          [|unfold EMPTY_CLOSE, NL; simpl; intuition discriminate].
        destruct H as (t0 & E2 & _).
        rewrite (strip_prefix_ext _ _ (NL :: u') E2).
        destruct (strip_prefix SELF_CLOSE ((c :: w) ++ NL :: u')); eauto.
Qed.

Lemma test_empty_queries_line (l u : str) :
  line_free l u ->
  test_empty_queries u = false ->
  test_empty_queries (l ++ NL :: u) = false.
Proof.
  intros Hl Hu. induction l as [|c l IH].
  - simpl app. rewrite test_empty_queries_step; [assumption|].
    apply (Hl [] []). reflexivity.
  - simpl app. rewrite test_empty_queries_step.
    + apply IH. intros a s ->. apply (Hl (c :: a) s). reflexivity.
    + apply (Hl [] (c :: l)). reflexivity.
Qed.

Lemma line_free_no_open (l u : str) : has_open l = false -> line_free l u.
Proof.
  unfold has_open. intros H a s ->.
  destruct (match_empty_queries (s ++ NL :: u)) as [t|] eqn:E; [|reflexivity].
  destruct (match_empty_queries_open _ E) as (r & Hr).
  apply strip_prefix_cut in Hr;
    [|unfold QUERIES_OPEN, NL; simpl; intuition discriminate].
  destruct Hr as (r0 & Hr & _).
  apply includes_here in Hr.
  now rewrite (includes_app_r a _ _ Hr) in H.
Qed.

(** Lines without the open marker in front of a text add no empty form. *)
Lemma test_empty_queries_lines (ls rest : list str) :
  Forall (fun l => has_open l = false) ls ->
  rest <> [] ->
  test_empty_queries (join_lines rest) = false ->
  test_empty_queries (join_lines (ls ++ rest)) = false.
Proof.
  intros Hls Hrest Ht. induction Hls as [|l ls Hl _ IH]; [assumption|].
  simpl app. rewrite join_lines_cons by (destruct ls, rest; simpl; congruence).
  apply test_empty_queries_line; [|assumption].
  now apply line_free_no_open.
Qed.

(** The leftmost match is the one replaced. *)
Lemma replace_empty_queries_found (s : str) :
  test_empty_queries s = true ->
  exists a m t,
    s = a ++ m /\ match_empty_queries m = Some t /\
    replace_empty_queries s = a ++ QUERIES_EXPLICIT ++ t.
Proof.
  induction s as [|c s IH]; rewrite test_empty_queries_unfold,
    replace_empty_queries_unfold.
  - destruct (match_empty_queries []) as [t|] eqn:E; [|discriminate].
    intros _. exists [], [], t. auto.
  - destruct (match_empty_queries (c :: s)) as [t|] eqn:E.
    + intros _. exists [], (c :: s), t. auto.
    + intros H. destruct (IH H) as (a & m & t & -> & Hm & ->).
      exists (c :: a), m, t. auto.
Qed.

Lemma normalize_queries_has_open (s : str) :
  has_open (normalize_queries s) = true -> has_open s = true.
Proof.
  unfold normalize_queries, has_open.
  destruct (test_empty_queries s) eqn:E; [|auto].
  intros _.
  destruct (replace_empty_queries_found _ E) as (a & m & t & -> & Hm & _).
  apply includes_app_r.
  destruct (match_empty_queries_open _ Hm) as (r & Hr).
  now apply includes_here with r.
Qed.

(** ** The section of a document, as the scan selects it *)

Lemma nth_middle_app (pre post : list str) (l : str) :
  nth (length pre) (pre ++ l :: post) [] = l.
Proof. induction pre; simpl; auto. Qed.

Lemma update_queries_section (D : str) (P pre mid post : list str)
    (lo lc : str) :
  queries_section (split_lines (normalize_queries D)) pre lo mid lc post ->
  update_queries D P = Some (join_lines (reconciled P pre lo mid lc post)).
Proof.
  intros (Hl & Hpre & Ho & Hoc & Hmid & Hc).
  unfold update_queries. rewrite Hl.
  rewrite find_queries_lines_section by assumption.
  simpl plus. rewrite nth_middle_app.
  rewrite rewrite_queries_section; auto; lia.
Qed.

Lemma edit_manifest_section (D : str) (P pre mid post : list str)
    (lo lc : str) :
  queries_section (split_lines (normalize_queries D)) pre lo mid lc post ->
  edit_manifest D P = Some (join_lines (reconciled P pre lo mid lc post)).
Proof.
  intros H. unfold edit_manifest.
  replace (includes D QUERIES_OPEN) with true.
  - now apply update_queries_section.
  - symmetry. apply normalize_queries_has_open. unfold has_open.
    destruct H as (Hl & _ & Ho & _).
    rewrite <- (join_split (normalize_queries D)), Hl.
    apply includes_join with lo; [|assumption].
    apply in_or_app. right. now left.
Qed.

(** The scan finds exactly such a section whenever the close line it
    returns comes after the open line. *)
Lemma list_split_at (lines : list str) (k : nat) :
  k < length lines ->
  lines = firstn k lines ++ nth k lines [] :: skipn (S k) lines.
Proof.
  revert k; induction lines as [|l ls IH]; intros k Hk; simpl in *; [lia|].
  destruct k; simpl; [reflexivity|]. f_equal. apply IH. lia.
Qed.


(** ** Rendered package lines *)

Lemma all_space_no_lt (ws : str) : all_space ws -> ~ In LT ws.
Proof.
  intros H Hin. unfold all_space in H. rewrite Forall_forall in H.
  now apply (is_space_not_lt (H _ Hin)).
Qed.

Lemma includes_skip (a s p : str) (x : char) :
  ~ In x a -> includes (a ++ s) (x :: p) = includes s (x :: p).
Proof.
  induction a as [|c a IH]; intros H; [reflexivity|].
  simpl. destruct (N.eqb_spec x c) as [->|_].
  - exfalso; apply H; now left.
  - apply IH. intros Hin; apply H; now right.
Qed.

Lemma package_line_no_open (ind p : str) :
  all_space ind -> ~ In LT p -> has_open (package_line ind p) = false.
Proof.
  intros Hi Hp. unfold has_open, package_line, QUERIES_OPEN.
  rewrite includes_skip by now apply all_space_no_lt.
  unfold PACKAGE_ATTR. cbn -[PACKAGE_END].
  now rewrite includes_skip by exact Hp.
Qed.

Lemma package_line_no_close (ind p : str) :
  all_space ind -> ~ In LT p -> has_close (package_line ind p) = false.
Proof.
  intros Hi Hp. unfold has_close, package_line, QUERIES_CLOSE.
  rewrite includes_skip by now apply all_space_no_lt.
  unfold PACKAGE_ATTR. cbn -[PACKAGE_END].
  now rewrite includes_skip by exact Hp.
Qed.

Lemma package_line_is_entry (ind p : str) :
  is_package_entry (package_line ind p) = true.
Proof.
  unfold is_package_entry, package_line. apply andb_true_intro. split.
  - apply includes_app_r.
    now apply includes_here
      with (lit " android:name=" ++ DQUOTE :: p ++ DQUOTE :: PACKAGE_END).
  - apply includes_app_r. apply (includes_app_r (lit "<package ")).
    now apply includes_here
      with (lit "=" ++ DQUOTE :: p ++ DQUOTE :: PACKAGE_END).
Qed.

Lemma package_line_no_newline (ind p : str) :
  no_newline ind -> ~ In NL p -> no_newline (package_line ind p).
Proof.
  unfold no_newline, package_line. intros Hi Hp Hin.
  apply in_app_or in Hin. destruct Hin as [Hin|Hin]; [auto|].
  apply in_app_or in Hin. destruct Hin as [Hin|Hin].
  - revert Hin. unfold PACKAGE_ATTR, NL. simpl. intuition discriminate.
  - destruct Hin as [Hin|Hin]; [discriminate|].
    apply in_app_or in Hin. destruct Hin as [Hin|Hin]; [auto|].
    revert Hin. unfold PACKAGE_END, DQUOTE, NL. simpl. intuition discriminate.
Qed.

Lemma package_line_blocks (ind p rest : str) :
  all_space ind -> blocks (package_line ind p ++ rest).
Proof.
  intros Hi. unfold blocks, package_line.
  rewrite <- app_assoc, skip_ws_all_space by assumption.
  split; reflexivity.
Qed.

Lemma package_lines_clean (ind : str) (P : list str) :
  all_space ind -> no_newline ind -> Forall clean_entry P ->
  Forall (fun l => has_open l = false /\ has_close l = false /\
                   no_newline l /\ is_package_entry l = true)
         (map (package_line ind) P).
Proof.
  intros Hs Hn HP. apply Forall_map.
  induction HP as [|p P [Hlt Hnl] _ IH]; constructor; auto.
  repeat split.
  - now apply package_line_no_open.
  - now apply package_line_no_close.
  - now apply package_line_no_newline.
  - apply package_line_is_entry.
Qed.

Lemma filter_not_package_lines (ind : str) (P : list str) :
  filter not_package (map (package_line ind) P) = [].
Proof.
  induction P as [|p P IH]; simpl; [reflexivity|].
  unfold not_package at 1. now rewrite package_line_is_entry.
Qed.

Lemma filter_filter (A : Type) (f : A -> bool) (l : list A) :
  filter f (filter f l) = filter f l.
Proof.
  induction l as [|x l IH]; simpl; [reflexivity|].
  destruct (f x) eqn:E; simpl; [rewrite E|]; now rewrite IH.
Qed.

(** ** The file-system effects of [setupKeychainsAndroid] *)

Lemma str_eqb_refl (s : str) : str_eqb s s = true.
Proof. induction s; simpl; [reflexivity|]. now rewrite N.eqb_refl. Qed.

Section AndroidEffects.

Variable JSON_parse : str -> option json.
Variable ToString : json -> str.
Variables (configFile : str) (config : options).

Let load := load_packages JSON_parse ToString configFile config.
Let setup := setupKeychainsAndroid JSON_parse ToString configFile config.

Lemma read_only_trans (w1 w2 w3 : world) (e1 e2 : list fs_event) :
  read_only w1 w2 e1 -> read_only w2 w3 e2 -> read_only w1 w3 (e1 ++ e2).
Proof.
  intros [-> H1] [-> H2]. split.
  - simpl. now rewrite app_assoc.
  - apply Forall_app. now split.
Qed.

Lemma extractJsonArray_events (filePath key : str) (w : world) :
  exists evs,
    read_only w (snd (extractJsonArray JSON_parse ToString filePath key w)) evs
    /\ Forall (fun e => event_path e = filePath) evs.
Proof.
  unfold extractJsonArray, bind, existsSync, readFileSync.
  destruct (files w filePath) as [content|] eqn:E; simpl.
  - rewrite E.
    exists [ExistsSync filePath; ReadFileSync filePath].
    split; [|repeat constructor].
    assert (Hw : forall b : list str,
      read_only w
        (snd (ret b (record (ReadFileSync filePath)
                       (record (ExistsSync filePath) w))))
        [ExistsSync filePath; ReadFileSync filePath]).
    { intros b. split; [|repeat constructor].
      unfold ret, record. simpl. now rewrite <- app_assoc. }
    destruct (JSON_parse content) as [j|]; [|apply Hw].
    destruct j as [| | | | |members]; try apply Hw.
    destruct (assoc key members) as [v|]; [|apply Hw].
    destruct v; apply Hw.
  - exists [ExistsSync filePath]. split; [split|]; repeat constructor.
Qed.

(** Resolving the package list only checks and reads the config file. *)
Lemma load_packages_events (w : world) :
  exists evs,
    read_only w (snd (load w)) evs /\
    Forall (fun e => event_path e = configFile) evs.
Proof.
  unfold load, load_packages.
  destruct (packages config) as [|p ps].
  - unfold bind at 1. unfold existsSync.
    destruct (files w configFile) as [content|] eqn:E.
    + unfold bind.
      destruct (extractJsonArray_events configFile KEYCHAINS_KEY
                  (record (ExistsSync configFile) w)) as (evs & Hro & Hp).
      destruct (extractJsonArray JSON_parse ToString configFile KEYCHAINS_KEY
                  (record (ExistsSync configFile) w)) as [cp w2].
      exists ([ExistsSync configFile] ++ evs). split.
      * apply read_only_trans with (record (ExistsSync configFile) w).
        -- split; [reflexivity|repeat constructor].
        -- now destruct cp.
      * constructor; [reflexivity|assumption].
    + exists [ExistsSync configFile].
      split; [split|]; repeat constructor.
  - exists []. unfold ret. simpl. split; [split|]; [|constructor..].
    rewrite app_nil_r. now destruct w.
Qed.

Lemma setup_no_packages (w : world) :
  fst (load w) = [] -> setup w = (false, snd (load w)).
Proof.
  unfold setup, setupKeychainsAndroid, bind. fold load.
  destruct (load w) as [pkgs w1]. simpl. now intros ->.
Qed.

Lemma setup_edit_fails (w : world) (D : str) :
  files w (manifestPath config) = Some D ->
  (forall P, edit_manifest D P = None) ->
  exists evs, fst (setup w) = false /\ read_only w (snd (setup w)) evs.
Proof.
  intros Hf Hedit.
  destruct (load_packages_events w) as (evs & [Hw Hro] & _).
  unfold setup, setupKeychainsAndroid, bind. fold load.
  destruct (load w) as [pkgs w1]. simpl in Hw. subst w1.
  destruct pkgs as [|p ps].
  - exists evs. unfold ret, read_only. simpl. auto.
  - unfold existsSync, readFileSync, ret, record. simpl. rewrite Hf. simpl.
    rewrite Hf, Hedit. simpl.
    exists (evs ++ [ExistsSync (manifestPath config);
                    ReadFileSync (manifestPath config)]).
    split; [reflexivity|]. split.
    + f_equal. now rewrite <- !app_assoc.
    + apply Forall_app. split; [assumption|repeat constructor].
Qed.

End AndroidEffects.

(** ** The keychain loops of the iOS editor *)

Lemma update_keychain_lines_before (b : str) (K pre rest : list str) :
  Forall (fun l => has_key l = false) pre ->
  update_keychain_lines b K false (pre ++ rest)
  = pre ++ update_keychain_lines b K false rest.
Proof.
  unfold has_key. induction 1 as [|l pre Hl _ IH]; simpl; [reflexivity|].
  now rewrite Hl, IH.
Qed.

Lemma update_keychain_lines_key (b : str) (K rest : list str) (lk : str)
    (s : bool) :
  has_key lk = true ->
  update_keychain_lines b K s (lk :: rest)
  = lk :: keychain_entries b K ++ update_keychain_lines b K true rest.
Proof. unfold has_key. intros H. simpl. now rewrite H. Qed.

Lemma update_keychain_lines_inside (b : str) (K mid rest : list str) :
  Forall (fun l => has_key l = false /\ has_array_close l = false) mid ->
  update_keychain_lines b K true (mid ++ rest)
  = update_keychain_lines b K true rest.
Proof.
  unfold has_key, has_array_close.
  induction 1 as [|l mid [Hl1 Hl2] _ IH]; simpl; [reflexivity|].
  now rewrite Hl1, Hl2, IH.
Qed.

Lemma update_keychain_lines_end (b : str) (K rest : list str) (la : str) :
  has_key la = false -> has_array_close la = true ->
  update_keychain_lines b K true (la :: rest)
  = la :: update_keychain_lines b K false rest.
Proof.
  unfold has_key, has_array_close. intros H1 H2. simpl. now rewrite H1, H2.
Qed.

Lemma update_keychain_lines_skip (b : str) (K rest : list str) (l : str) :
  has_key l = false -> has_array_close l = false ->
  update_keychain_lines b K true (l :: rest)
  = update_keychain_lines b K true rest.
Proof.
  unfold has_key, has_array_close. intros H1 H2. simpl. now rewrite H1, H2.
Qed.

Lemma update_keychain_lines_copy (b : str) (K rest : list str) (l : str) :
  has_key l = false ->
  update_keychain_lines b K false (l :: rest)
  = l :: update_keychain_lines b K false rest.
Proof. unfold has_key. intros H1. simpl. now rewrite H1. Qed.

Lemma update_keychain_lines_cons (b : str) (K rest : list str) (l : str)
    (s : bool) :
  update_keychain_lines b K s (l :: rest)
  = if has_key l then
      l :: keychain_entries b K ++ update_keychain_lines b K true rest
    else if s && has_array_close l then
      l :: update_keychain_lines b K false rest
    else if negb s then l :: update_keychain_lines b K s rest
    else update_keychain_lines b K s rest.
Proof. reflexivity. Qed.

Lemma add_keychain_lines_cons (b : str) (K rest : list str) (l : str) :
  add_keychain_lines b K (l :: rest)
  = if has_dict_close l then
      KEY_LINE :: keychain_entries b K
        ++ ARRAY_CLOSE_LINE :: l :: add_keychain_lines b K rest
    else l :: add_keychain_lines b K rest.
Proof. reflexivity. Qed.

Lemma update_keychain_lines_outside (b : str) (K post : list str) :
  Forall (fun l => has_key l = false) post ->
  update_keychain_lines b K false post = post.
Proof.
  intros H. rewrite <- (app_nil_r post) at 1.
  rewrite update_keychain_lines_before by assumption.
  simpl. apply app_nil_r.
Qed.

Lemma add_keychain_lines_before (b : str) (K pre rest : list str) :
  Forall (fun l => has_dict_close l = false) pre ->
  add_keychain_lines b K (pre ++ rest) = pre ++ add_keychain_lines b K rest.
Proof.
  unfold has_dict_close. induction 1 as [|l pre Hl _ IH]; simpl; [reflexivity|].
  now rewrite Hl, IH.
Qed.

Lemma in_split_has (D l pat : str) (pre post : list str) :
  split_lines D = pre ++ l :: post ->
  includes l pat = true -> includes D pat = true.
Proof.
  intros Hs Hl. rewrite <- (join_split D), Hs.
  apply includes_join with l; [|assumption].
  apply in_or_app. right. now left.
Qed.


Lemma edit_entitlements_no_anchor (D b : str) (K : list str) :
  has_key D = false -> has_dict_close D = false ->
  edit_entitlements D b K = D.
Proof.
  intros Hk Hd. unfold edit_entitlements. unfold has_key in Hk. rewrite Hk.
  apply includes_split in Hd.
  rewrite <- (app_nil_r (split_lines D)).
  rewrite add_keychain_lines_before by exact Hd.
  simpl. rewrite app_nil_r. apply join_split.
Qed.

(** ** Indentation, and the text of a package line *)

Lemma leading_ws_indentation (l : str) : indentation_of l (leading_ws l).
Proof.
  induction l as [|c l IH].
  - exists []. repeat split. constructor.
  - simpl. destruct (is_space c) eqn:E.
    + destruct IH as (body & Hl & Hs & Hb).
      exists body. split; [simpl; now rewrite <- Hl|].
      split; [now constructor|assumption].
    + exists (c :: l). split; [reflexivity|]. split; [constructor|assumption].
Qed.

Lemma package_line_text (ind p : str) :
  package_line (ind ++ TWO_SPACES) p
  = ind ++ lit "  <package android:name=" ++ DQUOTE :: p ++ DQUOTE
      :: lit " />".
Proof. unfold package_line. rewrite <- app_assoc. reflexivity. Qed.

Lemma package_lines_text (ind : str) (P : list str) :
  map (package_line (ind ++ TWO_SPACES)) P
  = map (fun p => ind ++ lit "  <package android:name=" ++ DQUOTE :: p
                    ++ DQUOTE :: lit " />") P.
Proof. apply map_ext. intros p. apply package_line_text. Qed.

(** ** A section that the loop never leaves *)

Lemma first_match (A : Type) (f : A -> bool) (l : list A) :
  existsb f l = true ->
  exists pre x rest,
    l = pre ++ x :: rest /\ Forall (fun y => f y = false) pre /\
    f x = true.
Proof.
  induction l as [|a l IH]; [discriminate|]. simpl.
  destruct (f a) eqn:E.
  - intros _. exists [], a, l. repeat split; [constructor|assumption].
  - intros H. destruct (IH H) as (pre & x & rest & -> & Hpre & Hx).
    exists (a :: pre), x, rest. repeat split; [now constructor|assumption].
Qed.

(** Whenever a line has an open marker and a line has a close marker, the
    first close line comes after the first open line, or it does not. *)
Lemma marker_cases (lines : list str) :
  existsb has_open lines = true -> existsb has_close lines = true ->
  (exists pre lo mid lc post, queries_section lines pre lo mid lc post) \/
  (exists pre lo rest, open_ended lines pre lo rest).
Proof.
  intros Ho Hc.
  destruct (first_match _ _ Ho) as (pre & lo & rest & Hl & Hpre & Hlo).
  destruct (has_close lo) eqn:Elo.
  { right. exists pre, lo, rest. repeat split; auto. }
  destruct (existsb has_close pre) eqn:Epre.
  { right. exists pre, lo, rest. repeat split; auto. right.
    apply existsb_exists in Epre. now apply Exists_exists. }
  left. subst lines.
  rewrite existsb_app, Epre in Hc. simpl in Hc. rewrite Elo in Hc.
  simpl in Hc.
  destruct (first_match _ _ Hc) as (mid & lc & post & -> & Hmid & Hlc).
  exists pre, lo, mid, lc, post. repeat split; auto.
  apply Forall_forall. intros l Hin. split.
  - rewrite Forall_forall in Hpre. now apply Hpre.
  - destruct (has_close l) eqn:E; [|reflexivity].
    assert (existsb has_close pre = true)
      by (apply existsb_exists; now exists l).
    congruence.
Qed.

Lemma find_queries_lines_pre (pre rest : list str) (i : nat)
    (qc : option nat) :
  Forall (fun l => has_open l = false) pre ->
  exists qc',
    find_queries_lines (pre ++ rest) i None qc
    = find_queries_lines rest (i + length pre) None qc' /\
    (qc' = None ->
     qc = None /\ Forall (fun l => has_close l = false) pre) /\
    (forall c, qc' = Some c -> qc = Some c \/ c < i + length pre).
Proof.
  intros H. revert i qc. induction H as [|l pre Hl _ IH]; intros i qc.
  - exists qc. rewrite Nat.add_0_r. repeat split; auto.
  - cbn [app find_queries_lines]. unfold has_open in Hl. rewrite Hl.
    destruct (IH (S i)
                (match qc with
                 | Some _ => qc
                 | None => if includes l QUERIES_CLOSE then Some i else None
                 end)) as (qc' & E & HN & HS).
    exists qc'. cbn [length]. rewrite Nat.add_succ_r. split; [exact E|]. split.
    + intros Hq. destruct (HN Hq) as [Hqc Hpre].
      destruct qc; [discriminate|].
      destruct (includes l QUERIES_CLOSE) eqn:El; [discriminate|].
      split; [reflexivity|now constructor].
    + intros c Hq. destruct (HS c Hq) as [Hqc|Hlt]; [|right; lia].
      destruct qc; [now left|].
      destruct (includes l QUERIES_CLOSE); [|discriminate].
      injection Hqc as <-. right. lia.
Qed.

Lemma find_queries_lines_open_ended (lines pre rest : list str) (lo : str) :
  open_ended lines pre lo rest ->
  exists c,
    c <= length pre /\
    find_queries_lines lines 0 None None = (Some (length pre), Some c).
Proof.
  intros (Hl & Hpre & Ho & Hc). subst lines.
  destruct (find_queries_lines_pre (lo :: rest) 0 None Hpre)
    as (qc' & E & HN & HS).
  rewrite E. cbn [find_queries_lines plus].
  unfold has_open in Ho. rewrite Ho.
  destruct qc' as [c|].
  - destruct (HS c eq_refl) as [H|H]; [discriminate|].
    exists c. split; [simpl in H; lia|apply find_queries_lines_found].
  - destruct (HN eq_refl) as [_ Hno].
    destruct Hc as [Hc|Hc].
    + unfold has_close in Hc. rewrite Hc.
      exists (length pre). split; [lia|apply find_queries_lines_found].
    + exfalso. apply Exists_exists in Hc. destruct Hc as (l & Hin & Hl).
      rewrite Forall_forall in Hno. rewrite (Hno l Hin) in Hl. discriminate.
Qed.

Lemma rewrite_queries_tail (o c : nat) (ind : str) (P rest : list str)
    (i : nat) :
  o < i -> c < i ->
  rewrite_queries o c ind P i true rest = filter not_package rest.
Proof.
  revert i. induction rest as [|l rest IH]; intros i Ho Hc; [reflexivity|].
  cbn [rewrite_queries filter].
  replace (Nat.eqb i o) with false by (symmetry; apply Nat.eqb_neq; lia).
  replace (Nat.eqb i c) with false by (symmetry; apply Nat.eqb_neq; lia).
  unfold not_package at 1.
  destruct (is_package_entry l); cbn [negb]; rewrite IH by lia; reflexivity.
Qed.

Lemma rewrite_queries_open_ended (o c : nat) (ind : str)
    (P pre rest : list str) (lo : str) :
  o = length pre -> c <= o ->
  rewrite_queries o c ind P 0 false (pre ++ lo :: rest)
  = pre ++ lo :: map (package_line ind) P ++ filter not_package rest.
Proof.
  intros Ho Hc.
  rewrite rewrite_queries_prefix by (simpl; lia).
  simpl plus. rewrite <- Ho. rewrite rewrite_queries_at_open.
  now rewrite rewrite_queries_tail by lia.
Qed.

Lemma edit_manifest_open_ended (D : str) (P pre rest : list str) (lo : str) :
  open_ended (split_lines (normalize_queries D)) pre lo rest ->
  edit_manifest D P
  = Some (join_lines
            (pre ++ lo :: map (package_line (leading_ws lo ++ TWO_SPACES)) P
               ++ filter not_package rest)).
Proof.
  intros H. unfold edit_manifest.
  replace (includes D QUERIES_OPEN) with true.
  - destruct (find_queries_lines_open_ended H) as (c & Hc & Hfind).
    destruct H as (Hl & _).
    unfold update_queries. rewrite Hfind, Hl, nth_middle_app.
    now rewrite rewrite_queries_open_ended.
  - symmetry. apply normalize_queries_has_open. unfold has_open.
    destruct H as (Hl & _ & Ho & _).
    rewrite <- (join_split (normalize_queries D)), Hl.
    apply includes_join with lo; [|assumption].
    apply in_or_app. right. now left.
Qed.

(** * The claims *)

(** ** C4 *)

(** C4.  A manifest with neither [<queries] nor [<application] makes
    [setupKeychainsAndroid] return [false]; the files are what they were
    before the call, and no call made is a write.  At the level of the text:
    the edit fails for every package list. *)
Theorem no_anchor_fails
    (JSON_parse : str -> option json) (ToString : json -> str)
    (configFile : str) (config : options) (w : world) (D : str) :
  files w (manifestPath config) = Some D ->
  has_open D = false ->
  has_application D = false ->
  (forall P, edit_manifest D P = None) /\
  exists evs,
    fst (setupKeychainsAndroid JSON_parse ToString configFile config w) = false
    /\ snd (setupKeychainsAndroid JSON_parse ToString configFile config w)
       = World (files w) (events w ++ evs)
    /\ Forall (fun e => is_write e = false) evs.
Proof.
  intros Hf Ho Ha.
  assert (Hedit : forall P, edit_manifest D P = None).
  { intros P. unfold edit_manifest. unfold has_open in Ho. rewrite Ho.
    unfold create_queries.
    rewrite find_application_line_none; [reflexivity|].
    now apply includes_split. }
  split; [assumption|].
  destruct (setup_edit_fails JSON_parse ToString configFile config w Hf Hedit)
    as (evs & Hr & Hw & Hro).
  exists evs. auto.
Qed.

Lemma no_anchor_fails_witness :
  let w := Examples.world_with Examples.manifest_path Examples.manifest_bare in
  let config := Options Examples.manifest_path [Examples.com_a] in
  (forall P, edit_manifest Examples.manifest_bare P = None) /\
  exists evs,
    fst (setupKeychainsAndroid Examples.no_json Examples.no_string
           Examples.config_path config w) = false
    /\ snd (setupKeychainsAndroid Examples.no_json Examples.no_string
              Examples.config_path config w)
       = World (files w) (events w ++ evs)
    /\ Forall (fun e => is_write e = false) evs.
Proof.
  intros w config.
  apply (@no_anchor_fails Examples.no_json Examples.no_string
           Examples.config_path config w Examples.manifest_bare);
    reflexivity.
Defined.

(** ** C5 *)

Lemma edit_manifest_create (D : str) (P : list str) :
  has_open D = false -> edit_manifest D P = create_queries D P.
Proof. unfold edit_manifest, has_open. now intros ->. Qed.

Lemma create_queries_text (D : str) (P pre post : list str) (la : str) :
  split_lines D = pre ++ la :: post ->
  Forall (fun l => has_application l = false) pre ->
  has_application la = true ->
  create_queries D P
  = Some (join_lines
            (pre ++ (leading_ws la ++ QUERIES_TAG)
               :: map (package_line (leading_ws la ++ TWO_SPACES)) P
               ++ (leading_ws la ++ QUERIES_CLOSE) :: [] :: la :: post)).
Proof.
  intros Hs Hpre Ha. unfold create_queries. rewrite Hs.
  rewrite find_application_line_first by assumption.
  simpl plus. rewrite nth_middle_app.
  now rewrite (insert_queries_at _ _ _ pre post la 0).
Qed.



(** ** C7 *)




(** ** C8 *)

Lemma scan_open_in_range (lines : list str) (o c : nat) :
  find_queries_lines lines 0 None None = (Some o, Some c) ->
  o < length lines.
Proof.
  intros H. apply find_queries_lines_first in H.
  destruct H as [[H|(_ & _ & _ & Hol & _)] _]; [discriminate|lia].
Qed.


Ltac solve_section :=
  unfold queries_section;
  repeat match goal with
         | |- _ /\ _ => split
         | |- Forall _ _ => constructor
         | |- _ = _ => reflexivity
         end.



(** ** C9 *)

(** C9, as the code has it.  When the resolved package list is empty,
    [setupKeychainsAndroid] returns [false], leaves every file as it was,
    and every call it makes is an existence check or a read of the config
    file: none touches a manifest that is another file. *)
Theorem no_packages_returns_false
    (JSON_parse : str -> option json) (ToString : json -> str)
    (configFile : str) (config : options) (w : world) :
  fst (load_packages JSON_parse ToString configFile config w) = [] ->
  exists evs,
    setupKeychainsAndroid JSON_parse ToString configFile config w
    = (false, World (files w) (events w ++ evs)) /\
    Forall (fun e => is_write e = false /\ event_path e = configFile) evs /\
    (configFile <> manifestPath config ->
     Forall (fun e => event_path e <> manifestPath config) evs).
Proof.
  intros H.
  destruct (load_packages_events JSON_parse ToString configFile config w)
    as (evs & [Hw Hro] & Hp).
  exists evs. rewrite (setup_no_packages _ _ _ _ _ H), Hw.
  split; [reflexivity|].
  rewrite Forall_forall in Hro, Hp.
  split; [|intros Hne]; apply Forall_forall; intros e He.
  - split; auto.
  - rewrite (Hp e He). assumption.
Qed.

Lemma no_packages_returns_false_witness :
  let w := Examples.world_with Examples.manifest_path Examples.manifest_plain in
  let config := Options Examples.manifest_path [] in
  fst (load_packages Examples.no_json Examples.no_string
         Examples.config_path config w) = [] /\
  exists evs,
    setupKeychainsAndroid Examples.no_json Examples.no_string
      Examples.config_path config w
    = (false, World (files w) (events w ++ evs)) /\
    Forall (fun e => is_write e = false
                     /\ event_path e = Examples.config_path) evs /\
    (Examples.config_path <> manifestPath config ->
     Forall (fun e => event_path e <> manifestPath config) evs).
Proof.
  intros w config. split; [reflexivity|].
  apply (@no_packages_returns_false Examples.no_json Examples.no_string
           Examples.config_path config w).
  reflexivity.
Defined.

(** C9 as stated fails: with the manifest path given as the config file
    and a content that does not parse, the resolved list is empty and the
    manifest is checked twice and read. *)
Lemma manifest_read_as_config :
  let w := Examples.world_with Examples.manifest_path Examples.manifest_plain in
  let config := Options Examples.manifest_path [] in
  fst (load_packages Examples.no_json Examples.no_string
         Examples.manifest_path config w) = [] /\
  setupKeychainsAndroid Examples.no_json Examples.no_string
    Examples.manifest_path config w
  = (false,
     World (files w)
       [ExistsSync Examples.manifest_path;
        ExistsSync Examples.manifest_path;
        ReadFileSync Examples.manifest_path]).
Proof. split; reflexivity. Qed.

(** ** C10 *)

Lemma update_keychain_lines_app (b : str) (K front : list str) (s : bool) :
  exists out s',
    (forall rest,
       update_keychain_lines b K s (front ++ rest)
       = out ++ update_keychain_lines b K s' rest) /\
    (s = false -> Forall (fun l => has_key l = false) front -> out = front).
Proof.
  revert s. induction front as [|l front IH]; intros s.
  - exists [], s. split; [reflexivity|auto].
  - destruct (has_key l) eqn:Ek.
    + destruct (IH true) as (out & s' & Hout & _).
      exists (l :: keychain_entries b K ++ out), s'. split.
      * intros rest. simpl app.
        rewrite update_keychain_lines_key by assumption.
        rewrite Hout. now rewrite <- app_assoc.
      * intros _ Hf. inversion Hf; subst. congruence.
    + destruct s.
      * destruct (has_array_close l) eqn:Ea.
        -- destruct (IH false) as (out & s' & Hout & _).
           exists (l :: out), s'. split; [|discriminate].
           intros rest. simpl app.
           rewrite update_keychain_lines_end by assumption.
           now rewrite Hout.
        -- destruct (IH true) as (out & s' & Hout & _).
           exists out, s'. split; [|discriminate].
           intros rest. simpl app.
           rewrite update_keychain_lines_skip by assumption.
           now rewrite Hout.
      * destruct (IH false) as (out & s' & Hout & Hfront).
        exists (l :: out), s'. split.
        -- intros rest. simpl app.
           rewrite update_keychain_lines_copy by assumption.
           now rewrite Hout.
        -- intros _ Hf. inversion Hf; subst. f_equal. auto.
Qed.

Lemma add_keychain_lines_app (b : str) (K front rest : list str) :
  add_keychain_lines b K (front ++ rest)
  = add_keychain_lines b K front ++ add_keychain_lines b K rest.
Proof.
  induction front as [|l front IH]; [reflexivity|].
  simpl. destruct (includes l DICT_CLOSE); rewrite IH.
  - simpl. rewrite <- app_assoc. reflexivity.
  - reflexivity.
Qed.





(** ** C6: the empty forms and the explicit pair *)

Lemma strip_prefix_cons (c d : char) (p s : str) :
  strip_prefix (c :: p) (d :: s)
  = if N.eqb c d then strip_prefix p s else None.
Proof. reflexivity. Qed.

(** A match begun before an open marker ends before it. *)
Lemma match_empty_queries_cut (s u t : str) :
  s <> [] ->
  match_empty_queries (s ++ LT :: LETTER_Q :: u) = Some t ->
  exists t', match_empty_queries s = Some t'.
Proof.
  intros Hs. unfold match_empty_queries.
  destruct s as [|c s]; [congruence|].
  change QUERIES_OPEN with (LT :: QUERIES_NAME).
  simpl app. rewrite !strip_prefix_cons.
  destruct (N.eqb LT c); [|discriminate].
  destruct (strip_prefix QUERIES_NAME (s ++ LT :: LETTER_Q :: u))
    as [r|] eqn:E; [|discriminate].
  apply strip_prefix_cut in E; [|simpl; unfold LT; intuition discriminate].
  destruct E as (r0 & -> & ->).
  destruct (skip_ws_app r0 (LT :: LETTER_Q :: u)) as [[_ Hk]|(d & w & Hw & Hk)];
    rewrite Hk.
  - discriminate.
  - rewrite Hw. intros H.
    destruct (strip_prefix SELF_CLOSE (d :: w)) as [t1|] eqn:E1; [eauto|].
    change (d :: w ++ LT :: LETTER_Q :: u)
      with ((d :: w) ++ LT :: LETTER_Q :: u) in H.
    destruct (strip_prefix SELF_CLOSE ((d :: w) ++ LT :: LETTER_Q :: u))
      as [t2|] eqn:E2.
    + apply strip_prefix_cut in E2;
        [|simpl; unfold LT; intuition discriminate].
      destruct E2 as (t0 & E2 & _). congruence.
    + revert H. change EMPTY_CLOSE with (62%N :: LT :: QUERIES_CLOSE_NAME).
      simpl app. rewrite !strip_prefix_cons.
      destruct (N.eqb 62 d); [|discriminate].
      destruct w as [|e w]; simpl app.
      * rewrite strip_prefix_cons, N.eqb_refl.
        unfold QUERIES_CLOSE_NAME, LETTER_Q.
        rewrite strip_prefix_cons. discriminate.
      * rewrite !strip_prefix_cons.
        destruct (N.eqb LT e); [|discriminate].
        intros H. apply strip_prefix_cut in H;
          [|simpl; unfold LT; intuition discriminate].
        destruct H as (t0 & H & _). eauto.
Qed.

(** In front of an open marker, a text without empty form changes nothing:
    the search goes on at the marker. *)
Lemma empty_form_search_skips (A u : str) :
  test_empty_queries A = false ->
  test_empty_queries (A ++ LT :: LETTER_Q :: u)
  = test_empty_queries (LT :: LETTER_Q :: u) /\
  replace_empty_queries (A ++ LT :: LETTER_Q :: u)
  = A ++ replace_empty_queries (LT :: LETTER_Q :: u).
Proof.
  induction A as [|c A IH]; intros H; [auto|].
  assert (Hm : match_empty_queries ((c :: A) ++ LT :: LETTER_Q :: u) = None).
  { destruct (match_empty_queries ((c :: A) ++ LT :: LETTER_Q :: u))
      as [t|] eqn:E; [|reflexivity].
    apply match_empty_queries_cut in E; [|discriminate].
    destruct E as (t' & E).
    now rewrite (test_empty_queries_here _ H) in E. }
  apply test_empty_queries_cons in H. destruct (IH H) as [IH1 IH2].
  split.
  - simpl app in *. now rewrite test_empty_queries_step.
  - simpl app in *. rewrite replace_empty_queries_unfold, Hm.
    now rewrite IH2.
Qed.

Lemma match_self_closing (ws B : str) :
  all_space ws ->
  match_empty_queries (QUERIES_OPEN ++ ws ++ SELF_CLOSE ++ B) = Some B.
Proof.
  intros H. unfold match_empty_queries.
  rewrite strip_prefix_app, skip_ws_all_space by assumption.
  reflexivity.
Qed.

Lemma match_single_line_empty (ws B : str) :
  all_space ws ->
  match_empty_queries (QUERIES_OPEN ++ ws ++ EMPTY_CLOSE ++ B) = Some B.
Proof.
  intros H. unfold match_empty_queries.
  rewrite strip_prefix_app, skip_ws_all_space by assumption.
  reflexivity.
Qed.

Lemma explicit_pair_no_empty_form (B : str) :
  test_empty_queries (QUERIES_EXPLICIT ++ B) = test_empty_queries B.
Proof. reflexivity. Qed.

(** A document whose only empty form is [m] normalises to the document
    with the explicit pair in its place, which is a fixed point. *)
Lemma normalize_empty_form (A m B : str) :
  test_empty_queries A = false ->
  test_empty_queries B = false ->
  (exists r, m = LT :: LETTER_Q :: r) ->
  match_empty_queries (m ++ B) = Some B ->
  normalize_queries (A ++ m ++ B) = A ++ QUERIES_EXPLICIT ++ B /\
  normalize_queries (A ++ QUERIES_EXPLICIT ++ B) = A ++ QUERIES_EXPLICIT ++ B.
Proof.
  intros HA HB (r & ->) Hm. split.
  - rewrite normalize_queries_replace.
    change ((LT :: LETTER_Q :: r) ++ B) with (LT :: LETTER_Q :: r ++ B) in *.
    rewrite (proj2 (@empty_form_search_skips A (r ++ B) HA)).
    now rewrite replace_empty_queries_unfold, Hm.
  - apply normalize_queries_none.
    change (QUERIES_EXPLICIT ++ B)
      with (LT :: LETTER_Q :: skipn 2 QUERIES_EXPLICIT ++ B).
    rewrite (proj1 (@empty_form_search_skips A _ HA)).
    exact HB.
Qed.

Lemma update_queries_normalized (D1 D2 : str) (P : list str) :
  normalize_queries D1 = normalize_queries D2 ->
  update_queries D1 P = update_queries D2 P.
Proof. unfold update_queries. now intros ->. Qed.

Lemma edit_manifest_empty_form (A m B : str) (P : list str) :
  test_empty_queries A = false ->
  test_empty_queries B = false ->
  (exists r, m = QUERIES_OPEN ++ r) ->
  match_empty_queries (m ++ B) = Some B ->
  edit_manifest (A ++ m ++ B) P = edit_manifest (A ++ QUERIES_EXPLICIT ++ B) P.
Proof.
  intros HA HB (r & ->) Hm.
  destruct (@normalize_empty_form A (QUERIES_OPEN ++ r) B HA HB) as [H1 H2];
    [now exists (skipn 2 QUERIES_OPEN ++ r)|assumption|].
  unfold edit_manifest.
  replace (includes (A ++ (QUERIES_OPEN ++ r) ++ B) QUERIES_OPEN) with true.
  replace (includes (A ++ QUERIES_EXPLICIT ++ B) QUERIES_OPEN) with true.
  - apply update_queries_normalized. now rewrite H1, H2.
  - symmetry. apply includes_app_r.
    now apply includes_here with (skipn 8 QUERIES_EXPLICIT ++ B).
  - symmetry. apply includes_app_r. rewrite <- app_assoc.
    apply includes_here with (r ++ B). apply strip_prefix_app.
Qed.

(** C6, as the code has it.  A document whose only empty form is
    [<queries], whitespace, then [/>] or [></queries>], and the document
    with [<queries>], a line break and [</queries>] in its place, are
    edited to the same result. *)
Theorem empty_forms_converge (A B ws : str) (P : list str) :
  test_empty_queries A = false ->
  test_empty_queries B = false ->
  all_space ws ->
  edit_manifest (A ++ QUERIES_OPEN ++ ws ++ SELF_CLOSE ++ B) P
  = edit_manifest (A ++ QUERIES_EXPLICIT ++ B) P /\
  edit_manifest (A ++ QUERIES_OPEN ++ ws ++ EMPTY_CLOSE ++ B) P
  = edit_manifest (A ++ QUERIES_EXPLICIT ++ B) P.
Proof.
  intros HA HB Hws. split.
  - replace (A ++ QUERIES_OPEN ++ ws ++ SELF_CLOSE ++ B)
      with (A ++ (QUERIES_OPEN ++ ws ++ SELF_CLOSE) ++ B)
      by now rewrite <- !app_assoc.
    apply edit_manifest_empty_form; auto; [now exists (ws ++ SELF_CLOSE)|].
    rewrite <- !app_assoc. now apply match_self_closing.
  - replace (A ++ QUERIES_OPEN ++ ws ++ EMPTY_CLOSE ++ B)
      with (A ++ (QUERIES_OPEN ++ ws ++ EMPTY_CLOSE) ++ B)
      by now rewrite <- !app_assoc.
    apply edit_manifest_empty_form; auto; [now exists (ws ++ EMPTY_CLOSE)|].
    rewrite <- !app_assoc. now apply match_single_line_empty.
Qed.

Lemma empty_forms_converge_witness :
  let A := lit "<manifest>" ++ [NL] in
  let B := NL :: lit "<application />" in
  let ws := [32%N] in
  edit_manifest (A ++ QUERIES_OPEN ++ ws ++ SELF_CLOSE ++ B) [Examples.com_a]
  = edit_manifest (A ++ QUERIES_EXPLICIT ++ B) [Examples.com_a] /\
  edit_manifest (A ++ QUERIES_OPEN ++ ws ++ EMPTY_CLOSE ++ B) [Examples.com_a]
  = edit_manifest (A ++ QUERIES_EXPLICIT ++ B) [Examples.com_a].
Proof.
  intros A B ws.
  apply (@empty_forms_converge A B ws [Examples.com_a]).
  - reflexivity.
  - reflexivity.
  - repeat constructor.
Defined.

(** C6 as stated fails twice: an explicit pair whose close tag is indented
    keeps its indentation while the self-closing form gets an unindented
    close tag; and with two self-closing sections only the first one is
    expanded. *)
Lemma empty_forms_diverge :
  edit_manifest Examples.manifest_self_closing [Examples.com_a]
  <> edit_manifest Examples.manifest_explicit_indented [Examples.com_a] /\
  edit_manifest Examples.manifest_two_sections [Examples.com_a]
  <> edit_manifest Examples.manifest_two_sections_explicit [Examples.com_a].
Proof. split; intros H; vm_compute in H; discriminate H. Qed.

(** ** C2 and C3: what the editors leave alone *)

Lemma edit_entitlements_section (D b : str) (K pre mid post : list str)
    (lk la : str) :
  keychain_section (split_lines D) pre lk mid la post ->
  edit_entitlements D b K
  = join_lines (pre ++ lk :: keychain_entries b K ++ la :: post).
Proof.
  intros (Hs & Hpre & Hk & Hmid & Hak & Ha & Hpost).
  unfold edit_entitlements.
  rewrite (@in_split_has D lk KEYCHAIN_KEY pre (mid ++ la :: post) Hs Hk), Hs.
  rewrite update_keychain_lines_before by assumption.
  rewrite update_keychain_lines_key by assumption.
  rewrite update_keychain_lines_inside by assumption.
  rewrite update_keychain_lines_end by assumption.
  now rewrite update_keychain_lines_outside by assumption.
Qed.

Lemma skip_ws_split (r : str) :
  exists ws, all_space ws /\ r = ws ++ skip_ws r.
Proof.
  induction r as [|c r (ws & Hws & IH)]; simpl.
  - exists []. split; [constructor|reflexivity].
  - destruct (is_space c) eqn:E.
    + exists (c :: ws). split; [now constructor|]. simpl. now f_equal.
    + exists []. split; [constructor|reflexivity].
Qed.

(** A match is an open marker, whitespace and one of the two endings. *)
Lemma match_empty_queries_span (s t : str) :
  match_empty_queries s = Some t ->
  exists ws, all_space ws /\
    (s = QUERIES_OPEN ++ ws ++ SELF_CLOSE ++ t \/
     s = QUERIES_OPEN ++ ws ++ EMPTY_CLOSE ++ t).
Proof.
  unfold match_empty_queries.
  destruct (strip_prefix QUERIES_OPEN s) as [r|] eqn:E; [|discriminate].
  apply strip_prefix_eq in E. subst s.
  destruct (skip_ws_split r) as (ws & Hws & Hr).
  destruct (strip_prefix SELF_CLOSE (skip_ws r)) as [t1|] eqn:E1.
  - intros [= ->]. apply strip_prefix_eq in E1.
    exists ws. split; [assumption|]. left. now rewrite <- E1, <- Hr.
  - intros E2. apply strip_prefix_eq in E2.
    exists ws. split; [assumption|]. right. now rewrite <- E2, <- Hr.
Qed.

(** C2, as the code has it.  With the close line after the open line, the
    lines of the normalised document before the open line and after the
    close line are written back as they are, around the open line, the new
    body and the close line; normalisation itself replaces the leftmost
    empty form and nothing else; creation puts its block in front of the
    [<application] line and keeps every line; the iOS update keeps every
    line before the key line and after the array end. *)
Theorem lines_outside_section_kept (D : str) (P : list str) (b : str)
    (K : list str) :
  (forall pre lo mid lc post,
     queries_section (split_lines (normalize_queries D)) pre lo mid lc post ->
     edit_manifest D P
     = Some (join_lines
               (pre ++ lo
                  :: (map (package_line (leading_ws lo ++ TWO_SPACES)) P
                      ++ filter not_package mid)
                  ++ lc :: post))) /\
  (test_empty_queries D = true ->
   exists a ws ending t,
     all_space ws /\ (ending = SELF_CLOSE \/ ending = EMPTY_CLOSE) /\
     D = a ++ (QUERIES_OPEN ++ ws ++ ending) ++ t /\
     normalize_queries D = a ++ QUERIES_EXPLICIT ++ t) /\
  (test_empty_queries D = false -> normalize_queries D = D) /\
  (forall pre la post,
     has_open D = false ->
     split_lines D = pre ++ la :: post ->
     Forall (fun l => has_application l = false) pre ->
     has_application la = true ->
     exists block,
       edit_manifest D P = Some (join_lines (pre ++ block ++ la :: post))) /\
  (forall pre lk mid la post,
     keychain_section (split_lines D) pre lk mid la post ->
     edit_entitlements D b K
     = join_lines (pre ++ lk :: keychain_entries b K ++ la :: post)).
Proof.
  repeat split.
  - intros pre lo mid lc post H.
    rewrite (@edit_manifest_section D P pre mid post lo lc H).
    unfold reconciled.
    now rewrite <- app_assoc.
  - intros Ht. rewrite normalize_queries_replace.
    destruct (replace_empty_queries_found _ Ht) as (a & m & t & -> & Hm & ->).
    destruct (match_empty_queries_span _ Hm) as (ws & Hws & [->| ->]).
    + exists a, ws, SELF_CLOSE, t. rewrite <- !app_assoc. auto.
    + exists a, ws, EMPTY_CLOSE, t. rewrite <- !app_assoc. auto.
  - apply normalize_queries_none.
  - intros pre la post Ho Hs Hpre Ha.
    exists ((leading_ws la ++ QUERIES_TAG)
              :: map (package_line (leading_ws la ++ TWO_SPACES)) P
              ++ [leading_ws la ++ QUERIES_CLOSE; []]).
    rewrite edit_manifest_create by assumption.
    rewrite (@create_queries_text D P pre post la Hs Hpre Ha).
    do 3 f_equal. simpl. now rewrite <- app_assoc.
  - intros pre lk mid la post H.
    exact (@edit_entitlements_section D b K pre mid post lk la H).
Qed.

Lemma lines_outside_section_kept_witness :
  queries_section
    (split_lines (normalize_queries Examples.manifest_self_closing))
    [lit "<manifest>"] (lit "  <queries>") [] (lit "</queries>")
    [lit "  <application />"; lit "</manifest>"] /\
  edit_manifest Examples.manifest_self_closing [Examples.com_a]
  = Some (join_lines
            [lit "<manifest>";
             lit "  <queries>";
             package_line (lit "    ") Examples.com_a;
             lit "</queries>";
             lit "  <application />";
             lit "</manifest>"]).
Proof.
  assert (H : queries_section
    (split_lines (normalize_queries Examples.manifest_self_closing))
    [lit "<manifest>"] (lit "  <queries>") [] (lit "</queries>")
    [lit "  <application />"; lit "</manifest>"]) by solve_section.
  split; [exact H|].
  exact (proj1 (lines_outside_section_kept Examples.manifest_self_closing
                  [Examples.com_a] [] []) _ _ _ _ _ H).
Defined.

(** C2 as stated fails: with the section on one line the open line is the
    close line, every later line counts as interior, and a line with
    [<package] and [android:name] below the section is dropped. *)
Lemma line_outside_section_dropped :
  let D := Examples.manifest_one_line_section in
  let lines := split_lines (normalize_queries D) in
  let out :=
    [lit "<manifest>";
     lit "  <queries> </queries>";
     package_line (lit "    ") Examples.com_a;
     lit "  <application />";
     lit "</manifest>"] in
  find_queries_lines lines 0 None None = (Some 1, Some 1) /\
  nth 3 lines [] = Examples.stray_package /\
  edit_manifest D [Examples.com_a] = Some (join_lines out) /\
  ~ In Examples.stray_package out.
Proof.
  repeat split. intros H. vm_compute in H.
  repeat (destruct H as [H|H]; [discriminate H|]). exact H.
Qed.




(** ** C1: editing twice *)

Lemma test_empty_queries_skip_space (ws v : str) :
  all_space ws -> test_empty_queries (ws ++ v) = test_empty_queries v.
Proof.
  induction 1 as [|c ws Hc _ IH]; [reflexivity|].
  simpl app. rewrite test_empty_queries_step; [assumption|].
  unfold match_empty_queries. change QUERIES_OPEN with (LT :: QUERIES_NAME).
  rewrite strip_prefix_cons.
  destruct (N.eqb_spec LT c) as [<-|]; [discriminate Hc|reflexivity].
Qed.

Lemma join_lines_head (l : str) (rest : list str) :
  exists tail, join_lines (l :: rest) = l ++ tail.
Proof.
  destruct rest as [|x rest].
  - exists []. simpl. now rewrite app_nil_r.
  - exists (NL :: join_lines (x :: rest)). reflexivity.
Qed.

Lemma join_lines_middle (pre Z : list str) (l : str) :
  Z <> [] ->
  exists front, join_lines (pre ++ l :: Z) = front ++ l ++ NL :: join_lines Z.
Proof.
  intros HZ. destruct pre as [|x pre].
  - exists []. simpl app. now rewrite join_lines_cons.
  - exists (join_lines (x :: pre) ++ [NL]).
    rewrite join_lines_app by discriminate.
    rewrite (join_lines_cons l HZ).
    rewrite <- app_assoc. reflexivity.
Qed.

Lemma has_open_join_false (ls : list str) :
  Forall (fun l => has_open l = false) ls -> has_open (join_lines ls) = false.
Proof.
  intros H. unfold has_open in *.
  destruct (includes (join_lines ls) QUERIES_OPEN) eqn:E; [|reflexivity].
  apply includes_join_inv in E;
    [|unfold QUERIES_OPEN, NL; simpl; intuition discriminate|discriminate].
  destruct E as (l & Hin & Hl). rewrite Forall_forall in H.
  now rewrite (H l Hin) in Hl.
Qed.

Lemma Forall_filter_keep (A : Type) (Q : A -> Prop) (f : A -> bool)
    (l : list A) :
  Forall Q l -> Forall Q (filter f l).
Proof.
  intros H. rewrite Forall_forall in *. intros x Hx.
  apply filter_In in Hx. now apply H.
Qed.

Lemma leading_ws_no_newline (l : str) :
  no_newline l -> no_newline (leading_ws l).
Proof.
  intros H Hin. apply H.
  destruct (leading_ws_prefix l) as (r & E). rewrite E.
  apply in_or_app. now left.
Qed.

Lemma package_indent_ok (l : str) :
  no_newline l ->
  all_space (leading_ws l ++ TWO_SPACES) /\
  no_newline (leading_ws l ++ TWO_SPACES).
Proof.
  intros H. split.
  - apply Forall_app. split; [apply leading_ws_all_space|repeat constructor].
  - intros Hin. apply in_app_or in Hin. destruct Hin as [Hin|Hin].
    + now apply (leading_ws_no_newline H).
    + revert Hin. unfold TWO_SPACES, NL. simpl. intuition discriminate.
Qed.

Section UpdateTwice.

Variables (D : str) (P pre mid post : list str) (lo lc : str).
Hypothesis entries_clean : Forall clean_entry P.
Hypothesis entries_given : P <> [].
Hypothesis one_empty_form : test_empty_queries (normalize_queries D) = false.
Hypothesis section_found :
  queries_section (split_lines (normalize_queries D)) pre lo mid lc post.
Hypothesis no_nested_open : Forall (fun l => has_open l = false) mid.

Let pind := leading_ws lo ++ TWO_SPACES.
Let pk := map (package_line pind) P.
Let kept := filter not_package mid.

Lemma update_twice_lines :
  Forall no_newline pre /\ no_newline lo /\ Forall no_newline mid /\
  no_newline lc /\ Forall no_newline post.
Proof.
  destruct section_found as (Hl & _).
  pose proof (split_lines_no_newline (normalize_queries D)) as H.
  rewrite Hl in H.
  apply Forall_app in H. destruct H as [H1 H].
  inversion H as [|? ? H2 H3]; subst.
  apply Forall_app in H3. destruct H3 as [H3 H4].
  inversion H4; subst. auto.
Qed.

Lemma update_twice_entries :
  Forall (fun l => has_open l = false /\ has_close l = false /\
                   no_newline l /\ is_package_entry l = true) pk.
Proof.
  destruct update_twice_lines as (_ & Hlo & _).
  destruct (package_indent_ok Hlo) as [Hs Hn].
  now apply package_lines_clean.
Qed.

Lemma update_twice_no_empty_form :
  test_empty_queries
    (join_lines (pre ++ lo :: pk ++ kept ++ lc :: post)) = false.
Proof.
  destruct section_found as (Hl & Hpre & Ho & Hoc & Hmid & Hc).
  pose proof one_empty_form as Ht.
  rewrite <- (join_split (normalize_queries D)), Hl in Ht.
  pose proof update_twice_entries as Hpk.
  assert (Htail : test_empty_queries (join_lines (lc :: post)) = false).
  { replace (pre ++ lo :: mid ++ lc :: post)
      with ((pre ++ lo :: mid) ++ lc :: post) in Ht
      by now rewrite <- app_assoc.
    rewrite join_lines_app in Ht by (try discriminate; now destruct pre).
    replace (join_lines (pre ++ lo :: mid) ++ NL :: join_lines (lc :: post))
      with ((join_lines (pre ++ lo :: mid) ++ [NL]) ++ join_lines (lc :: post))
      in Ht by now rewrite <- app_assoc.
    now apply test_empty_queries_app in Ht. }
  assert (HY : test_empty_queries (join_lines (pk ++ kept ++ lc :: post))
               = false).
  { rewrite app_assoc. apply test_empty_queries_lines;
      [|discriminate|assumption].
    apply Forall_app. split.
    - eapply Forall_impl; [|exact Hpk]. now intros l (H & _).
    - now apply Forall_filter_keep. }
  apply test_empty_queries_lines; [|discriminate|].
  { eapply Forall_impl; [|exact Hpre]. now intros l (H & _). }
  rewrite join_lines_cons by (unfold pk; destruct P; [congruence|discriminate]).
  apply test_empty_queries_line; [|assumption].
  intros a s Hlo.
  destruct (match_empty_queries
              (s ++ NL :: join_lines (pk ++ kept ++ lc :: post)))
    as [t|] eqn:E; [exfalso|reflexivity].
  apply match_empty_queries_line
    with (u' := join_lines (mid ++ lc :: post)) in E.
  - destruct E as (t' & E).
    destruct (@join_lines_middle pre (mid ++ lc :: post) lo)
      as (front & Hj); [now destruct mid|].
    rewrite Hj, Hlo in Ht.
    replace (front ++ (a ++ s) ++ NL :: join_lines (mid ++ lc :: post))
      with ((front ++ a) ++ s ++ NL :: join_lines (mid ++ lc :: post))
      in Ht by now rewrite <- !app_assoc.
    apply test_empty_queries_app, test_empty_queries_here in Ht.
    congruence.
  - unfold pk. destruct P as [|p P']; [congruence|]. simpl map.
    rewrite <- app_comm_cons.
    destruct (join_lines_head (package_line pind p)
                (map (package_line pind) P' ++ kept ++ lc :: post))
      as (tail & ->).
    apply package_line_blocks.
    destruct update_twice_lines as (_ & Hn & _).
    now destruct (package_indent_ok Hn).
Qed.

End UpdateTwice.

Lemma has_close_join_parts (D : str) (pre post : list str) (la : str)
    (pat : str) :
  includes D pat = false ->
  split_lines D = pre ++ la :: post ->
  Forall (fun l => includes l pat = false) pre /\
  includes la pat = false /\
  Forall (fun l => includes l pat = false) post.
Proof.
  intros H Hs. apply includes_split in H. rewrite Hs in H.
  apply Forall_app in H. destruct H as [H1 H2].
  inversion H2; subst. auto.
Qed.

Lemma Forall_and (A : Type) (Q R : A -> Prop) (l : list A) :
  Forall Q l -> Forall R l -> Forall (fun x => Q x /\ R x) l.
Proof. induction 1; intros H'; inversion H'; subst; constructor; auto. Qed.

(** *** The iOS editor *)

Lemma keychain_string_clean (id : str) :
  clean_entry id ->
  has_key (keychain_string id) = false /\
  has_array_close (keychain_string id) = false /\
  no_newline (keychain_string id).
Proof.
  intros [Hlt Hnl]. unfold has_key, has_array_close, keychain_string.
  repeat split.
  - unfold KEYCHAIN_KEY, STRING_PREFIX. cbn -[STRING_CLOSE].
    now rewrite includes_skip by exact Hlt.
  - unfold ARRAY_CLOSE, STRING_PREFIX. cbn -[STRING_CLOSE].
    now rewrite includes_skip by exact Hlt.
  - intros Hin. destruct Hin as [Hin|[Hin|Hin]]; try discriminate.
    apply in_app_or in Hin. destruct Hin as [Hin|Hin].
    + revert Hin. unfold STRING_PREFIX, NL. simpl. intuition discriminate.
    + apply in_app_or in Hin. destruct Hin as [Hin|Hin]; [auto|].
      revert Hin. unfold STRING_CLOSE, NL. simpl. intuition discriminate.
Qed.

Lemma keychain_entries_clean (b : str) (K : list str) :
  clean_entry b -> Forall clean_entry K ->
  Forall (fun l => has_key l = false /\ has_array_close l = false /\
                   no_newline l)
         (keychain_entries b K).
Proof.
  intros bundle_clean keychains_clean.
  unfold keychain_entries. constructor.
  - split; [reflexivity|]. split; [reflexivity|].
    unfold no_newline, ARRAY_LINE, NL. simpl. intuition discriminate.
  - constructor; [now apply keychain_string_clean|].
    apply Forall_map. eapply Forall_impl; [|exact keychains_clean].
    intros id. apply keychain_string_clean.
Qed.

(** *** Entries that only avoid the markers *)

Lemma includes_cons (c : char) (s m : str) :
  includes (c :: s) m
  = match strip_prefix m (c :: s) with
    | Some _ => true
    | None => includes s m
    end.
Proof. reflexivity. Qed.

Lemma strip_prefix_split (m p t r : str) :
  strip_prefix m (p ++ t) = Some r ->
  (exists r', strip_prefix m p = Some r') \/
  (exists y r', m = p ++ y /\ y <> [] /\ strip_prefix y t = Some r').
Proof.
  revert p. induction m as [|c m IH]; intros p H.
  - left. now exists p.
  - destruct p as [|d p].
    + right. exists (c :: m), r. repeat split; [discriminate|exact H].
    + cbn [app] in H. rewrite strip_prefix_cons in H.
      destruct (N.eqb_spec c d) as [<-|]; [|discriminate].
      destruct (IH p H) as [(r' & Hr)|(y & r' & -> & Hy & Hr)].
      * left. exists r'. rewrite strip_prefix_cons, N.eqb_refl. exact Hr.
      * right. exists y, r'. repeat split; assumption.
Qed.

(** A marker that occurs neither in [p] nor in [t] and of which no proper
    suffix starts [t] does not occur in [p ++ t]. *)
Lemma includes_app_overlap (p t m : str) :
  includes p m = false -> includes t m = false ->
  (forall x y, m = x ++ y -> x <> [] -> y <> [] -> strip_prefix y t = None) ->
  includes (p ++ t) m = false.
Proof.
  intros Hp Ht Hov. induction p as [|c p IH]; [exact Ht|].
  cbn [app]. rewrite includes_cons.
  destruct (strip_prefix m (c :: p ++ t)) as [r|] eqn:E.
  - exfalso.
    destruct (@strip_prefix_split m (c :: p) t r E)
      as [(r' & Hr)|(y & r' & Hm & Hy & Hr)].
    + rewrite (includes_here _ _ Hr) in Hp. discriminate.
    + rewrite (Hov (c :: p) y Hm) in Hr; [discriminate|discriminate|exact Hy].
  - apply IH. now apply includes_cons_false with c.
Qed.

Ltac overlap_cases x y E Hy :=
  cbn [app] in E;
  first
    [ discriminate E
    | let E' := fresh "E" in
      injection E as ? E';
      destruct x as [|? x];
      [ cbn [app] in E'; subst y; first [reflexivity|now elim Hy]
      | overlap_cases x y E' Hy ] ].

Ltac no_overlap :=
  let x := fresh "x" in
  let y := fresh "y" in
  let E := fresh "E" in
  let Hx := fresh "Hx" in
  let Hy := fresh "Hy" in
  intros x y E Hx Hy;
  destruct x as [|? x]; [congruence|];
  overlap_cases x y E Hy.

Lemma keychain_string_fits (id : str) :
  fits_keychains id ->
  has_key (keychain_string id) = false /\
  has_array_close (keychain_string id) = false.
Proof.
  intros (Hk & Ha).
  assert (Hsplit : keychain_string id
                   = (TAB :: TAB :: lit "<string>$(AppIdentifierPrefix")
                       ++ 41%N :: id ++ STRING_CLOSE) by reflexivity.
  split.
  - unfold has_key. rewrite Hsplit.
    destruct (includes _ KEYCHAIN_KEY) eqn:E; [exfalso|reflexivity].
    apply includes_cut in E;
      [|unfold KEYCHAIN_KEY; simpl; intuition discriminate|discriminate].
    destruct E as [E|E]; [discriminate E|].
    rewrite includes_app_overlap in E; [discriminate| exact Hk |reflexivity|].
    unfold KEYCHAIN_KEY. no_overlap.
  - unfold has_array_close. rewrite Hsplit.
    destruct (includes _ ARRAY_CLOSE) eqn:E; [exfalso|reflexivity].
    apply includes_cut in E;
      [|unfold ARRAY_CLOSE; simpl; intuition discriminate|discriminate].
    destruct E as [E|E]; [discriminate E|].
    rewrite includes_app_overlap in E; [discriminate| exact Ha |reflexivity|].
    unfold ARRAY_CLOSE. no_overlap.
Qed.

Lemma keychain_entries_fit (b : str) (K : list str) :
  fits_keychains b -> Forall fits_keychains K ->
  Forall (fun l => has_key l = false /\ has_array_close l = false)
         (keychain_entries b K).
Proof.
  intros Hb HK. unfold keychain_entries. constructor.
  - split; reflexivity.
  - constructor; [now apply keychain_string_fits|].
    apply Forall_map. eapply Forall_impl; [|exact HK].
    intros id. apply keychain_string_fits.
Qed.

Section KeychainsTwice.

Variables (b : str) (K : list str).
Hypothesis keychain_entries_safe :
  Forall (fun l => has_key l = false /\ has_array_close l = false /\
                   no_newline l)
         (keychain_entries b K).

Let upd := update_keychain_lines b K.
Let add := add_keychain_lines b K.

Lemma keychain_entries_inside :
  Forall (fun l => has_key l = false /\ has_array_close l = false)
         (keychain_entries b K).
Proof.
  eapply Forall_impl; [|exact keychain_entries_safe].
  now intros l (H1 & H2 & _).
Qed.

Lemma update_keychain_lines_keeps_key (s : bool) (lines : list str) (l : str) :
  In l lines -> has_key l = true ->
  exists l', In l' (upd s lines) /\ has_key l' = true.
Proof.
  unfold upd. revert s.
  induction lines as [|x ls IH]; intros s Hin Hl; [contradiction|].
  rewrite update_keychain_lines_cons. destruct (has_key x) eqn:Ek.
  - exists x. split; [now left|assumption].
  - destruct Hin as [->|Hin]; [congruence|].
    destruct (s && has_array_close x).
    + destruct (IH false Hin Hl) as (l' & H1 & H2).
      exists l'. split; [now right|assumption].
    + destruct (negb s).
      * destruct (IH s Hin Hl) as (l' & H1 & H2).
        exists l'. split; [now right|assumption].
      * apply IH; assumption.
Qed.

Lemma update_keychain_lines_no_newline (s : bool) (lines : list str) :
  Forall no_newline lines -> Forall no_newline (upd s lines).
Proof.
  unfold upd. intros H. revert s.
  induction H as [|x ls Hx _ IH]; intros s; [constructor|].
  rewrite update_keychain_lines_cons. destruct (has_key x).
  - constructor; [assumption|]. apply Forall_app. split; [|apply IH].
    eapply Forall_impl; [|exact keychain_entries_safe].
    now intros l (_ & _ & H).
  - destruct (s && has_array_close x); [constructor; auto|].
    destruct (negb s); [constructor; auto|apply IH].
Qed.

Lemma add_keychain_lines_cases (lines : list str) :
  add lines = lines \/ In KEY_LINE (add lines).
Proof.
  unfold add. induction lines as [|x ls IH]; [now left|].
  rewrite add_keychain_lines_cons.
  destruct (has_dict_close x); [right; now left|].
  destruct IH as [->|IH]; [now left|right; now right].
Qed.

Lemma add_keychain_lines_no_newline (lines : list str) :
  Forall no_newline lines -> Forall no_newline (add lines).
Proof.
  unfold add. induction 1 as [|x ls Hx _ IH]; [constructor|].
  rewrite add_keychain_lines_cons.
  destruct (has_dict_close x); [|constructor; auto].
  constructor;
    [unfold KEY_LINE, no_newline, NL; simpl; intuition discriminate|].
  apply Forall_app. split.
  - eapply Forall_impl; [|exact keychain_entries_safe].
    now intros l (_ & _ & H).
  - constructor;
      [unfold ARRAY_CLOSE_LINE, no_newline, NL; simpl; intuition discriminate|].
    constructor; auto.
Qed.

End KeychainsTwice.

(** *** Entries that may hold line breaks *)

Lemma split_lines_break (l s : str) :
  split_lines (l ++ NL :: s) = split_lines l ++ split_lines s.
Proof.
  induction l as [|c l IH]; [reflexivity|].
  cbn [app split_lines]. rewrite IH.
  destruct (N.eqb c NL); [reflexivity|].
  pose proof (split_lines_not_nil l) as Hl.
  destruct (split_lines l) as [|x xs]; [congruence|reflexivity].
Qed.

Lemma split_lines_join_flat (ls : list str) :
  ls <> [] -> split_lines (join_lines ls) = flat_map split_lines ls.
Proof.
  induction ls as [|l ls IH]; [congruence|]. intros _.
  destruct ls as [|x ls].
  - simpl. now rewrite app_nil_r.
  - rewrite join_lines_cons by discriminate.
    rewrite split_lines_break, IH by discriminate. reflexivity.
Qed.

Lemma pieces_inside (es : list str) :
  Forall (fun l => has_key l = false /\ has_array_close l = false) es ->
  Forall (fun l => has_key l = false /\ has_array_close l = false)
         (flat_map split_lines es).
Proof.
  induction 1 as [|e es [Hk Ha] _ IH]; [constructor|].
  cbn [flat_map]. apply Forall_app. split; [|exact IH].
  apply Forall_and; now apply includes_split.
Qed.

Section KeychainsTwiceAnyEntries.

Variables (b : str) (K : list str).
Hypothesis entries_inside :
  Forall (fun l => has_key l = false /\ has_array_close l = false)
         (keychain_entries b K).

Lemma keychain_pieces_inside :
  Forall (fun l => has_key l = false /\ has_array_close l = false)
         (flat_map split_lines (keychain_entries b K)).
Proof. exact (pieces_inside entries_inside). Qed.

Lemma update_keychain_lines_flat (s : bool) (lines : list str) :
  Forall no_newline lines ->
  update_keychain_lines b K s
    (flat_map split_lines (update_keychain_lines b K s lines))
  = update_keychain_lines b K s lines.
Proof.
  intros H. revert s. induction H as [|l ls Hl _ IH]; intros s; [reflexivity|].
  destruct (has_key l) eqn:Ek.
  - rewrite (update_keychain_lines_key b K ls l s Ek).
    cbn [flat_map]. rewrite (split_lines_line Hl). cbn [app].
    rewrite flat_map_app.
    rewrite update_keychain_lines_key by exact Ek.
    rewrite update_keychain_lines_inside by exact keychain_pieces_inside.
    now rewrite IH.
  - destruct s.
    + destruct (has_array_close l) eqn:Ea.
      * rewrite (update_keychain_lines_end b K ls l Ek Ea).
        cbn [flat_map]. rewrite (split_lines_line Hl). cbn [app].
        rewrite update_keychain_lines_end by assumption. now rewrite IH.
      * rewrite (update_keychain_lines_skip b K ls l Ek Ea). apply IH.
    + rewrite (update_keychain_lines_copy b K ls l Ek).
      cbn [flat_map]. rewrite (split_lines_line Hl). cbn [app].
      rewrite update_keychain_lines_copy by assumption. now rewrite IH.
Qed.

Lemma update_after_add_flat (lines : list str) :
  Forall (fun l => has_key l = false) lines ->
  Forall no_newline lines ->
  update_keychain_lines b K false
    (flat_map split_lines (add_keychain_lines b K lines))
  = add_keychain_lines b K lines.
Proof.
  induction 1 as [|x ls Hx _ IH]; intros Hnl; [reflexivity|].
  inversion Hnl as [|? ? Hn1 Hn2]; subst.
  rewrite add_keychain_lines_cons. destruct (has_dict_close x).
  - cbn [flat_map]. rewrite flat_map_app. cbn [flat_map].
    rewrite (split_lines_line Hn1).
    change (split_lines KEY_LINE) with [KEY_LINE].
    change (split_lines ARRAY_CLOSE_LINE) with [ARRAY_CLOSE_LINE].
    cbn [app].
    rewrite update_keychain_lines_key by reflexivity.
    rewrite update_keychain_lines_inside by exact keychain_pieces_inside.
    rewrite update_keychain_lines_end by reflexivity.
    rewrite update_keychain_lines_copy by assumption. now rewrite IH.
  - cbn [flat_map]. rewrite (split_lines_line Hn1). cbn [app].
    rewrite update_keychain_lines_copy by assumption. now rewrite IH.
Qed.

Lemma edit_entitlements_twice_any (D : str) :
  edit_entitlements (edit_entitlements D b K) b K = edit_entitlements D b K.
Proof.
  assert (Hkey : ~ In NL KEYCHAIN_KEY /\ KEYCHAIN_KEY <> []).
  { split; [|discriminate].
    unfold KEYCHAIN_KEY, NL. simpl. intuition discriminate. }
  destruct Hkey as [Hkey1 Hkey2].
  pose proof (split_lines_no_newline D) as Hnl.
  assert (HE : edit_entitlements D b K
               = if includes D KEYCHAIN_KEY
                 then join_lines
                        (update_keychain_lines b K false (split_lines D))
                 else join_lines (add_keychain_lines b K (split_lines D)))
    by reflexivity.
  destruct (includes D KEYCHAIN_KEY) eqn:Ek; rewrite HE.
  - destruct (includes_split_inv D Hkey1 Hkey2 Ek) as (l & Hin & Hl).
    destruct (@update_keychain_lines_keeps_key b K false _ _ Hin Hl)
      as (l' & Hin' & Hl').
    unfold edit_entitlements.
    rewrite (includes_join _ _ _ Hin' Hl').
    rewrite split_lines_join_flat
      by (intros E; rewrite E in Hin'; contradiction).
    now rewrite update_keychain_lines_flat.
  - assert (Hnk : Forall (fun l => has_key l = false) (split_lines D))
      by now apply includes_split.
    destruct (add_keychain_lines_cases b K (split_lines D)) as [E|Hin].
    + rewrite E, join_split. unfold edit_entitlements. rewrite Ek.
      now rewrite E, join_split.
    + unfold edit_entitlements.
      rewrite (@includes_join _ KEY_LINE KEYCHAIN_KEY Hin) by reflexivity.
      rewrite split_lines_join_flat
        by (intros E; rewrite E in Hin; contradiction).
      now rewrite update_after_add_flat.
Qed.

End KeychainsTwiceAnyEntries.

(** *** The Android editor, for every order of the markers *)

Lemma package_line_fits (ind p : str) :
  all_space ind -> no_newline ind -> fits_queries p ->
  has_close (package_line ind p) = false /\
  no_newline (package_line ind p) /\
  is_package_entry (package_line ind p) = true.
Proof.
  intros Hs Hn [Hnl Hc]. split; [|split].
  - unfold has_close, package_line.
    destruct (includes _ QUERIES_CLOSE) eqn:E; [exfalso|reflexivity].
    rewrite app_assoc in E.
    apply includes_cut in E;
      [|unfold QUERIES_CLOSE, DQUOTE; simpl; intuition discriminate
       |discriminate].
    destruct E as [E|E].
    + unfold QUERIES_CLOSE in E.
      rewrite includes_skip in E by now apply all_space_no_lt.
      discriminate E.
    + apply includes_cut in E;
        [|unfold QUERIES_CLOSE, DQUOTE; simpl; intuition discriminate
         |discriminate].
      destruct E as [E|E]; [|discriminate E].
      unfold has_close in Hc. congruence.
  - now apply package_line_no_newline.
  - apply package_line_is_entry.
Qed.

Lemma package_lines_fit (ind : str) (P : list str) :
  all_space ind -> no_newline ind -> Forall fits_queries P ->
  Forall (fun l => has_close l = false /\ no_newline l /\
                   is_package_entry l = true)
         (map (package_line ind) P).
Proof.
  intros Hs Hn HP. apply Forall_map.
  eapply Forall_impl; [|exact HP].
  intros p Hp. now apply package_line_fits.
Qed.

Section AndroidTwice.

Variable P : list str.
Hypothesis entries_fit : Forall fits_queries P.

Lemma twice_entries (lo : str) :
  no_newline lo ->
  Forall (fun l => has_close l = false /\ no_newline l /\
                   is_package_entry l = true)
         (map (package_line (leading_ws lo ++ TWO_SPACES)) P).
Proof.
  intros Hlo. destruct (package_indent_ok Hlo) as [Hs Hn].
  now apply package_lines_fit.
Qed.

(** The close line after the open line. *)
Lemma twice_section (lines pre mid post : list str) (lo lc : str) :
  queries_section lines pre lo mid lc post ->
  Forall no_newline lines ->
  test_empty_queries (join_lines (reconciled P pre lo mid lc post)) = false ->
  edit_manifest (join_lines (reconciled P pre lo mid lc post)) P
  = Some (join_lines (reconciled P pre lo mid lc post)).
Proof.
  intros (Hl & Hpre & Ho & Hoc & Hmid & Hc) Hnl Htest. subst lines.
  apply Forall_app in Hnl. destruct Hnl as [Hn1 Hnl].
  inversion Hnl as [|? ? Hn2 Hnl']; subst.
  apply Forall_app in Hnl'. destruct Hnl' as [Hn3 Hnl'].
  inversion Hnl' as [|? ? Hn4 Hn5]; subst.
  pose proof (twice_entries Hn2) as Hpk.
  unfold reconciled in *.
  set (pk := map (package_line (leading_ws lo ++ TWO_SPACES)) P) in *.
  set (kept := filter not_package mid) in *.
  assert (Hsec : queries_section
            (split_lines
               (normalize_queries
                  (join_lines (pre ++ lo :: pk ++ kept ++ lc :: post))))
            pre lo (pk ++ kept) lc post).
  { rewrite normalize_queries_none by exact Htest.
    rewrite split_join.
    - unfold queries_section. rewrite <- app_assoc. repeat split; auto.
      apply Forall_app. split.
      + eapply Forall_impl; [|exact Hpk]. now intros l (H & _).
      + now apply Forall_filter_keep.
    - now destruct pre.
    - apply Forall_app. split; [assumption|].
      constructor; [assumption|].
      apply Forall_app. split.
      + eapply Forall_impl; [|exact Hpk]. now intros l (_ & H & _).
      + apply Forall_app. split; [now apply Forall_filter_keep|].
        now constructor. }
  rewrite (@edit_manifest_section _ P pre (pk ++ kept) post lo lc Hsec).
  unfold reconciled. fold pk.
  rewrite filter_app. unfold pk at 2. rewrite filter_not_package_lines.
  unfold kept. rewrite filter_filter. reflexivity.
Qed.

(** The close marker on the open line or above it. *)
Lemma twice_open_ended (lines pre rest : list str) (lo : str) :
  open_ended lines pre lo rest ->
  Forall no_newline lines ->
  let written :=
    pre ++ lo :: map (package_line (leading_ws lo ++ TWO_SPACES)) P
      ++ filter not_package rest in
  test_empty_queries (join_lines written) = false ->
  edit_manifest (join_lines written) P = Some (join_lines written).
Proof.
  intros (Hl & Hpre & Ho & Hc) Hnl written Htest. subst lines.
  apply Forall_app in Hnl. destruct Hnl as [Hn1 Hnl].
  inversion Hnl as [|? ? Hn2 Hn3]; subst.
  pose proof (twice_entries Hn2) as Hpk.
  unfold written in *.
  set (pk := map (package_line (leading_ws lo ++ TWO_SPACES)) P) in *.
  assert (Hopen : open_ended
            (split_lines
               (normalize_queries
                  (join_lines (pre ++ lo :: pk ++ filter not_package rest))))
            pre lo (pk ++ filter not_package rest)).
  { rewrite normalize_queries_none by exact Htest.
    rewrite split_join.
    - repeat split; auto.
    - now destruct pre.
    - apply Forall_app. split; [assumption|].
      constructor; [assumption|].
      apply Forall_app. split.
      + eapply Forall_impl; [|exact Hpk]. now intros l (_ & H & _).
      + now apply Forall_filter_keep. }
  rewrite (@edit_manifest_open_ended _ P pre _ lo Hopen). fold pk.
  rewrite filter_app. unfold pk at 2. rewrite filter_not_package_lines.
  rewrite filter_filter. reflexivity.
Qed.

(** After a creation. *)
Lemma twice_creation (D : str) (pre post : list str) (la : str) :
  has_open D = false ->
  split_lines D = pre ++ la :: post ->
  Forall (fun l => has_close l = false) pre \/
  Forall (fun l => is_package_entry l = false) (la :: post) ->
  let written :=
    pre ++ (leading_ws la ++ QUERIES_TAG)
      :: map (package_line (leading_ws la ++ TWO_SPACES)) P
      ++ (leading_ws la ++ QUERIES_CLOSE) :: [] :: la :: post in
  test_empty_queries (join_lines written) = false ->
  edit_manifest (join_lines written) P = Some (join_lines written).
Proof.
  intros Ho Hs Hside written Htest.
  pose proof (split_lines_no_newline D) as Hnl. rewrite Hs in Hnl.
  apply Forall_app in Hnl. destruct Hnl as [Hn1 Hn2].
  inversion Hn2 as [|? ? Hn3 Hn4]; subst.
  destruct (@has_close_join_parts D pre post la QUERIES_OPEN Ho Hs)
    as (Ho1 & Ho2 & Ho3).
  unfold written in *.
  set (ind := leading_ws la) in *.
  assert (Hind : all_space ind) by apply leading_ws_all_space.
  assert (Hindn : no_newline ind) by now apply leading_ws_no_newline.
  pose proof (twice_entries Hn3) as Hpk. fold ind in Hpk.
  set (pk := map (package_line (ind ++ TWO_SPACES)) P) in *.
  set (qo := ind ++ QUERIES_TAG) in *.
  set (qc := ind ++ QUERIES_CLOSE) in *.
  assert (Hqo1 : has_open qo = true) by (apply includes_app_r; reflexivity).
  assert (Hqo2 : has_close qo = false).
  { unfold qo, has_close, QUERIES_CLOSE.
    now rewrite includes_skip by now apply all_space_no_lt. }
  assert (Hqo3 : no_newline qo).
  { intros Hin. apply in_app_or in Hin. destruct Hin as [Hin|Hin]; [auto|].
    revert Hin. unfold QUERIES_TAG, NL. simpl. intuition discriminate. }
  assert (Hqc1 : has_close qc = true) by (apply includes_app_r; reflexivity).
  assert (Hqc2 : no_newline qc).
  { intros Hin. apply in_app_or in Hin. destruct Hin as [Hin|Hin]; [auto|].
    revert Hin. unfold QUERIES_CLOSE, NL. simpl. intuition discriminate. }
  assert (Hqc3 : not_package qc = true).
  { unfold not_package, is_package_entry, qc, PACKAGE_OPEN.
    now rewrite includes_skip by now apply all_space_no_lt. }
  assert (Hlead : leading_ws qo = ind).
  { apply (@leading_ws_app ind (tl QUERIES_TAG) LT);
      [assumption|reflexivity]. }
  assert (Hsplit : split_lines
            (normalize_queries
               (join_lines (pre ++ qo :: pk ++ qc :: [] :: la :: post)))
            = pre ++ qo :: pk ++ qc :: [] :: la :: post).
  { rewrite normalize_queries_none by exact Htest.
    apply split_join; [now destruct pre|].
    apply Forall_app. split; [assumption|].
    constructor; [assumption|].
    apply Forall_app. split.
    { eapply Forall_impl; [|exact Hpk]. now intros l (_ & H & _). }
    constructor; [assumption|].
    constructor; [intros []|]. now constructor. }
  destruct (existsb has_close pre) eqn:Epre.
  - (* a close marker above the new section *)
    destruct Hside as [Hside|Hside].
    { exfalso. apply existsb_exists in Epre. destruct Epre as (l & Hin & Hl).
      rewrite Forall_forall in Hside. rewrite (Hside l Hin) in Hl.
      discriminate. }
    assert (Hopen : open_ended
              (split_lines
                 (normalize_queries
                    (join_lines (pre ++ qo :: pk ++ qc :: [] :: la :: post))))
              pre qo (pk ++ qc :: [] :: la :: post)).
    { rewrite Hsplit. repeat split; auto. right.
      apply existsb_exists in Epre. now apply Exists_exists. }
    rewrite (@edit_manifest_open_ended _ P pre _ qo Hopen).
    rewrite Hlead. fold pk.
    rewrite filter_app. unfold pk at 2. rewrite filter_not_package_lines.
    cbn [app].
    replace (filter not_package (qc :: [] :: la :: post))
      with (qc :: [] :: la :: post); [reflexivity|].
    symmetry. apply forallb_filter_id. apply forallb_forall.
    intros l [<-|[<-|Hin]]; [exact Hqc3|reflexivity|].
    rewrite Forall_forall in Hside.
    unfold not_package. now rewrite (Hside l Hin).
  - (* the new section is the first one *)
    assert (Hnc : Forall (fun l => has_close l = false) pre).
    { apply Forall_forall. intros l Hin.
      destruct (has_close l) eqn:E; [|reflexivity].
      assert (existsb has_close pre = true)
        by (apply existsb_exists; now exists l).
      congruence. }
    assert (Hsec : queries_section
              (split_lines
                 (normalize_queries
                    (join_lines (pre ++ qo :: pk ++ qc :: [] :: la :: post))))
              pre qo pk qc ([] :: la :: post)).
    { rewrite Hsplit. unfold queries_section. repeat split; auto.
      - now apply Forall_and.
      - eapply Forall_impl; [|exact Hpk]. now intros l (H & _). }
    rewrite (@edit_manifest_section _ P pre pk ([] :: la :: post) qo qc Hsec).
    unfold reconciled. rewrite Hlead. fold pk.
    unfold pk at 2. now rewrite filter_not_package_lines.
Qed.

Lemma edit_manifest_twice (D D' : str) :
  edit_manifest D P = Some D' ->
  test_empty_queries D' = false ->
  (has_open D = false ->
   forall pre la post,
     split_lines D = pre ++ la :: post ->
     Forall (fun l => has_application l = false) pre ->
     has_application la = true ->
     Forall (fun l => has_close l = false) pre \/
     Forall (fun l => is_package_entry l = false) (la :: post)) ->
  edit_manifest D' P = Some D'.
Proof.
  intros Hedit Htest Hside.
  destruct (has_open D) eqn:Ho.
  - (* update *)
    assert (Hfind : exists o c,
              find_queries_lines (split_lines (normalize_queries D)) 0
                None None = (Some o, Some c)).
    { revert Hedit. unfold edit_manifest. unfold has_open in Ho. rewrite Ho.
      unfold update_queries.
      destruct (find_queries_lines (split_lines (normalize_queries D)) 0
                  None None) as [[o|] [c|]]; try discriminate. eauto. }
    destruct Hfind as (o & c & Hfind).
    apply find_queries_lines_first in Hfind.
    destruct Hfind as [[Hf|(_ & _ & Hfo & Hlo & _)]
                         [Hg|(_ & _ & Hfc & Hlc & _)]];
      try discriminate.
    rewrite Nat.sub_0_r in *.
    pose proof (split_lines_no_newline (normalize_queries D)) as Hnl.
    destruct (@marker_cases (split_lines (normalize_queries D)))
      as [(pre & lo & mid & lc & post & H)|(pre & lo & rest & H)].
    + apply existsb_exists. eexists. split; [|exact Hfo]. now apply nth_In.
    + apply existsb_exists. eexists. split; [|exact Hfc]. now apply nth_In.
    + rewrite (@edit_manifest_section D P pre mid post lo lc H) in Hedit.
      injection Hedit as <-. now apply twice_section with (1 := H).
    + rewrite (@edit_manifest_open_ended D P pre rest lo H) in Hedit.
      injection Hedit as <-. now apply (twice_open_ended H).
  - (* creation *)
    assert (Hfind : exists a,
              find_application_line (split_lines D) 0 = Some a).
    { revert Hedit. unfold edit_manifest. unfold has_open in Ho. rewrite Ho.
      unfold create_queries.
      destruct (find_application_line (split_lines D) 0);
        [eauto|discriminate]. }
    destruct Hfind as (a & Hfind).
    apply find_application_line_some in Hfind.
    destruct Hfind as (pre & la & post & Hs & _ & Hpre & Ha).
    rewrite edit_manifest_create in Hedit by assumption.
    rewrite (@create_queries_text D P pre post la Hs Hpre Ha) in Hedit.
    injection Hedit as <-.
    apply (@twice_creation D pre post la Ho Hs); [|exact Htest].
    now apply (Hside eq_refl pre la post).
Qed.

End AndroidTwice.

(** C1, as the code has it.  With Android entries that contain neither a
    line break nor [</queries>], editing a second time with the same
    entries writes the same text again whenever the text written first
    holds no self-closing or single-line-empty form, whatever the order of
    the markers in the document; after a creation this needs that no line
    above the [<application] line has a close marker, or that no line from
    it on is a package entry.  With a bundle ID and keychains that contain
    neither the key nor [</array>], the iOS edit gives the same text at the
    second run on every document. *)
Theorem editing_twice (P : list str) (b : str) (K : list str) :
  Forall fits_queries P -> fits_keychains b -> Forall fits_keychains K ->
  (forall D D',
     edit_manifest D P = Some D' ->
     test_empty_queries D' = false ->
     (has_open D = false ->
      forall pre la post,
        split_lines D = pre ++ la :: post ->
        Forall (fun l => has_application l = false) pre ->
        has_application la = true ->
        Forall (fun l => has_close l = false) pre \/
        Forall (fun l => is_package_entry l = false) (la :: post)) ->
     edit_manifest D' P = Some D') /\
  (forall D,
     edit_entitlements (edit_entitlements D b K) b K
     = edit_entitlements D b K).
Proof.
  intros HP Hb HK. split.
  - intros D D'. now apply edit_manifest_twice.
  - intros D. apply edit_entitlements_twice_any.
    now apply keychain_entries_fit.
Qed.

Ltac solve_clean :=
  repeat match goal with
         | |- Forall _ _ => constructor
         | |- clean_entry _ => split
         | |- ~ In _ _ => unfold LT, NL; simpl; intuition discriminate
         end.

Ltac solve_fits :=
  repeat match goal with
         | |- Forall _ _ => constructor
         | |- fits_queries _ => split
         | |- fits_keychains _ => split
         | |- ~ In _ _ => unfold NL; simpl; intuition discriminate
         | |- _ = _ => reflexivity
         end.

Lemma editing_twice_witness :
  (Forall fits_queries [Examples.com_a] /\ fits_keychains Examples.bundle /\
   Forall fits_keychains [Examples.com_b]) /\
  (forall D',
     edit_manifest Examples.manifest_plain [Examples.com_a] = Some D' ->
     edit_manifest D' [Examples.com_a] = Some D') /\
  (forall D',
     edit_manifest Examples.manifest_populated [Examples.com_a] = Some D' ->
     edit_manifest D' [Examples.com_a] = Some D') /\
  (forall D',
     edit_manifest Examples.manifest_one_line_section [Examples.com_a]
     = Some D' ->
     edit_manifest D' [Examples.com_a] = Some D') /\
  (forall D',
     edit_manifest Examples.manifest_stray_close [Examples.com_a] = Some D' ->
     edit_manifest D' [Examples.com_a] = Some D') /\
  (forall D',
     edit_manifest Examples.manifest_comment_only [Examples.com_a]
     = Some D' ->
     edit_manifest D' [Examples.com_a] = Some D') /\
  edit_entitlements
    (edit_entitlements Examples.entitlements_with_groups Examples.bundle
       [Examples.com_b]) Examples.bundle [Examples.com_b]
  = edit_entitlements Examples.entitlements_with_groups Examples.bundle
      [Examples.com_b].
Proof.
  assert (H1 : Forall fits_queries [Examples.com_a]) by solve_fits.
  assert (H2 : fits_keychains Examples.bundle) by solve_fits.
  assert (H3 : Forall fits_keychains [Examples.com_b]) by solve_fits.
  split; [auto|].
  destruct (@editing_twice [Examples.com_a] Examples.bundle [Examples.com_b]
              H1 H2 H3) as (Handroid & Hios).
  split; [|split; [|split; [|split; [|split]]]].
  - intros D' H. apply (Handroid _ _ H).
    + injection H as <-. reflexivity.
    + intros _ pre la post Hs Hpre Ha. left.
      assert (Hc : has_close Examples.manifest_plain = false) by reflexivity.
      now destruct (@has_close_join_parts _ pre post la QUERIES_CLOSE Hc Hs).
  - intros D' H. apply (Handroid _ _ H).
    + injection H as <-. reflexivity.
    + discriminate.
  - intros D' H. apply (Handroid _ _ H).
    + injection H as <-. reflexivity.
    + discriminate.
  - intros D' H. apply (Handroid _ _ H).
    + injection H as <-. reflexivity.
    + discriminate.
  - intros D' H. apply (Handroid _ _ H).
    + injection H as <-. reflexivity.
    + intros _ pre la post Hs _ _. right.
      assert (Hb : forallb not_package
                     (split_lines Examples.manifest_comment_only) = true)
        by (vm_compute; reflexivity).
      rewrite Hs, forallb_app in Hb. apply andb_prop in Hb.
      destruct Hb as [_ Hb]. rewrite forallb_forall in Hb.
      apply Forall_forall. intros l Hin. specialize (Hb l Hin).
      unfold not_package in Hb. now destruct (is_package_entry l).
  - apply Hios.
Defined.

(** C1 as stated fails.  In the Android editor: with two self-closing
    sections the second run expands the second one; an entry with a line
    break leaves its second half behind at every run; an entry with
    [</queries>] ends the section at its own line at the second run; after
    a creation below a comment with [</queries>], the second run drops a
    package line that follows the [<application] line.  In the iOS editor:
    an entry containing [</array>] ends the section early at the second
    run, one containing the key starts a new section. *)
Lemma editing_twice_differs :
  (exists D',
     edit_manifest Examples.manifest_two_sections [Examples.com_a] = Some D' /\
     edit_manifest D' [Examples.com_a] <> Some D') /\
  (exists D',
     edit_manifest Examples.manifest_plain [Examples.entry_two_lines]
     = Some D' /\
     edit_manifest D' [Examples.entry_two_lines] <> Some D') /\
  (exists D',
     edit_manifest Examples.manifest_plain [Examples.entry_queries_close]
     = Some D' /\
     edit_manifest D' [Examples.entry_queries_close] <> Some D') /\
  (exists D',
     edit_manifest Examples.manifest_comment_close [Examples.com_a]
     = Some D' /\
     edit_manifest D' [Examples.com_a] <> Some D') /\
  edit_entitlements
    (edit_entitlements Examples.entitlements_with_groups
       Examples.entry_array_close []) Examples.entry_array_close []
  <> edit_entitlements Examples.entitlements_with_groups
       Examples.entry_array_close [] /\
  edit_entitlements
    (edit_entitlements Examples.entitlements_with_groups
       Examples.bundle [KEYCHAIN_KEY]) Examples.bundle [KEYCHAIN_KEY]
  <> edit_entitlements Examples.entitlements_with_groups
       Examples.bundle [KEYCHAIN_KEY].
Proof.
  repeat split.
  - eexists. split; [vm_compute; reflexivity|].
    intros H. vm_compute in H. discriminate H.
  - eexists. split; [vm_compute; reflexivity|].
    intros H. vm_compute in H. discriminate H.
  - eexists. split; [vm_compute; reflexivity|].
    intros H. vm_compute in H. discriminate H.
  - eexists. split; [vm_compute; reflexivity|].
    intros H. vm_compute in H. discriminate H.
  - intros H. vm_compute in H. discriminate H.
  - intros H. vm_compute in H. discriminate H.
Qed.

(** * Further properties of the editors *)

(** ** When the Android edit fails *)

Lemma normalize_queries_keeps_open (D : str) :
  has_open D = true -> has_open (normalize_queries D) = true.
Proof.
  unfold normalize_queries, has_open.
  destruct (test_empty_queries D) eqn:E; [|auto].
  intros _.
  destruct (replace_empty_queries_found _ E) as (a & m & t & _ & _ & ->).
  apply includes_app_r. now apply includes_app_l.
Qed.

Lemma normalize_queries_empty_form_close (D : str) :
  test_empty_queries D = true -> has_close (normalize_queries D) = true.
Proof.
  unfold normalize_queries, has_close. intros E. rewrite E.
  destruct (replace_empty_queries_found _ E) as (a & m & t & _ & _ & ->).
  apply includes_app_r. now apply includes_app_l.
Qed.

Lemma normalize_queries_keeps_close (D : str) :
  has_close D = true -> has_close (normalize_queries D) = true.
Proof.
  intros H. destruct (test_empty_queries D) eqn:E.
  - now apply normalize_queries_empty_form_close.
  - now rewrite normalize_queries_none.
Qed.

(** The scan finds an open line exactly when some line has the marker, and
    likewise for the close line. *)
Lemma find_queries_lines_some (lines : list str) (i : nat)
    (qo qc : option nat) :
  (fst (find_queries_lines lines i qo qc) = None <->
   qo = None /\ Forall (fun l => has_open l = false) lines) /\
  (snd (find_queries_lines lines i qo qc) = None <->
   qc = None /\ Forall (fun l => has_close l = false) lines).
Proof.
  unfold has_open, has_close.
  revert i qo qc. induction lines as [|l ls IH]; intros i qo qc; simpl.
  - split; split; intros H; try tauto; split; auto.
  - destruct (IH (S i)
                (match qo with
                 | Some _ => qo
                 | None => if includes l QUERIES_OPEN then Some i else None
                 end)
                (match qc with
                 | Some _ => qc
                 | None => if includes l QUERIES_CLOSE then Some i else None
                 end)) as [[Ho1 Ho2] [Hc1 Hc2]].
    split; split.
    + intros H. destruct (Ho1 H) as [Hq Hf].
      destruct qo; [discriminate|].
      destruct (includes l QUERIES_OPEN) eqn:E; [discriminate|].
      split; [reflexivity|now constructor].
    + intros [-> Hf]. inversion Hf as [|? ? Hl Hls]; subst.
      apply Ho2. rewrite Hl. auto.
    + intros H. destruct (Hc1 H) as [Hq Hf].
      destruct qc; [discriminate|].
      destruct (includes l QUERIES_CLOSE) eqn:E; [discriminate|].
      split; [reflexivity|now constructor].
    + intros [-> Hf]. inversion Hf as [|? ? Hl Hls]; subst.
      apply Hc2. rewrite Hl. auto.
Qed.

Lemma includes_lines_false_iff (D pat : str) :
  ~ In NL pat -> pat <> [] ->
  (Forall (fun l => includes l pat = false) (split_lines D)
   <-> includes D pat = false).
Proof.
  intros Hnl Hne. split.
  - intros H. destruct (includes D pat) eqn:E; [|reflexivity].
    destruct (includes_split_inv D Hnl Hne E) as (l & Hin & Hl).
    rewrite Forall_forall in H. now rewrite (H l Hin) in Hl.
  - apply includes_split.
Qed.

Lemma update_queries_fails_iff (D : str) (P : list str) :
  has_open D = true ->
  (update_queries D P = None <-> has_close (normalize_queries D) = false).
Proof.
  intros Ho. apply normalize_queries_keeps_open in Ho.
  unfold update_queries.
  pose proof (find_queries_lines_some
                (split_lines (normalize_queries D)) 0 None None)
    as [[Ho1 _] [Hc1 Hc2]].
  assert (Hclose : Forall (fun l => has_close l = false)
                     (split_lines (normalize_queries D))
                   <-> has_close (normalize_queries D) = false).
  { apply includes_lines_false_iff; [|discriminate].
    unfold QUERIES_CLOSE, NL. simpl. intuition discriminate. }
  assert (Hopen : Forall (fun l => has_open l = false)
                    (split_lines (normalize_queries D))
                  <-> has_open (normalize_queries D) = false).
  { apply includes_lines_false_iff; [|discriminate].
    unfold QUERIES_OPEN, NL. simpl. intuition discriminate. }
  destruct (find_queries_lines (split_lines (normalize_queries D)) 0 None None)
    as [[o|] [c|]]; simpl in *.
  - split; [discriminate|]. intros H.
    assert (Some c = None) by (apply Hc2; split; [reflexivity|now apply Hclose]).
    discriminate.
  - split; [|reflexivity]. intros _. apply Hclose. now apply Hc1.
  - exfalso. destruct (Ho1 eq_refl) as [_ Hf].
    apply Hopen in Hf. congruence.
  - exfalso. destruct (Ho1 eq_refl) as [_ Hf].
    apply Hopen in Hf. congruence.
Qed.

Lemma create_queries_fails_iff (D : str) (P : list str) :
  create_queries D P = None <-> has_application D = false.
Proof.
  unfold create_queries.
  assert (Happ : Forall (fun l => has_application l = false) (split_lines D)
                 <-> has_application D = false).
  { apply includes_lines_false_iff; [|discriminate].
    unfold APPLICATION_OPEN, NL. simpl. intuition discriminate. }
  split.
  - destruct (find_application_line (split_lines D) 0) as [a|] eqn:E;
      [discriminate|].
    intros _. apply Happ.
    clear Happ. revert E. generalize 0.
    induction (split_lines D) as [|l ls IH]; intros i; simpl; [constructor|].
    destruct (includes l APPLICATION_OPEN) eqn:El; [discriminate|].
    intros E. constructor; [assumption|]. now apply (IH (S i)).
  - intros H. apply Happ in H. now rewrite find_application_line_none.
Qed.

Lemma edit_manifest_none_iff (D : str) (P : list str) :
  edit_manifest D P = None <->
  (has_open D = true /\ has_close (normalize_queries D) = false) \/
  (has_open D = false /\ has_application D = false).
Proof.
  unfold edit_manifest. fold (has_open D).
  destruct (has_open D) eqn:Ho.
  - rewrite (@update_queries_fails_iff D P Ho).
    split; [auto|]. intros [[_ H]|[H _]]; [assumption|discriminate].
  - rewrite create_queries_fails_iff.
    split; [auto|]. intros [[H _]|[_ H]]; [discriminate|assumption].
Qed.

Lemma empty_form_has_open (D : str) :
  test_empty_queries D = true -> has_open D = true.
Proof.
  intros Ht. unfold has_open.
  destruct (replace_empty_queries_found _ Ht) as (a & m & t & -> & Hm & _).
  apply includes_app_r.
  destruct (match_empty_queries_open _ Hm) as (r & Hr).
  now apply includes_here with r.
Qed.

(** X1.  The Android edit fails in exactly two cases: the manifest
    contains [<queries] but, once its first empty form is expanded, no
    [</queries>]; or it contains neither [<queries] nor [<application].  A
    manifest with an empty form never fails. *)
Theorem edit_manifest_fails_iff (D : str) (P : list str) :
  (edit_manifest D P = None <->
   (has_open D = true /\ has_close (normalize_queries D) = false) \/
   (has_open D = false /\ has_application D = false)) /\
  (test_empty_queries D = true -> edit_manifest D P <> None).
Proof.
  split; [apply edit_manifest_none_iff|].
  intros Ht Hnone. apply edit_manifest_none_iff in Hnone.
  pose proof (empty_form_has_open _ Ht) as Ho.
  destruct Hnone as [[_ Hc]|[Hno _]]; [|congruence].
  now rewrite (normalize_queries_empty_form_close _ Ht) in Hc.
Qed.

Lemma edit_manifest_fails_iff_witness :
  edit_manifest Examples.manifest_self_closing [Examples.com_a] <> None /\
  edit_manifest Examples.manifest_bare [Examples.com_a] = None.
Proof.
  split.
  - apply (proj2 (edit_manifest_fails_iff Examples.manifest_self_closing
                    [Examples.com_a])).
    reflexivity.
  - apply (proj1 (edit_manifest_fails_iff Examples.manifest_bare
                    [Examples.com_a])).
    right. split; reflexivity.
Defined.

(** ** What a successful Android edit leaves in the manifest *)

Lemma update_queries_found (D : str) (P : list str) (o c : nat) :
  find_queries_lines (split_lines (normalize_queries D)) 0 None None
  = (Some o, Some c) ->
  update_queries D P
  = Some (join_lines
            (firstn o (split_lines (normalize_queries D))
               ++ nth o (split_lines (normalize_queries D)) []
               :: map (package_line
                         (leading_ws
                            (nth o (split_lines (normalize_queries D)) [])
                          ++ TWO_SPACES)) P
               ++ rewrite_queries o c
                    (leading_ws (nth o (split_lines (normalize_queries D)) [])
                     ++ TWO_SPACES) P (S o) true
                    (skipn (S o) (split_lines (normalize_queries D))))).
Proof.
  intros H. unfold update_queries. rewrite H.
  pose proof (scan_open_in_range _ H) as Hlen.
  remember (split_lines (normalize_queries D)) as lines eqn:E.
  remember (nth o lines []) as lo eqn:Elo.
  do 2 f_equal.
  rewrite (list_split_at lines Hlen) at 1. rewrite <- Elo.
  rewrite rewrite_queries_prefix by (rewrite firstn_length_le; simpl; lia).
  f_equal. simpl plus. rewrite firstn_length_le by lia.
  apply rewrite_queries_at_open.
Qed.

(** The two anchor lines are always written back. *)
Lemma rewrite_queries_keeps_anchor (o c : nat) (ind : str) (P : list str)
    (lines : list str) (i k : nat) (s : bool) :
  k < length lines -> i + k = o \/ i + k = c ->
  In (nth k lines []) (rewrite_queries o c ind P i s lines).
Proof.
  revert i k s. induction lines as [|l ls IH]; intros i k s Hk Hi;
    simpl in Hk; [lia|].
  destruct k as [|k].
  - simpl. destruct (Nat.eqb_spec i o); [now left|].
    destruct (Nat.eqb_spec i c); [now left|]. lia.
  - assert (Hrec : forall s', In (nth k ls [])
                     (rewrite_queries o c ind P (S i) s' ls))
      by (intros s'; apply IH; lia).
    simpl. destruct (Nat.eqb i o).
    + right. apply in_or_app. right. apply Hrec.
    + destruct (Nat.eqb i c); [right; apply Hrec|].
      destruct s; [|right; apply Hrec].
      destruct (is_package_entry l); [apply Hrec|right; apply Hrec].
Qed.

Lemma edit_manifest_keeps_markers (D D' : str) (P : list str) :
  edit_manifest D P = Some D' ->
  has_open D' = true /\ has_close D' = true.
Proof.
  unfold edit_manifest. fold (has_open D). destruct (has_open D) eqn:Ho.
  - unfold update_queries.
    destruct (find_queries_lines (split_lines (normalize_queries D)) 0
                None None) as [[o|] [c|]] eqn:E; try discriminate.
    intros [= <-].
    pose proof (find_queries_lines_first _ _ _ _ E) as Hf.
    destruct Hf as [[Hf|(_ & _ & Hao & Holen & _)]
                    [Hf'|(_ & _ & Hac & Hclen & _)]]; try discriminate.
    rewrite Nat.sub_0_r in *.
    split; unfold has_open, has_close.
    + apply includes_join
        with (nth o (split_lines (normalize_queries D)) []); [|assumption].
      apply rewrite_queries_keeps_anchor; [assumption|now left].
    + apply includes_join
        with (nth c (split_lines (normalize_queries D)) []); [|assumption].
      apply rewrite_queries_keeps_anchor; [assumption|now right].
  - unfold create_queries.
    destruct (find_application_line (split_lines D) 0) as [a|] eqn:E;
      [|discriminate].
    apply find_application_line_some in E.
    destruct E as (pre & la & post & Hs & -> & Hpre & Ha).
    simpl plus. rewrite Hs, nth_middle_app.
    rewrite (insert_queries_at _ _ _ pre post la 0).
    intros [= <-]. split; unfold has_open, has_close.
    + apply includes_join with (leading_ws la ++ QUERIES_TAG).
      * apply in_or_app. right. now left.
      * now apply includes_app_r.
    + apply includes_join with (leading_ws la ++ QUERIES_CLOSE).
      * apply in_or_app. right. right. apply in_or_app. right. now left.
      * now apply includes_app_r.
Qed.

(** X2.  After a successful Android edit the manifest contains both
    markers, and editing it again, with any package list, does not fail. *)
Theorem edit_manifest_repeatable (D D' : str) (P : list str) :
  edit_manifest D P = Some D' ->
  has_open D' = true /\ has_close D' = true /\
  forall P', edit_manifest D' P' <> None.
Proof.
  intros H. destruct (edit_manifest_keeps_markers _ _ H) as [Ho Hc].
  split; [assumption|]. split; [assumption|].
  intros P' Hnone. apply edit_manifest_none_iff in Hnone.
  destruct Hnone as [[_ Hn]|[Hn _]]; [|congruence].
  now rewrite (normalize_queries_keeps_close _ Hc) in Hn.
Qed.

Lemma edit_manifest_repeatable_witness :
  let D' :=
    join_lines
      [lit "<manifest>";
       lit "  <queries> </queries>";
       package_line (lit "    ") Examples.com_a;
       lit "  <application />";
       lit "</manifest>"] in
  edit_manifest Examples.manifest_one_line_section [Examples.com_a] = Some D'
  /\ has_open D' = true /\ has_close D' = true /\
  forall P', edit_manifest D' P' <> None.
Proof.
  intros D'. split; [reflexivity|].
  apply (@edit_manifest_repeatable Examples.manifest_one_line_section D'
           [Examples.com_a]).
  reflexivity.
Defined.

Lemma rewrite_queries_no_newline (o c : nat) (ind : str)
    (P lines : list str) (i : nat) (s : bool) :
  Forall no_newline (map (package_line ind) P) ->
  Forall no_newline lines ->
  Forall no_newline (rewrite_queries o c ind P i s lines).
Proof.
  intros HP H. revert i s.
  induction H as [|l ls Hl _ IH]; intros i s; [constructor|].
  cbn [rewrite_queries]. destruct (Nat.eqb i o).
  - constructor; [assumption|]. apply Forall_app. split; [assumption|apply IH].
  - destruct (Nat.eqb i c); [constructor; [assumption|apply IH]|].
    destruct s; [|constructor; [assumption|apply IH]].
    destruct (is_package_entry l); [apply IH|].
    constructor; [assumption|apply IH].
Qed.

Lemma package_lines_no_newline (l : str) (P : list str) :
  no_newline l -> Forall (fun p => ~ In NL p) P ->
  Forall no_newline (map (package_line (leading_ws l ++ TWO_SPACES)) P).
Proof.
  intros Hl HP. apply Forall_map. eapply Forall_impl; [|exact HP].
  intros p Hp. apply package_line_no_newline; [|exact Hp].
  now apply package_indent_ok.
Qed.

(** X3.  With entries that hold no line break, after a successful Android
    edit the lines of the text hold, right below a line with the open
    marker, one line per requested entry, consecutive and in the given
    order: the indentation of that line, two spaces,
    [<package android:name="], the entry and [" />]. *)
Theorem requested_packages_written (D D' : str) (P : list str) :
  Forall (fun p => ~ In NL p) P ->
  edit_manifest D P = Some D' ->
  exists ind before lo after,
    has_open lo = true /\ indentation_of lo ind /\
    split_lines D'
    = before ++ lo
        :: map (fun p => ind ++ lit "  <package android:name=" ++ DQUOTE :: p
                           ++ DQUOTE :: lit " />") P
        ++ after.
Proof.
  intros HP.
  unfold edit_manifest. fold (has_open D). destruct (has_open D) eqn:Ho.
  - destruct (find_queries_lines (split_lines (normalize_queries D)) 0
                None None) as [[o|] [c|]] eqn:E;
      try (unfold update_queries; rewrite E; discriminate).
    rewrite (update_queries_found D P E). intros [= <-].
    pose proof (split_lines_no_newline (normalize_queries D)) as Hnl.
    pose proof (scan_open_in_range _ E) as Hlen.
    pose proof (find_queries_lines_first _ _ _ _ E) as Hf.
    destruct Hf as [[Hf|(_ & _ & Hao & _)] _]; [discriminate|].
    rewrite Nat.sub_0_r in Hao.
    rewrite (list_split_at _ Hlen) in Hnl.
    set (lines := split_lines (normalize_queries D)) in *.
    set (lo := nth o lines []) in *.
    apply Forall_app in Hnl. destruct Hnl as [Hpre Hnl].
    pose proof (Forall_inv Hnl) as Hlo.
    pose proof (Forall_inv_tail Hnl) as Hrest.
    pose proof (@package_lines_no_newline lo P Hlo HP) as Hpk.
    exists (leading_ws lo), (firstn o lines), lo,
           (rewrite_queries o c (leading_ws lo ++ TWO_SPACES) P (S o) true
              (skipn (S o) lines)).
    split; [exact Hao|]. split; [apply leading_ws_indentation|].
    rewrite <- package_lines_text. apply split_join.
    + destruct (firstn o lines); discriminate.
    + apply Forall_app. split; [assumption|]. constructor; [assumption|].
      apply Forall_app. split; [assumption|].
      now apply rewrite_queries_no_newline.
  - unfold create_queries.
    destruct (find_application_line (split_lines D) 0) as [a|] eqn:E;
      [|discriminate].
    apply find_application_line_some in E.
    destruct E as (pre & la & post & Hs & -> & Hpre & Ha).
    simpl plus. rewrite Hs, nth_middle_app.
    rewrite (insert_queries_at _ _ _ pre post la 0).
    intros [= <-].
    pose proof (split_lines_no_newline D) as Hnl. rewrite Hs in Hnl.
    apply Forall_app in Hnl. destruct Hnl as [Hnpre Hnl].
    inversion Hnl as [|? ? Hla Hpost]; subst.
    pose proof (@package_lines_no_newline la P Hla HP) as Hpk.
    pose proof (leading_ws_no_newline Hla) as Hws.
    exists (leading_ws la), pre, (leading_ws la ++ QUERIES_TAG),
           ((leading_ws la ++ QUERIES_CLOSE) :: [] :: la :: post).
    split; [now apply includes_app_r|]. split.
    + exists QUERIES_TAG. split; [reflexivity|].
      split; [apply leading_ws_all_space|reflexivity].
    + rewrite <- package_lines_text. apply split_join.
      * destruct pre; discriminate.
      * apply Forall_app. split; [assumption|]. constructor.
        { intros Hin. apply in_app_or in Hin. destruct Hin as [Hin|Hin].
          - now apply Hws.
          - revert Hin. unfold QUERIES_TAG, NL. simpl. intuition discriminate. }
        apply Forall_app. split; [assumption|]. constructor.
        { intros Hin. apply in_app_or in Hin. destruct Hin as [Hin|Hin].
          - now apply Hws.
          - revert Hin. unfold QUERIES_CLOSE, NL. simpl.
            intuition discriminate. }
        constructor; [intros []|]. now constructor.
Qed.

Lemma requested_packages_written_witness :
  let D' :=
    join_lines
      [lit "<manifest>";
       lit "  <queries>";
       package_line (lit "    ") Examples.com_a;
       package_line (lit "    ") Examples.com_b;
       lit "  </queries>";
       [];
       lit "  <application />";
       lit "</manifest>"] in
  Forall (fun p => ~ In NL p) [Examples.com_a; Examples.com_b] /\
  edit_manifest Examples.manifest_plain [Examples.com_a; Examples.com_b]
  = Some D' /\
  exists ind before lo after,
    has_open lo = true /\ indentation_of lo ind /\
    split_lines D'
    = before ++ lo
        :: map (fun p => ind ++ lit "  <package android:name=" ++ DQUOTE :: p
                           ++ DQUOTE :: lit " />")
             [Examples.com_a; Examples.com_b]
        ++ after.
Proof.
  intros D'.
  assert (HP : Forall (fun p => ~ In NL p) [Examples.com_a; Examples.com_b])
    by (repeat constructor; unfold NL; simpl; intuition discriminate).
  split; [exact HP|]. split; [reflexivity|].
  apply (@requested_packages_written Examples.manifest_plain D'
           [Examples.com_a; Examples.com_b] HP).
  reflexivity.
Defined.




(** ** Editing again with other entries *)

Lemma update_then_update (D : str) (P1 P2 pre mid post : list str)
    (lo lc : str) :
  Forall clean_entry P1 -> P1 <> [] ->
  test_empty_queries (normalize_queries D) = false ->
  queries_section (split_lines (normalize_queries D)) pre lo mid lc post ->
  Forall (fun l => has_open l = false) mid ->
  edit_manifest (join_lines (reconciled P1 pre lo mid lc post)) P2
  = Some (join_lines (reconciled P2 pre lo mid lc post)).
Proof.
  intros HP1 Hne Ht Hsec0 Hmidopen.
  pose proof (@update_twice_no_empty_form D P1 pre mid post lo lc
                HP1 Hne Ht Hsec0 Hmidopen) as Htest.
  pose proof (@update_twice_entries D P1 pre mid post lo lc HP1 Hsec0) as Hpk.
  destruct (@update_twice_lines D pre mid post lo lc Hsec0)
    as (Hn1 & Hn2 & Hn3 & Hn4 & Hn5).
  destruct Hsec0 as (Hl & Hpre & Ho & Hoc & Hmid & Hc).
  unfold reconciled at 1.
  set (pk := map (package_line (leading_ws lo ++ TWO_SPACES)) P1) in *.
  set (kept := filter not_package mid) in *.
  assert (Hsec : queries_section
            (split_lines
               (normalize_queries
                  (join_lines (pre ++ lo :: pk ++ kept ++ lc :: post))))
            pre lo (pk ++ kept) lc post).
  { rewrite normalize_queries_none by assumption.
    rewrite split_join.
    - unfold queries_section. rewrite <- app_assoc. repeat split; auto.
      apply Forall_app. split.
      + eapply Forall_impl; [|exact Hpk]. now intros l (_ & H & _).
      + now apply Forall_filter_keep.
    - now destruct pre.
    - apply Forall_app. split; [assumption|].
      constructor; [assumption|].
      apply Forall_app. split.
      + eapply Forall_impl; [|exact Hpk]. now intros l (_ & _ & H & _).
      + apply Forall_app. split; [now apply Forall_filter_keep|].
        now constructor. }
  rewrite (@edit_manifest_section _ P2 pre (pk ++ kept) post lo lc Hsec).
  unfold reconciled.
  rewrite filter_app. unfold pk. rewrite filter_not_package_lines.
  unfold kept. rewrite filter_filter. reflexivity.
Qed.

Lemma creation_then_update (D D1 : str) (P1 P2 : list str) :
  Forall clean_entry P1 ->
  has_open D = false -> has_close D = false ->
  edit_manifest D P1 = Some D1 ->
  edit_manifest D1 P2 = edit_manifest D P2.
Proof.
  intros HP Ho Hc Hedit.
  assert (Hfind : exists a, find_application_line (split_lines D) 0 = Some a).
  { revert Hedit. rewrite edit_manifest_create by assumption.
    unfold create_queries.
    destruct (find_application_line (split_lines D) 0); [eauto|discriminate]. }
  destruct Hfind as (a & Hfind).
  apply find_application_line_some in Hfind.
  destruct Hfind as (pre & la & post & Hs & _ & Hpre & Ha).
  rewrite edit_manifest_create in Hedit by assumption.
  rewrite (@create_queries_text D P1 pre post la Hs Hpre Ha) in Hedit.
  injection Hedit as <-.
  rewrite (@edit_manifest_create D P2 Ho).
  rewrite (@create_queries_text D P2 pre post la Hs Hpre Ha).
  pose proof (split_lines_no_newline D) as Hnl. rewrite Hs in Hnl.
  apply Forall_app in Hnl. destruct Hnl as [Hn1 Hn2].
  inversion Hn2 as [|? ? Hn3 Hn4]; subst.
  destruct (@has_close_join_parts D pre post la QUERIES_OPEN Ho Hs)
    as (Ho1 & Ho2 & Ho3).
  destruct (@has_close_join_parts D pre post la QUERIES_CLOSE Hc Hs)
    as (Hc1 & Hc2 & Hc3).
  set (ind := leading_ws la).
  assert (Hind : all_space ind) by apply leading_ws_all_space.
  assert (Hindn : no_newline ind) by now apply leading_ws_no_newline.
  destruct (package_indent_ok Hn3) as [Hps Hpn]. fold ind in Hps, Hpn.
  pose proof (package_lines_clean Hps Hpn HP) as Hpk.
  set (pk := map (package_line (ind ++ TWO_SPACES)) P1) in *.
  assert (Hclose_open : has_open (ind ++ QUERIES_CLOSE) = false).
  { unfold has_open, QUERIES_OPEN.
    now rewrite includes_skip by now apply all_space_no_lt. }
  assert (Htag_close : has_close (ind ++ QUERIES_TAG) = false).
  { unfold has_close, QUERIES_CLOSE.
    now rewrite includes_skip by now apply all_space_no_lt. }
  assert (Hrest : Forall (fun l => has_open l = false)
                    (pk ++ (ind ++ QUERIES_CLOSE) :: [] :: la :: post)).
  { apply Forall_app. split.
    - eapply Forall_impl; [|exact Hpk]. now intros l (H & _).
    - repeat constructor; assumption. }
  assert (Htest : test_empty_queries
            (join_lines
               (pre ++ (ind ++ QUERIES_TAG)
                  :: pk ++ (ind ++ QUERIES_CLOSE) :: [] :: la :: post))
            = false).
  { apply test_empty_queries_lines; [assumption|discriminate|].
    rewrite join_lines_cons by now destruct pk.
    rewrite <- app_assoc, test_empty_queries_skip_space by assumption.
    change (test_empty_queries
              (join_lines (pk ++ (ind ++ QUERIES_CLOSE) :: [] :: la :: post))
            = false).
    apply no_open_no_empty_form. now apply has_open_join_false. }
  assert (Hsec : queries_section
            (split_lines
               (normalize_queries
                  (join_lines
                     (pre ++ (ind ++ QUERIES_TAG)
                        :: pk ++ (ind ++ QUERIES_CLOSE) :: [] :: la :: post))))
            pre (ind ++ QUERIES_TAG) pk (ind ++ QUERIES_CLOSE)
            ([] :: la :: post)).
  { rewrite normalize_queries_none by assumption.
    rewrite split_join.
    - unfold queries_section. repeat split; auto.
      + now apply Forall_and.
      + apply includes_app_r. reflexivity.
      + eapply Forall_impl; [|exact Hpk]. now intros l (_ & H & _).
      + apply includes_app_r. reflexivity.
    - now destruct pre.
    - apply Forall_app. split; [assumption|].
      constructor.
      { intros Hin. apply in_app_or in Hin. destruct Hin as [Hin|Hin]; [auto|].
        revert Hin. unfold QUERIES_TAG, NL. simpl. intuition discriminate. }
      apply Forall_app. split.
      { eapply Forall_impl; [|exact Hpk]. now intros l (_ & _ & H & _). }
      constructor.
      { intros Hin. apply in_app_or in Hin. destruct Hin as [Hin|Hin]; [auto|].
        revert Hin. unfold QUERIES_CLOSE, NL. simpl. intuition discriminate. }
      constructor; [intros []|]. now constructor. }
  rewrite (@edit_manifest_section _ P2 pre pk ([] :: la :: post)
             (ind ++ QUERIES_TAG) (ind ++ QUERIES_CLOSE) Hsec).
  unfold reconciled.
  replace (leading_ws (ind ++ QUERIES_TAG)) with ind
    by (symmetry; apply (@leading_ws_app ind (tl QUERIES_TAG) LT);
        [assumption|reflexivity]).
  unfold pk. now rewrite filter_not_package_lines.
Qed.

(** X5.  The last run decides.  With first entries that contain neither
    [<] nor a line break, editing the result of a first edit with a second
    list gives what editing the original manifest with the second list
    gives: after a creation in a manifest with neither marker, and after an
    update of a manifest that has, once normalised, no further empty form,
    its close line after its open line and no open marker in between, for a
    non-empty first list.  The second list is arbitrary. *)
Theorem last_edit_wins (P1 P2 : list str) :
  Forall clean_entry P1 ->
  (forall D D1,
     has_open D = false -> has_close D = false ->
     edit_manifest D P1 = Some D1 ->
     edit_manifest D1 P2 = edit_manifest D P2) /\
  (forall D D1 pre lo mid lc post,
     P1 <> [] ->
     test_empty_queries (normalize_queries D) = false ->
     queries_section (split_lines (normalize_queries D)) pre lo mid lc post ->
     Forall (fun l => has_open l = false) mid ->
     edit_manifest D P1 = Some D1 ->
     edit_manifest D1 P2 = edit_manifest D P2).
Proof.
  intros HP. split.
  - intros D D1 Ho Hc. now apply creation_then_update.
  - intros D D1 pre lo mid lc post Hne Ht Hsec Hmid Hedit.
    rewrite (@edit_manifest_section D P1 pre mid post lo lc Hsec) in Hedit.
    injection Hedit as <-.
    rewrite (@edit_manifest_section D P2 pre mid post lo lc Hsec).
    now apply update_then_update with D.
Qed.

Lemma last_edit_wins_witness :
  let D1 :=
    join_lines
      [lit "<manifest>";
       lit "  <queries>";
       package_line (lit "    ") Examples.com_a;
       lit "    <intent />";
       lit "  </queries>";
       lit "  <application />";
       lit "</manifest>"] in
  Forall clean_entry [Examples.com_a] /\
  edit_manifest Examples.manifest_populated [Examples.com_a] = Some D1 /\
  edit_manifest D1 [Examples.com_b; Examples.entry_two_lines]
  = edit_manifest Examples.manifest_populated
      [Examples.com_b; Examples.entry_two_lines].
Proof.
  intros D1.
  assert (H1 : Forall clean_entry [Examples.com_a]) by solve_clean.
  split; [exact H1|]. split; [reflexivity|].
  apply (proj2 (@last_edit_wins [Examples.com_a]
                  [Examples.com_b; Examples.entry_two_lines] H1)
           Examples.manifest_populated D1
           [lit "<manifest>"] (lit "  <queries>")
           [lit "    <intent />"; package_line (lit "    ") (lit "old.app")]
           (lit "  </queries>") [lit "  <application />"; lit "</manifest>"]).
  - discriminate.
  - reflexivity.
  - solve_section.
  - repeat constructor.
  - reflexivity.
Defined.

(** ** The calls and the result of [setupKeychainsAndroid] *)

Lemma str_eqb_eq (a b : str) : str_eqb a b = true <-> a = b.
Proof.
  revert b. induction a as [|x a IH]; intros [|y b]; simpl;
    try (split; [discriminate|discriminate]); [tauto|].
  rewrite andb_true_iff, N.eqb_eq, IH. split.
  - now intros [-> ->].
  - now intros [= -> ->].
Qed.

Section AndroidRun.

Variable JSON_parse : str -> option json.
Variable ToString : json -> str.
Variables (configFile : str) (config : options).

Let load := load_packages JSON_parse ToString configFile config.
Let setup := setupKeychainsAndroid JSON_parse ToString configFile config.
Let mp := manifestPath config.

(** The run, case by case. *)
Lemma setup_cases (w : world) :
  exists cfgevs,
    snd (load w) = World (files w) (events w ++ cfgevs) /\
    Forall (fun e => is_write e = false /\ event_path e = configFile) cfgevs /\
    match fst (load w) with
    | [] => setup w = (false, World (files w) (events w ++ cfgevs))
    | p :: ps =>
        match files w mp with
        | None =>
            setup w
            = (false, World (files w) (events w ++ cfgevs ++ [ExistsSync mp]))
        | Some D =>
            match edit_manifest D (p :: ps) with
            | None =>
                setup w
                = (false,
                   World (files w)
                     (events w ++ cfgevs
                        ++ [ExistsSync mp; ReadFileSync mp]))
            | Some D' =>
                setup w
                = (true,
                   World (fun q => if str_eqb q mp then Some D' else files w q)
                     (events w ++ cfgevs
                        ++ [ExistsSync mp; ReadFileSync mp;
                            WriteFileSync mp D']))
            end
        end
    end.
Proof.
  destruct (load_packages_events JSON_parse ToString configFile config w)
    as (evs & [Hw Hro] & Hp).
  fold load in Hw. exists evs. split; [exact Hw|]. split.
  { rewrite Forall_forall in *. intros e He. split; auto. }
  unfold setup, setupKeychainsAndroid, bind. fold load. fold mp.
  destruct (load w) as [pkgs w1]. simpl in Hw. subst w1. simpl fst.
  destruct pkgs as [|p ps]; [reflexivity|].
  unfold existsSync, readFileSync, writeFileSync, ret, record. simpl.
  destruct (files w mp) as [D|] eqn:Hf; simpl.
  - rewrite Hf. destruct (edit_manifest D (p :: ps)) as [D'|]; simpl.
    + do 2 f_equal. now rewrite <- !app_assoc.
    + do 2 f_equal. now rewrite <- !app_assoc.
  - do 2 f_equal. now rewrite <- !app_assoc.
Qed.

End AndroidRun.

(** X6.  Whatever the file system holds, [setupKeychainsAndroid] leaves
    every file other than the manifest as it was; when it returns [false]
    no file has changed and no call was a write; when it returns [true] its
    calls are the checks and reads of the config file, then an existence
    check, a read and one write of the manifest, which then holds the
    edited text. *)
Theorem setup_touches_only_manifest
    (JSON_parse : str -> option json) (ToString : json -> str)
    (configFile : str) (config : options) (w : world) :
  let run := setupKeychainsAndroid JSON_parse ToString configFile config w in
  let mp := manifestPath config in
  exists evs,
    events (snd run) = events w ++ evs /\
    (forall q, q <> mp -> files (snd run) q = files w q) /\
    (fst run = false ->
     files (snd run) = files w /\ Forall (fun e => is_write e = false) evs) /\
    (fst run = true ->
     exists D D' cfgevs,
       files w mp = Some D /\
       edit_manifest D
         (fst (load_packages JSON_parse ToString configFile config w))
       = Some D' /\
       files (snd run) mp = Some D' /\
       evs = cfgevs ++ [ExistsSync mp; ReadFileSync mp; WriteFileSync mp D'] /\
       Forall (fun e => is_write e = false /\ event_path e = configFile)
         cfgevs).
Proof.
  intros run mp. subst run mp.
  destruct (setup_cases JSON_parse ToString configFile config w)
    as (cfgevs & _ & Hcfg & Hrun).
  assert (Hnw : Forall (fun e => is_write e = false) cfgevs).
  { eapply Forall_impl; [|exact Hcfg]. now intros e [H _]. }
  destruct (fst (load_packages JSON_parse ToString configFile config w))
    as [|p ps].
  - rewrite Hrun. exists cfgevs. simpl. repeat split; auto. discriminate.
  - destruct (files w (manifestPath config)) as [D|] eqn:Hf.
    + destruct (edit_manifest D (p :: ps)) as [D'|] eqn:He; rewrite Hrun.
      * eexists. simpl. split; [reflexivity|]. split; [|split].
        -- intros q Hq. destruct (str_eqb q (manifestPath config)) eqn:E;
             [|reflexivity].
           apply str_eqb_eq in E. contradiction.
        -- discriminate.
        -- intros _. exists D, D', cfgevs.
           rewrite str_eqb_refl. auto.
      * eexists. simpl. split; [reflexivity|]. split; [auto|]. split.
        -- intros _. split; [reflexivity|].
           apply Forall_app. split; [assumption|repeat constructor].
        -- discriminate.
    + rewrite Hrun. eexists. simpl. split; [reflexivity|].
      split; [auto|]. split.
      * intros _. split; [reflexivity|].
        apply Forall_app. split; [assumption|repeat constructor].
      * discriminate.
Qed.

Lemma setup_touches_only_manifest_witness :
  let w := Examples.world_with Examples.manifest_path Examples.manifest_plain in
  let config := Options Examples.manifest_path [Examples.com_a] in
  let run :=
    setupKeychainsAndroid Examples.no_json Examples.no_string
      Examples.config_path config w in
  fst run = true /\
  exists evs,
    events (snd run) = events w ++ evs /\
    (forall q, q <> Examples.manifest_path -> files (snd run) q = files w q) /\
    (fst run = false ->
     files (snd run) = files w /\ Forall (fun e => is_write e = false) evs) /\
    (fst run = true ->
     exists D D' cfgevs,
       files w Examples.manifest_path = Some D /\
       edit_manifest D
         (fst (load_packages Examples.no_json Examples.no_string
                 Examples.config_path config w))
       = Some D' /\
       files (snd run) Examples.manifest_path = Some D' /\
       evs = cfgevs ++ [ExistsSync Examples.manifest_path;
                        ReadFileSync Examples.manifest_path;
                        WriteFileSync Examples.manifest_path D'] /\
       Forall (fun e => is_write e = false
                        /\ event_path e = Examples.config_path) cfgevs).
Proof.
  intros w config run. split; [reflexivity|].
  apply (@setup_touches_only_manifest Examples.no_json Examples.no_string
           Examples.config_path config w).
Defined.

(** X7.  [setupKeychainsAndroid] returns [true] exactly when the resolved
    package list is not empty, the manifest exists and its edit
    succeeds. *)
Theorem setup_succeeds_iff
    (JSON_parse : str -> option json) (ToString : json -> str)
    (configFile : str) (config : options) (w : world) :
  let pkgs := fst (load_packages JSON_parse ToString configFile config w) in
  fst (setupKeychainsAndroid JSON_parse ToString configFile config w) = true
  <->
  pkgs <> [] /\
  exists D D',
    files w (manifestPath config) = Some D /\
    edit_manifest D pkgs = Some D'.
Proof.
  intros pkgs. subst pkgs.
  destruct (setup_cases JSON_parse ToString configFile config w)
    as (cfgevs & _ & _ & Hrun).
  destruct (fst (load_packages JSON_parse ToString configFile config w))
    as [|p ps].
  - rewrite Hrun. simpl. split; [discriminate|]. now intros [H _].
  - destruct (files w (manifestPath config)) as [D|] eqn:Hf.
    + destruct (edit_manifest D (p :: ps)) as [D'|] eqn:He; rewrite Hrun;
        simpl.
      * split; [|reflexivity]. intros _. split; [discriminate|]. eauto.
      * split; [discriminate|].
        intros [_ (D0 & D0' & [= <-] & H)]. congruence.
    + rewrite Hrun. simpl. split; [discriminate|].
      intros [_ (D0 & D0' & H & _)]. discriminate.
Qed.

Lemma setup_succeeds_iff_witness :
  let w := Examples.world_with Examples.manifest_path Examples.manifest_bare in
  let config := Options Examples.manifest_path [Examples.com_a] in
  fst (setupKeychainsAndroid Examples.no_json Examples.no_string
         Examples.config_path config w) <> true.
Proof.
  intros w config H.
  apply (@setup_succeeds_iff Examples.no_json Examples.no_string
           Examples.config_path config w) in H.
  destruct H as [_ (D & D' & H1 & H2)].
  vm_compute in H1. injection H1 as <-. vm_compute in H2. discriminate H2.
Defined.

(** X8.  Packages passed in the options are the ones used, and then the
    config file is not touched, not even to see whether it exists: every
    call is on the manifest path. *)
Theorem option_packages_take_precedence
    (JSON_parse : str -> option json) (ToString : json -> str)
    (configFile : str) (config : options) (w : world) (D : str) :
  packages config <> [] ->
  files w (manifestPath config) = Some D ->
  let run := setupKeychainsAndroid JSON_parse ToString configFile config w in
  exists evs,
    events (snd run) = events w ++ evs /\
    Forall (fun e => event_path e = manifestPath config) evs /\
    fst run
    = match edit_manifest D (packages config) with
      | Some _ => true
      | None => false
      end /\
    files (snd run) (manifestPath config)
    = match edit_manifest D (packages config) with
      | Some D' => Some D'
      | None => Some D
      end.
Proof.
  intros Hne Hf run. subst run.
  unfold setupKeychainsAndroid, load_packages, bind.
  destruct (packages config) as [|p ps]; [congruence|].
  unfold ret, existsSync, readFileSync, writeFileSync, record. simpl.
  rewrite Hf. simpl. rewrite Hf.
  destruct (edit_manifest D (p :: ps)) as [D'|]; simpl.
  - eexists. split; [now rewrite <- !app_assoc|].
    split; [repeat constructor|]. split; [reflexivity|].
    now rewrite str_eqb_refl.
  - eexists. split; [now rewrite <- !app_assoc|].
    split; [repeat constructor|]. split; [reflexivity|assumption].
Qed.

Lemma option_packages_take_precedence_witness :
  let w := Examples.world_with Examples.manifest_path Examples.manifest_plain in
  let config := Options Examples.manifest_path [Examples.com_a] in
  let run :=
    setupKeychainsAndroid Examples.no_json Examples.no_string
      Examples.config_path config w in
  exists evs,
    events (snd run) = events w ++ evs /\
    Forall (fun e => event_path e = manifestPath config) evs /\
    fst run
    = match edit_manifest Examples.manifest_plain (packages config) with
      | Some _ => true
      | None => false
      end /\
    files (snd run) (manifestPath config)
    = match edit_manifest Examples.manifest_plain (packages config) with
      | Some D' => Some D'
      | None => Some Examples.manifest_plain
      end.
Proof.
  intros w config.
  apply (@option_packages_take_precedence Examples.no_json Examples.no_string
           Examples.config_path config w Examples.manifest_plain).
  - discriminate.
  - reflexivity.
Defined.

Lemma load_packages_value
    (JSON_parse : str -> option json) (ToString : json -> str)
    (configFile : str) (config : options) (w : world) :
  fst (load_packages JSON_parse ToString configFile config w)
  = match packages config with
    | _ :: _ => packages config
    | [] =>
        match files w configFile with
        | None => []
        | Some content =>
            match JSON_parse content with
            | Some (JObject members) =>
                match assoc KEYCHAINS_KEY members with
                | Some (JArray items) => map ToString items
                | _ => []
                end
            | _ => []
            end
        end
    end.
Proof.
  unfold load_packages.
  destruct (packages config) as [|p ps]; [|reflexivity].
  unfold extractJsonArray, bind, existsSync, readFileSync, ret, record.
  simpl.
  destruct (files w configFile) as [content|] eqn:Hf; simpl; [|reflexivity].
  rewrite Hf. simpl. rewrite Hf.
  destruct (JSON_parse content) as [j|]; [|reflexivity].
  destruct j as [| | | | |members]; try reflexivity.
  destruct (assoc KEYCHAINS_KEY members) as [v|]; [|reflexivity].
  destruct v as [| | | |items|]; try reflexivity.
  now destruct (map ToString items).
Qed.

(** X9.  Where the package list comes from.  A non-empty list in the
    options is used as it is.  Otherwise a non-empty resolved list is the
    [keychains] array of the object parsed from the config file, item by
    item; and a config file that is missing or does not parse gives the
    empty list. *)
Theorem resolved_packages_origin
    (JSON_parse : str -> option json) (ToString : json -> str)
    (configFile : str) (config : options) (w : world) :
  let pkgs := fst (load_packages JSON_parse ToString configFile config w) in
  (packages config <> [] -> pkgs = packages config) /\
  (packages config = [] -> pkgs <> [] ->
   exists content members items,
     files w configFile = Some content /\
     JSON_parse content = Some (JObject members) /\
     assoc KEYCHAINS_KEY members = Some (JArray items) /\
     pkgs = map ToString items) /\
  (packages config = [] ->
   files w configFile = None \/
   (exists content,
      files w configFile = Some content /\ JSON_parse content = None) ->
   pkgs = []).
Proof.
  intros pkgs. subst pkgs. rewrite load_packages_value.
  split; [|split].
  - intros H. now destruct (packages config).
  - intros -> Hne.
    destruct (files w configFile) as [content|]; [|congruence].
    destruct (JSON_parse content) as [j|] eqn:Hj; [|congruence].
    destruct j as [| | | | |members]; try congruence.
    destruct (assoc KEYCHAINS_KEY members) as [v|] eqn:Ha; [|congruence].
    destruct v as [| | | |items|]; try congruence.
    exists content, members, items. auto.
  - intros -> [->|(content & -> & ->)]; reflexivity.
Qed.

Lemma resolved_packages_origin_witness :
  let w := Examples.world_with Examples.config_path [] in
  let config := Options Examples.manifest_path [] in
  fst (load_packages MoreExamples.config_json MoreExamples.string_of_json
         Examples.config_path config w)
  = [Examples.com_a; Examples.com_b] /\
  exists content members items,
    files w Examples.config_path = Some content /\
    MoreExamples.config_json content = Some (JObject members) /\
    assoc KEYCHAINS_KEY members = Some (JArray items) /\
    fst (load_packages MoreExamples.config_json MoreExamples.string_of_json
           Examples.config_path config w)
    = map MoreExamples.string_of_json items.
Proof.
  intros w config. split; [reflexivity|].
  apply (proj1 (proj2 (@resolved_packages_origin MoreExamples.config_json
                         MoreExamples.string_of_json Examples.config_path
                         config w))).
  - reflexivity.
  - discriminate.
Defined.

(** ** What the iOS edit writes, and when it writes nothing new *)

Lemma in_split_list (A : Type) (x : A) (l : list A) :
  In x l -> exists front rest, l = front ++ x :: rest.
Proof. apply in_split. Qed.

Lemma has_dict_close_line (D : str) :
  has_dict_close D = true ->
  exists front ld rest,
    split_lines D = front ++ ld :: rest /\ has_dict_close ld = true.
Proof.
  intros H. apply includes_split_inv in H;
    [|unfold DICT_CLOSE, NL; simpl; intuition discriminate|discriminate].
  destruct H as (l & Hin & Hl).
  destruct (in_split_list _ _ Hin) as (front & rest & E). eauto.
Qed.

Lemma has_key_line (D : str) :
  has_key D = true ->
  exists front lk rest,
    split_lines D = front ++ lk :: rest /\ has_key lk = true.
Proof.
  intros H. apply includes_split_inv in H;
    [|unfold KEYCHAIN_KEY, NL; simpl; intuition discriminate|discriminate].
  destruct H as (l & Hin & Hl).
  destruct (in_split_list _ _ Hin) as (front & rest & E). eauto.
Qed.

(** X10.  Whenever the entitlements text contains the key or a
    [</dict>], the edited text contains the key and, on consecutive lines,
    the array start, the bundle ID string and the keychain strings in the
    given order.  When it contains neither, the edit returns the text
    unchanged. *)
Theorem entitlements_groups_written (D b : str) (K : list str) :
  (has_key D = true \/ has_dict_close D = true ->
   has_key (edit_entitlements D b K) = true /\
   exists before after,
     edit_entitlements D b K
     = join_lines
         (before ++ ARRAY_LINE :: keychain_string b :: map keychain_string K
            ++ after)) /\
  (has_key D = false -> has_dict_close D = false ->
   edit_entitlements D b K = D).
Proof.
  split.
  - intros Hany. destruct (has_key D) eqn:Hk.
    + destruct (has_key_line _ Hk) as (front & lk & rest & Hs & Hlk).
      assert (E : edit_entitlements D b K
                  = join_lines (update_keychain_lines b K false
                                  (split_lines D))).
      { unfold edit_entitlements. unfold has_key in Hk. now rewrite Hk. }
      rewrite E, Hs.
      destruct (update_keychain_lines_app b K front false)
        as (out & s' & Hout & _).
      rewrite Hout, update_keychain_lines_key by assumption.
      split.
      * unfold has_key. apply includes_join with lk; [|exact Hlk].
        apply in_or_app. right. now left.
      * exists (out ++ [lk]), (update_keychain_lines b K true rest).
        now rewrite <- app_assoc.
    + destruct Hany as [Hany|Hd]; [discriminate|].
      destruct (has_dict_close_line _ Hd) as (front & ld & rest & Hs & Hld).
      assert (E : edit_entitlements D b K
                  = join_lines (add_keychain_lines b K (split_lines D))).
      { unfold edit_entitlements. unfold has_key in Hk. now rewrite Hk. }
      rewrite E, Hs, add_keychain_lines_app, add_keychain_lines_cons, Hld.
      split.
      * unfold has_key. apply includes_join with KEY_LINE; [|reflexivity].
        apply in_or_app. right. now left.
      * exists (add_keychain_lines b K front ++ [KEY_LINE]),
               (ARRAY_CLOSE_LINE :: ld :: add_keychain_lines b K rest).
        now rewrite <- app_assoc.
  - apply edit_entitlements_no_anchor.
Qed.

Lemma entitlements_groups_written_witness :
  (has_key Examples.entitlements_plain = true
   \/ has_dict_close Examples.entitlements_plain = true) /\
  has_key (edit_entitlements Examples.entitlements_plain Examples.bundle
             [Examples.com_a]) = true /\
  exists before after,
    edit_entitlements Examples.entitlements_plain Examples.bundle
      [Examples.com_a]
    = join_lines
        (before ++ ARRAY_LINE :: keychain_string Examples.bundle
           :: map keychain_string [Examples.com_a] ++ after).
Proof.
  assert (H : has_key Examples.entitlements_plain = true
              \/ has_dict_close Examples.entitlements_plain = true)
    by (right; reflexivity).
  split; [exact H|].
  exact (proj1 (entitlements_groups_written Examples.entitlements_plain
                  Examples.bundle [Examples.com_a]) H).
Defined.

(** X11.  A keychain section that is never closed swallows the rest of the
    file: when no line after the first key line contains [</array>] or the
    key, the edited text ends with the new entries and every later line of
    the document is gone. *)
Theorem unterminated_section_truncates (D b : str) (K pre rest : list str)
    (lk : str) :
  split_lines D = pre ++ lk :: rest ->
  Forall (fun l => has_key l = false) pre ->
  has_key lk = true ->
  Forall (fun l => has_key l = false /\ has_array_close l = false) rest ->
  edit_entitlements D b K
  = join_lines
      (pre ++ lk :: ARRAY_LINE :: keychain_string b
         :: map keychain_string K).
Proof.
  intros Hs Hpre Hk Hrest. unfold edit_entitlements.
  unfold has_key in Hk.
  rewrite (@in_split_has D lk KEYCHAIN_KEY pre rest Hs Hk), Hs.
  rewrite update_keychain_lines_before by assumption.
  rewrite update_keychain_lines_key by assumption.
  rewrite <- (app_nil_r rest).
  rewrite update_keychain_lines_inside by assumption.
  simpl. now rewrite app_nil_r.
Qed.

Lemma unterminated_section_truncates_witness :
  edit_entitlements
    (join_lines [lit "<dict>"; KEY_LINE; ARRAY_LINE; lit "</dict>";
                 lit "</plist>"])
    Examples.bundle [Examples.com_a]
  = join_lines
      ([lit "<dict>"] ++ KEY_LINE :: ARRAY_LINE
         :: keychain_string Examples.bundle
         :: map keychain_string [Examples.com_a]).
Proof.
  apply (@unterminated_section_truncates _ Examples.bundle [Examples.com_a]
           [lit "<dict>"] [ARRAY_LINE; lit "</dict>"; lit "</plist>"]
           KEY_LINE).
  - reflexivity.
  - repeat constructor.
  - reflexivity.
  - repeat constructor.
Defined.

(** ** The last iOS edit decides the result *)

Section KeychainsLastWins.

Variables (b1 b2 : str) (K1 K2 : list str).
Hypothesis bundle_clean : clean_entry b1.
Hypothesis keychains_clean : Forall clean_entry K1.

Lemma update_after_update (s : bool) (lines : list str) :
  update_keychain_lines b2 K2 s (update_keychain_lines b1 K1 s lines)
  = update_keychain_lines b2 K2 s lines.
Proof.
  revert s. induction lines as [|l ls IH]; intros s; [reflexivity|].
  destruct (has_key l) eqn:Ek.
  - rewrite (update_keychain_lines_key b1 K1 ls l s Ek).
    rewrite !update_keychain_lines_key by exact Ek.
    rewrite update_keychain_lines_inside
      by (apply keychain_entries_inside, keychain_entries_clean; assumption).
    now rewrite IH.
  - destruct s.
    + destruct (has_array_close l) eqn:Ea.
      * rewrite (update_keychain_lines_end b1 K1 ls l Ek Ea).
        rewrite !update_keychain_lines_end by assumption. now rewrite IH.
      * rewrite (update_keychain_lines_skip b1 K1 ls l Ek Ea).
        rewrite (update_keychain_lines_skip b2 K2 ls l Ek Ea). apply IH.
    + rewrite (update_keychain_lines_copy b1 K1 ls l Ek).
      rewrite !update_keychain_lines_copy by assumption. now rewrite IH.
Qed.

Lemma update_after_add_other (lines : list str) :
  Forall (fun l => has_key l = false) lines ->
  update_keychain_lines b2 K2 false (add_keychain_lines b1 K1 lines)
  = add_keychain_lines b2 K2 lines.
Proof.
  induction 1 as [|x ls Hx _ IH]; [reflexivity|].
  rewrite !add_keychain_lines_cons. destruct (has_dict_close x).
  - rewrite update_keychain_lines_key by reflexivity.
    rewrite update_keychain_lines_inside
      by (apply keychain_entries_inside, keychain_entries_clean; assumption).
    rewrite update_keychain_lines_end by reflexivity.
    rewrite update_keychain_lines_copy by assumption. now rewrite IH.
  - rewrite update_keychain_lines_copy by assumption. now rewrite IH.
Qed.

Lemma edit_entitlements_then_edit (D : str) :
  edit_entitlements (edit_entitlements D b1 K1) b2 K2
  = edit_entitlements D b2 K2.
Proof.
  assert (Hkey : ~ In NL KEYCHAIN_KEY /\ KEYCHAIN_KEY <> []).
  { split; [|discriminate].
    unfold KEYCHAIN_KEY, NL. simpl. intuition discriminate. }
  destruct Hkey as [Hkey1 Hkey2].
  pose proof (split_lines_no_newline D) as Hnl.
  assert (HE : forall b K, edit_entitlements D b K
               = if includes D KEYCHAIN_KEY
                 then join_lines (update_keychain_lines b K false
                                    (split_lines D))
                 else join_lines (add_keychain_lines b K (split_lines D)))
    by reflexivity.
  destruct (includes D KEYCHAIN_KEY) eqn:Ek; rewrite !HE.
  - destruct (includes_split_inv D Hkey1 Hkey2 Ek) as (l & Hin & Hl).
    destruct (@update_keychain_lines_keeps_key b1 K1 false _ _ Hin Hl)
      as (l' & Hin' & Hl').
    unfold edit_entitlements.
    rewrite (includes_join _ _ _ Hin' Hl').
    rewrite split_join.
    + now rewrite update_after_update.
    + intros E. rewrite E in Hin'. contradiction.
    + apply update_keychain_lines_no_newline; [|assumption].
      now apply keychain_entries_clean.
  - assert (Hnk : Forall (fun l => has_key l = false) (split_lines D))
      by now apply includes_split.
    destruct (add_keychain_lines_cases b1 K1 (split_lines D)) as [E|Hin].
    + rewrite E, join_split. unfold edit_entitlements. now rewrite Ek.
    + unfold edit_entitlements.
      rewrite (@includes_join _ KEY_LINE KEYCHAIN_KEY Hin) by reflexivity.
      rewrite split_join.
      * now rewrite update_after_add_other.
      * intros E. rewrite E in Hin. contradiction.
      * apply add_keychain_lines_no_newline; [|assumption].
        now apply keychain_entries_clean.
Qed.

End KeychainsLastWins.

(** X12.  Editing an entitlements text for one bundle ID and keychain list
    and then for another gives the text that editing the original for the
    second alone gives, provided the first bundle ID and keychains contain
    no [<] and no line break: nothing of the first edit survives. *)
Theorem last_entitlements_edit_wins (D b1 b2 : str) (K1 K2 : list str) :
  clean_entry b1 -> Forall clean_entry K1 ->
  edit_entitlements (edit_entitlements D b1 K1) b2 K2
  = edit_entitlements D b2 K2.
Proof.
  intros Hb HK. now apply edit_entitlements_then_edit.
Qed.

Lemma last_entitlements_edit_wins_witness :
  edit_entitlements
    (edit_entitlements Examples.entitlements_plain Examples.bundle
       [Examples.com_a])
    Examples.com_b []
  = edit_entitlements Examples.entitlements_plain Examples.com_b [].
Proof.
  apply last_entitlements_edit_wins.
  - unfold clean_entry, Examples.bundle, LT, NL. simpl. intuition discriminate.
  - repeat constructor; unfold Examples.com_a, LT, NL; simpl;
      intuition discriminate.
Defined.

(** ** A created entitlements file, then updated *)

(** X13.  Where the path can be written, creating an entitlements file and
    then updating it, as [setupKeychainsIos] does when it finds none,
    returns [true] at both steps and leaves the template with the key, the
    array, the bundle ID string and the keychain strings inserted between
    the [aps-environment] entry and [</dict>]; no other file changes, and
    the calls made are one write, one read and one write of that path.
    Where the path cannot be written, [createEntitlementsFile] returns
    [false] and every file is as it was. *)
Theorem created_file_then_updated (writable : str -> bool)
    (filePath b : str) (K : list str) (w : world) :
  (writable filePath = true ->
   let (r1, w1) := createEntitlementsFile writable filePath w in
   let (r2, w2) := updateEntitlementsFile writable filePath b K w1 in
   let entry := fun id =>
     TAB :: TAB :: lit "<string>$(AppIdentifierPrefix)" ++ id
       ++ lit "</string>" in
   let final :=
     join_lines
       (firstn 6 ENTITLEMENTS_TEMPLATE_LINES
          ++ (TAB :: lit "<key>keychain-access-groups</key>")
          :: (TAB :: lit "<array>") :: entry b :: map entry K
          ++ (TAB :: lit "</array>")
          :: skipn 6 ENTITLEMENTS_TEMPLATE_LINES) in
   r1 = true /\ r2 = true /\
   files w2 filePath = Some final /\
   (forall q, q <> filePath -> files w2 q = files w q) /\
   events w2
   = events w ++ [WriteFileSync filePath ENTITLEMENTS_TEMPLATE;
                  ReadFileSync filePath;
                  WriteFileSync filePath final]) /\
  (writable filePath = false ->
   fst (createEntitlementsFile writable filePath w) = false /\
   forall q,
     files (snd (createEntitlementsFile writable filePath w)) q
     = files w q).
Proof.
  split; intros Hw.
  - unfold createEntitlementsFile, updateEntitlementsFile, bind,
      tryWriteFileSync, writeFileSync, readFileSync, ret, record.
    rewrite Hw. cbn [fst snd files events].
    rewrite str_eqb_refl. cbn [files events].
    change (TAB :: lit "<key>keychain-access-groups</key>") with KEY_LINE.
    change (TAB :: lit "<array>") with ARRAY_LINE.
    change (TAB :: lit "</array>") with ARRAY_CLOSE_LINE.
    change (fun id => TAB :: TAB :: lit "<string>$(AppIdentifierPrefix)"
                        ++ id ++ lit "</string>") with keychain_string.
    assert (E : edit_entitlements ENTITLEMENTS_TEMPLATE b K
                = join_lines
                    (firstn 6 ENTITLEMENTS_TEMPLATE_LINES
                       ++ KEY_LINE :: ARRAY_LINE :: keychain_string b
                       :: map keychain_string K
                       ++ ARRAY_CLOSE_LINE
                       :: skipn 6 ENTITLEMENTS_TEMPLATE_LINES))
      by reflexivity.
    rewrite E. repeat split.
    + now rewrite str_eqb_refl.
    + intros q Hq. destruct (str_eqb q filePath) eqn:Eq; [|reflexivity].
      apply str_eqb_eq in Eq. contradiction.
    + now rewrite <- !app_assoc.
  - unfold createEntitlementsFile, bind, tryWriteFileSync, ret, record.
    rewrite Hw. split; reflexivity.
Qed.

Lemma created_file_then_updated_witness :
  let (r1, w1) :=
    createEntitlementsFile (fun _ => true) Examples.entitlements_path
      (Examples.world_with Examples.config_path []) in
  let (r2, w2) :=
    updateEntitlementsFile (fun _ => true) Examples.entitlements_path
      Examples.bundle [Examples.com_a] w1 in
  let entry := fun id =>
    TAB :: TAB :: lit "<string>$(AppIdentifierPrefix)" ++ id
      ++ lit "</string>" in
  let final :=
    join_lines
      (firstn 6 ENTITLEMENTS_TEMPLATE_LINES
         ++ (TAB :: lit "<key>keychain-access-groups</key>")
         :: (TAB :: lit "<array>") :: entry Examples.bundle
         :: map entry [Examples.com_a]
         ++ (TAB :: lit "</array>")
         :: skipn 6 ENTITLEMENTS_TEMPLATE_LINES) in
  r1 = true /\ r2 = true /\
  files w2 Examples.entitlements_path = Some final /\
  (forall q, q <> Examples.entitlements_path ->
     files w2 q = files (Examples.world_with Examples.config_path []) q) /\
  events w2
  = events (Examples.world_with Examples.config_path [])
      ++ [WriteFileSync Examples.entitlements_path ENTITLEMENTS_TEMPLATE;
          ReadFileSync Examples.entitlements_path;
          WriteFileSync Examples.entitlements_path final].
Proof.
  exact (proj1 (created_file_then_updated (fun _ => true)
                  Examples.entitlements_path Examples.bundle
                  [Examples.com_a]
                  (Examples.world_with Examples.config_path []))
           eq_refl).
Defined.

(** ** The results of [updateEntitlementsFile] *)

(** X14.  [updateEntitlementsFile] returns [false] exactly when the file
    cannot be read or the edited text cannot be written.  A file that
    cannot be read is only read; a failed write leaves every file as it
    was.  On a file that holds neither the key nor a [</dict>] and can be
    written, the call still returns [true], after writing the text back
    unchanged: no group was added. *)
Theorem update_reports_success_without_anchor (writable : str -> bool)
    (filePath b : str) (K : list str) (w : world) :
  let run := updateEntitlementsFile writable filePath b K w in
  (fst run = false
   <-> files w filePath = None \/ writable filePath = false) /\
  (files w filePath = None ->
   snd run = World (files w) (events w ++ [ReadFileSync filePath])) /\
  (writable filePath = false -> forall q, files (snd run) q = files w q) /\
  (forall D, files w filePath = Some D -> writable filePath = true ->
     has_key D = false -> has_dict_close D = false ->
     fst run = true /\
     (forall q, files (snd run) q = files w q) /\
     events (snd run)
     = events w ++ [ReadFileSync filePath; WriteFileSync filePath D]).
Proof.
  intros run. unfold run, updateEntitlementsFile, bind, readFileSync,
    tryWriteFileSync, writeFileSync, ret, record.
  destruct (files w filePath) as [D|] eqn:E; cbn [fst snd files events].
  - destruct (writable filePath) eqn:Hw; cbn [fst snd files events].
    + split; [split; [discriminate|intros [H|H]; discriminate]|].
      split; [discriminate|]. split; [discriminate|].
      intros D0 HD _ Hk Hd. injection HD as <-.
      rewrite edit_entitlements_no_anchor by assumption.
      split; [reflexivity|]. split.
      * intros q. destruct (str_eqb q filePath) eqn:Eq; [|reflexivity].
        apply str_eqb_eq in Eq. now rewrite Eq, E.
      * now rewrite <- app_assoc.
    + split; [split; [now right|reflexivity]|].
      split; [discriminate|]. split; [reflexivity|]. discriminate.
  - split; [split; [now left|reflexivity]|].
    split; [reflexivity|]. split; [reflexivity|]. discriminate.
Qed.

Lemma update_reports_success_without_anchor_witness :
  fst (updateEntitlementsFile (fun _ => true) Examples.entitlements_path
         Examples.bundle [Examples.com_a]
         (Examples.world_with Examples.entitlements_path (lit "<plist/>")))
  = true /\
  (forall q,
     files (snd (updateEntitlementsFile (fun _ => true)
                   Examples.entitlements_path
                   Examples.bundle [Examples.com_a]
                   (Examples.world_with Examples.entitlements_path
                      (lit "<plist/>")))) q
     = files (Examples.world_with Examples.entitlements_path
                (lit "<plist/>")) q) /\
  events (snd (updateEntitlementsFile (fun _ => true)
                 Examples.entitlements_path
                 Examples.bundle [Examples.com_a]
                 (Examples.world_with Examples.entitlements_path
                    (lit "<plist/>"))))
  = events (Examples.world_with Examples.entitlements_path (lit "<plist/>"))
      ++ [ReadFileSync Examples.entitlements_path;
          WriteFileSync Examples.entitlements_path (lit "<plist/>")].
Proof.
  apply (proj2 (proj2 (proj2 (update_reports_success_without_anchor
                                (fun _ => true)
                                Examples.entitlements_path Examples.bundle
                                [Examples.com_a]
                                (Examples.world_with
                                   Examples.entitlements_path
                                   (lit "<plist/>")))))
           (lit "<plist/>")); reflexivity.
Defined.

(** ** Detecting the iOS project directory *)

Section ProjectDir.

Variable path_join : str -> str -> str.
Variable readdirSync : listing.
Variable iosDir : str.

Lemma first_project_dir_some (dirs : list str) (d : str) :
  first_project_dir path_join readdirSync iosDir dirs = Some d ->
  In d dirs /\ holds_project path_join readdirSync iosDir d.
Proof.
  induction dirs as [|x ds IH]; [discriminate|]. simpl.
  destruct (readdirSync (path_join iosDir x)) as [subs|] eqn:E.
  - destruct (has_xcodeproj (map name subs)) eqn:Hx.
    + intros H. injection H as <-. split; [now left|].
      exists subs. now split.
    + intros H. destruct (IH H). split; [now right|assumption].
  - intros H. destruct (IH H). split; [now right|assumption].
Qed.

Lemma first_project_dir_none (dirs : list str) :
  first_project_dir path_join readdirSync iosDir dirs = None <->
  forall d, In d dirs -> ~ holds_project path_join readdirSync iosDir d.
Proof.
  induction dirs as [|x ds IH]; simpl.
  - split; [intros _ d []|reflexivity].
  - destruct (readdirSync (path_join iosDir x)) as [subs|] eqn:E.
    + destruct (has_xcodeproj (map name subs)) eqn:Hx.
      * split; [discriminate|]. intros H. exfalso.
        apply (H x); [now left|]. exists subs. now split.
      * rewrite IH. split.
        -- intros H d [<-|Hd]; [|now apply H].
           intros (s' & E' & Hs'). congruence.
        -- intros H d Hd. apply H. now right.
    + rewrite IH. split.
      * intros H d [<-|Hd]; [|now apply H].
        intros (s' & E' & _). congruence.
      * intros H d Hd. apply H. now right.
Qed.

Lemma first_xcodeproj_entry_some (entries : list dirent) (d : str) :
  first_xcodeproj_entry entries = Some d ->
  exists pre e post,
    entries = pre ++ e :: post /\
    Forall (fun x => isDirectory x && endsWith (name x) XCODEPROJ = false)
           pre /\
    isDirectory e = true /\ endsWith (name e) XCODEPROJ = true /\
    d = replace_first (name e) XCODEPROJ [].
Proof.
  induction entries as [|x es IH]; [discriminate|]. simpl.
  destruct (isDirectory x && endsWith (name x) XCODEPROJ) eqn:E.
  - intros H. injection H as <-. apply andb_prop in E. destruct E.
    exists [], x, es. repeat split; auto.
  - intros H. destruct (IH H) as (pre & e & post & -> & Hp & H1 & H2 & H3).
    exists (x :: pre), e, post. repeat split; auto.
Qed.

Lemma first_xcodeproj_entry_none (entries : list dirent) :
  first_xcodeproj_entry entries = None <->
  forall e, In e entries ->
    isDirectory e && endsWith (name e) XCODEPROJ = false.
Proof.
  induction entries as [|x es IH]; simpl.
  - split; [intros _ e []|reflexivity].
  - destruct (isDirectory x && endsWith (name x) XCODEPROJ) eqn:E.
    + split; [discriminate|]. intros H. specialize (H x (or_introl eq_refl)).
      congruence.
    + rewrite IH. split.
      * intros H e [<-|He]; [assumption|now apply H].
      * intros H e He. apply H. now right.
Qed.

(** The names the first loop tries are those of the directory entries
    that pass both filters. *)
Lemma project_dirs_spec (entries : list dirent) (d : str) :
  In d (map name (filter not_excluded (filter is_candidate entries))) <->
  exists e, In e entries /\ name e = d /\ isDirectory e = true /\
            d <> PODS /\ startsWith d DOT = false /\ ~ In d EXCLUDED.
Proof.
  rewrite in_map_iff. split.
  - intros (e & <- & He). apply filter_In in He. destruct He as [He Hx].
    apply filter_In in He. destruct He as [He Hc].
    exists e. split; [assumption|]. split; [reflexivity|].
    unfold is_candidate in Hc. apply andb_prop in Hc. destruct Hc as [Hc Hd].
    apply andb_prop in Hc. destruct Hc as [Hi Hp].
    split; [assumption|]. split.
    + intros E. rewrite E, str_eqb_refl in Hp. discriminate.
    + split; [now destruct (startsWith (name e) DOT)|].
      unfold not_excluded in Hx. intros Hin.
      assert (Hex : existsb (str_eqb (name e)) EXCLUDED = true).
      { apply existsb_exists. exists (name e). split; [assumption|].
        apply str_eqb_refl. }
      rewrite Hex in Hx. discriminate.
  - intros (e & He & <- & Hi & Hp & Hd & Hx). exists e. split; [reflexivity|].
    apply filter_In. split.
    + apply filter_In. split; [assumption|]. unfold is_candidate.
      rewrite Hi, Hd. simpl. destruct (str_eqb (name e) PODS) eqn:E;
        [|reflexivity]. apply str_eqb_eq in E. contradiction.
    + unfold not_excluded.
      destruct (existsb (str_eqb (name e)) EXCLUDED) eqn:E; [|reflexivity].
      apply existsb_exists in E. destruct E as (x & Hin & Hxe).
      apply str_eqb_eq in Hxe. subst x. contradiction.
Qed.

End ProjectDir.

(** X15.  A name returned by [findIosProjectDir] comes from the listing of
    [iosDir] in one of two ways.  Either it names a directory entry that is
    not [Pods], [build], [Frameworks] or [node_modules], does not start
    with a dot, and lists a name ending in [.xcodeproj]; or no such
    directory exists and the name is that of the first directory entry
    ending in [.xcodeproj], with the first [.xcodeproj] in it removed. *)
Theorem detected_project_dir (path_join : str -> str -> str)
    (readdirSync : listing) (iosDir d : str) :
  findIosProjectDir path_join readdirSync iosDir = Some d ->
  exists entries,
    readdirSync iosDir = Some entries /\
    ((exists e, In e entries /\ name e = d /\ isDirectory e = true /\
                d <> PODS /\ startsWith d DOT = false /\
                ~ In d EXCLUDED) /\
     holds_project path_join readdirSync iosDir d
     \/
     (forall e, In e entries -> isDirectory e = true ->
        name e <> PODS -> startsWith (name e) DOT = false ->
        ~ In (name e) EXCLUDED ->
        ~ holds_project path_join readdirSync iosDir (name e)) /\
     exists pre e post,
       entries = pre ++ e :: post /\
       Forall (fun x => isDirectory x && endsWith (name x) XCODEPROJ = false)
              pre /\
       isDirectory e = true /\ endsWith (name e) XCODEPROJ = true /\
       d = replace_first (name e) XCODEPROJ []).
Proof.
  unfold findIosProjectDir.
  destruct (readdirSync iosDir) as [entries|]; [|discriminate].
  intros H. exists entries. split; [reflexivity|].
  destruct (first_project_dir path_join readdirSync iosDir
              (map name (filter not_excluded (filter is_candidate entries))))
    as [dir|] eqn:E.
  - injection H as <-. left.
    destruct (first_project_dir_some _ _ _ _ E) as [Hin Hh].
    split; [|assumption]. now apply project_dirs_spec.
  - right. split; [|now apply first_xcodeproj_entry_some].
    intros e He Hi Hp Hd Hx.
    apply (proj1 (first_project_dir_none _ _ _ _) E).
    apply project_dirs_spec. exists e. repeat split; assumption.
Qed.

Lemma detected_project_dir_witness :
  exists entries,
    MoreExamples.ios_listing MoreExamples.ios_dir = Some entries /\
    ((exists e, In e entries /\ name e = lit "MyApp" /\
                isDirectory e = true /\
                lit "MyApp" <> PODS /\ startsWith (lit "MyApp") DOT = false /\
                ~ In (lit "MyApp") EXCLUDED) /\
     holds_project MoreExamples.slash_join MoreExamples.ios_listing
       MoreExamples.ios_dir (lit "MyApp")
     \/
     (forall e, In e entries -> isDirectory e = true ->
        name e <> PODS -> startsWith (name e) DOT = false ->
        ~ In (name e) EXCLUDED ->
        ~ holds_project MoreExamples.slash_join MoreExamples.ios_listing
            MoreExamples.ios_dir (name e)) /\
     exists pre e post,
       entries = pre ++ e :: post /\
       Forall (fun x => isDirectory x && endsWith (name x) XCODEPROJ = false)
              pre /\
       isDirectory e = true /\ endsWith (name e) XCODEPROJ = true /\
       lit "MyApp" = replace_first (name e) XCODEPROJ []).
Proof.
  apply (@detected_project_dir MoreExamples.slash_join
           MoreExamples.ios_listing MoreExamples.ios_dir (lit "MyApp")).
  reflexivity.
Defined.

(** X16.  [findIosProjectDir] returns [null] exactly when [iosDir] cannot
    be listed, or when none of the eligible directories lists a name
    ending in [.xcodeproj] and no directory entry of [iosDir] itself has
    such a name.  A directory that cannot be listed counts as one without
    a project. *)
Theorem no_project_dir_iff (path_join : str -> str -> str)
    (readdirSync : listing) (iosDir : str) :
  findIosProjectDir path_join readdirSync iosDir = None <->
  readdirSync iosDir = None \/
  exists entries,
    readdirSync iosDir = Some entries /\
    (forall e, In e entries -> isDirectory e = true ->
       name e <> PODS -> startsWith (name e) DOT = false ->
       ~ In (name e) EXCLUDED ->
       ~ holds_project path_join readdirSync iosDir (name e)) /\
    (forall e, In e entries -> isDirectory e = true ->
       endsWith (name e) XCODEPROJ = false).
Proof.
  unfold findIosProjectDir.
  destruct (readdirSync iosDir) as [entries|].
  - destruct (first_project_dir path_join readdirSync iosDir
                (map name (filter not_excluded
                             (filter is_candidate entries))))
      as [dir|] eqn:E.
    + split; [discriminate|]. intros [H|(es & Hes & Hno & _)];
        [discriminate|]. injection Hes as <-. exfalso.
      destruct (first_project_dir_some _ _ _ _ E) as [Hin Hh].
      apply project_dirs_spec in Hin.
      destruct Hin as (e & He & <- & Hi & Hp & Hd & Hx).
      exact (Hno e He Hi Hp Hd Hx Hh).
    + rewrite first_xcodeproj_entry_none. split.
      * intros H. right. exists entries. split; [reflexivity|]. split.
        -- intros e He Hi Hp Hd Hx.
           apply (proj1 (first_project_dir_none _ _ _ _) E).
           apply project_dirs_spec. exists e. repeat split; assumption.
        -- intros e He Hi. specialize (H e He). now rewrite Hi in H.
      * intros [H|(es & Hes & _ & Hno)]; [discriminate|].
        injection Hes as <-. intros e He.
        destruct (isDirectory e) eqn:Hi; [|reflexivity]. now apply Hno.
  - split; [now left|reflexivity].
Qed.

Lemma no_project_dir_iff_witness :
  findIosProjectDir MoreExamples.slash_join MoreExamples.ios_listing
    (lit "android") = None.
Proof.
  apply (proj2 (no_project_dir_iff MoreExamples.slash_join
                  MoreExamples.ios_listing (lit "android"))).
  left. reflexivity.
Defined.

(** ** Searching a project directory for entitlements files *)

Lemma node_forall_ind (P : node -> Prop) :
  (forall n, P (File n)) ->
  (forall n children, Forall P children -> P (Dir n children)) ->
  (forall n, P (Unreadable n)) ->
  forall entry, P entry.
Proof.
  intros Hf Hd Hu.
  exact (fix go (entry : node) : P entry :=
           match entry with
           | File n => Hf n
           | Dir n children =>
               Hd n children
                 ((fix all (l : list node) : Forall P l :=
                     match l with
                     | [] => Forall_nil P
                     | x :: l' => Forall_cons x (go x) (all l')
                     end) children)
           | Unreadable n => Hu n
           end).
Qed.

Section EntitlementsSearch.

Variable path_join : str -> str -> str.

Lemma scan_entry_Dir (dir n : str) (children : list node) :
  scan_entry path_join dir (Dir n children)
  = scanDir path_join (path_join dir n) children.
Proof.
  induction children as [|e es IH]; [reflexivity|].
  cbn [scanDir]. rewrite <- IH. reflexivity.
Qed.

Lemma scanDir_cons (dir : str) (e : node) (rest : list node) :
  scanDir path_join dir (e :: rest)
  = match scan_entry path_join dir e with
    | None => None
    | Some found =>
        match scanDir path_join dir rest with
        | None => None
        | Some more => Some (found ++ more)
        end
    end.
Proof. reflexivity. Qed.

Lemma below_nil (dir p : str) : ~ entitlements_below path_join dir [] p.
Proof. intros H. inversion H; contradiction. Qed.

Lemma below_cons (dir p : str) (e : node) (es : list node) :
  entitlements_below path_join dir (e :: es) p
  <-> entitlements_below path_join dir [e] p
      \/ entitlements_below path_join dir es p.
Proof.
  split.
  - intros H. inversion H as [d es' n Hin He|d es' n ch q Hin Hq]; subst.
    + destruct Hin as [E|Hin]; [subst e|].
      * left. apply below_here; [now left|assumption].
      * right. now apply below_here.
    + destruct Hin as [E|Hin]; [subst e|].
      * left. eapply below_deeper; [now left|eassumption].
      * right. eapply below_deeper; eassumption.
  - intros [H|H].
    + inversion H as [d es' n Hin He|d es' n ch q Hin Hq]; subst.
      * destruct Hin as [E|[]]. subst e.
        apply below_here; [now left|assumption].
      * destruct Hin as [E|[]]. subst e.
        eapply below_deeper; [now left|eassumption].
    + inversion H as [d es' n Hin He|d es' n ch q Hin Hq]; subst.
      * apply below_here; [now right|assumption].
      * eapply below_deeper; [right; eassumption|eassumption].
Qed.

Lemma below_file (dir p n : str) :
  entitlements_below path_join dir [File n] p
  <-> endsWith n ENTITLEMENTS = true /\ p = path_join dir n.
Proof.
  split.
  - intros H. inversion H as [d es' m Hin He|d es' m ch q Hin Hq]; subst.
    + destruct Hin as [E|[]]. injection E as <-. now split.
    + destruct Hin as [E|[]]. discriminate.
  - intros [He ->]. apply below_here; [now left|assumption].
Qed.

Lemma below_dir (dir p n : str) (children : list node) :
  entitlements_below path_join dir [Dir n children] p
  <-> entitlements_below path_join (path_join dir n) children p.
Proof.
  split.
  - intros H. inversion H as [d es' m Hin He|d es' m ch q Hin Hq]; subst.
    + destruct Hin as [E|[]]. discriminate.
    + destruct Hin as [E|[]]. injection E as <- <-. assumption.
  - intros H. eapply below_deeper; [now left|eassumption].
Qed.

Lemma below_unreadable (dir p n : str) :
  ~ entitlements_below path_join dir [Unreadable n] p.
Proof.
  intros H. inversion H as [d es' m Hin He|d es' m ch q Hin Hq]; subst;
    destruct Hin as [E|[]]; discriminate.
Qed.

Lemma scanDir_spec (entries : list node) :
  Forall (scan_spec path_join) entries ->
  forall dir,
    (scanDir path_join dir entries = None
     <-> forallb readable entries = false) /\
    (forall found, scanDir path_join dir entries = Some found ->
       forall p, In p found <-> entitlements_below path_join dir entries p).
Proof.
  induction 1 as [|e es He _ IH]; intros dir.
  - split; [split; discriminate|].
    intros found H. injection H as <-. intros p. split; [intros []|].
    apply below_nil.
  - rewrite scanDir_cons. cbn [forallb].
    destruct (He dir) as [Hn Hs]. destruct (IH dir) as [IHn IHs].
    destruct (scan_entry path_join dir e) as [f1|].
    + assert (Hr : readable e = true).
      { destruct (readable e); [reflexivity|].
        destruct Hn as [_ Hn]. discriminate (Hn eq_refl). }
      rewrite Hr. cbn [andb].
      destruct (scanDir path_join dir es) as [f2|].
      * split.
        -- split; [discriminate|]. intros E. apply IHn in E. discriminate.
        -- intros found H. injection H as <-. intros p.
           rewrite in_app_iff, below_cons, (Hs f1 eq_refl p),
             (IHs f2 eq_refl p). reflexivity.
      * split; [|discriminate]. split; [|reflexivity].
        intros _. now apply IHn.
    + assert (Hr : readable e = false) by now apply Hn.
      rewrite Hr. split; [split; reflexivity|discriminate].
Qed.

Lemma scan_entry_spec (entry : node) : scan_spec path_join entry.
Proof.
  induction entry as [n|n children IH|n] using node_forall_ind; intros dir.
  - cbn [scan_entry readable].
    destruct (endsWith n ENTITLEMENTS) eqn:E.
    + split; [split; discriminate|]. intros found H. injection H as <-.
      intros p. rewrite below_file. split.
      * intros [<-|[]]. now split.
      * intros [_ ->]. now left.
    + split; [split; discriminate|]. intros found H. injection H as <-.
      intros p. rewrite below_file. split; [intros []|].
      intros [H _]. congruence.
  - rewrite scan_entry_Dir. cbn [readable].
    destruct (scanDir_spec IH (path_join dir n)) as [Hn Hs].
    split; [assumption|]. intros found H p. rewrite below_dir. now apply Hs.
  - split; [split; reflexivity|discriminate].
Qed.

Lemma scanDir_correct (dir : str) (entries : list node) :
  (scanDir path_join dir entries = None <-> forallb readable entries = false) /\
  (forall found, scanDir path_join dir entries = Some found ->
     forall p, In p found <-> entitlements_below path_join dir entries p).
Proof.
  apply scanDir_spec. apply Forall_forall. intros e _.
  apply scan_entry_spec.
Qed.

End EntitlementsSearch.

(** X17.  When every directory below the project directory can be
    listed, [findEntitlementsFiles] returns exactly the paths of the
    entries that are not directories and have a name ending in
    [.entitlements], at any depth; a directory with such a name is
    searched, not returned. *)
Theorem entitlements_files_found (path_join : str -> str -> str)
    (projectDir : str) (entries : list node) (p : str) :
  forallb readable entries = true ->
  (In p (findEntitlementsFiles path_join projectDir (Some entries)) <->
   entitlements_below path_join projectDir entries p).
Proof.
  intros Hr. unfold findEntitlementsFiles.
  destruct (scanDir_correct path_join projectDir entries) as [Hn Hs].
  destruct (scanDir path_join projectDir entries) as [found|].
  - now apply Hs.
  - destruct Hn as [Hn _]. rewrite (Hn eq_refl) in Hr. discriminate.
Qed.

Lemma entitlements_files_found_witness :
  In (lit "ios/MyApp/Support/MyApp.entitlements")
     (findEntitlementsFiles MoreExamples.slash_join (lit "ios/MyApp")
        (Some MoreExamples.project_entries)) <->
  entitlements_below MoreExamples.slash_join (lit "ios/MyApp")
    MoreExamples.project_entries
    (lit "ios/MyApp/Support/MyApp.entitlements").
Proof.
  apply (@entitlements_files_found MoreExamples.slash_join (lit "ios/MyApp")
           MoreExamples.project_entries
           (lit "ios/MyApp/Support/MyApp.entitlements")).
  reflexivity.
Defined.

(** X18.  One directory that cannot be listed, at any depth below the
    project directory, makes [findEntitlementsFiles] return the empty
    list, whatever entitlements files lie elsewhere; so does a project
    directory that cannot be listed itself. *)
Theorem unreadable_directory_hides_files (path_join : str -> str -> str)
    (projectDir : str) (entries : list node) :
  findEntitlementsFiles path_join projectDir None = [] /\
  (forallb readable entries = false ->
   findEntitlementsFiles path_join projectDir (Some entries) = []).
Proof.
  split; [reflexivity|]. intros Hr. unfold findEntitlementsFiles.
  destruct (scanDir_correct path_join projectDir entries) as [Hn _].
  destruct Hn as [_ Hn]. now rewrite (Hn Hr).
Qed.

Lemma unreadable_directory_hides_files_witness :
  forallb readable MoreExamples.project_entries_locked = false /\
  findEntitlementsFiles MoreExamples.slash_join (lit "ios/MyApp")
    (Some MoreExamples.project_entries_locked) = [].
Proof.
  split; [reflexivity|].
  apply (proj2 (@unreadable_directory_hides_files MoreExamples.slash_join
                  (lit "ios/MyApp") MoreExamples.project_entries_locked)).
  reflexivity.
Defined.

(** ** The command line of the preparation script *)

Module PrepareArgsFacts.
Import PrepareArgs.

Lemma parse_from_cons (arg : str) (rest : list str) (a : args) :
  parse_from (arg :: rest) a
  = match str_eqb arg OPT_FILE, rest with
    | true, value :: after =>
        parse_from after
          (Args value (appIcon a) (logoIcon a) (autoVersionCode a) (help a))
    | _, _ =>
    match str_eqb arg OPT_APP_ICON, rest with
    | true, value :: after =>
        parse_from after
          (Args (configFile a) (Some value) (logoIcon a)
             (autoVersionCode a) (help a))
    | _, _ =>
    match str_eqb arg OPT_LOGO, rest with
    | true, value :: after =>
        parse_from after
          (Args (configFile a) (appIcon a) (Some value)
             (autoVersionCode a) (help a))
    | _, _ =>
    match str_eqb arg OPT_AUTO, rest with
    | true, value :: after =>
        parse_from after
          (Args (configFile a) (appIcon a) (logoIcon a)
             (auto_value value) (help a))
    | _, _ =>
        if str_eqb arg OPT_AUTO then
          parse_from rest
            (Args (configFile a) (appIcon a) (logoIcon a) true (help a))
        else if str_eqb arg OPT_HELP then
          parse_from rest
            (Args (configFile a) (appIcon a) (logoIcon a)
               (autoVersionCode a) true)
        else Exits 1%N
    end end end end.
Proof. reflexivity. Qed.

Lemma takes_value_cases (opt : str) :
  takes_value opt = true ->
  opt = OPT_FILE \/ opt = OPT_APP_ICON \/ opt = OPT_LOGO \/ opt = OPT_AUTO.
Proof.
  unfold takes_value. intros H.
  apply orb_prop in H. destruct H as [H|H]; [|right; right; right].
  - apply orb_prop in H. destruct H as [H|H]; [|right; right; left].
    + apply orb_prop in H. destruct H as [H|H]; [left|right; left].
      * now apply str_eqb_eq.
      * now apply str_eqb_eq.
    + now apply str_eqb_eq.
  - now apply str_eqb_eq.
Qed.

Lemma takes_value_false (arg : str) :
  takes_value arg = false ->
  str_eqb arg OPT_FILE = false /\ str_eqb arg OPT_APP_ICON = false /\
  str_eqb arg OPT_LOGO = false /\ str_eqb arg OPT_AUTO = false.
Proof.
  unfold takes_value. intros H.
  apply orb_false_elim in H. destruct H as [H H4].
  apply orb_false_elim in H. destruct H as [H H3].
  apply orb_false_elim in H. destruct H as [H1 H2]. auto.
Qed.

Lemma parse_from_value (opt value : str) (after : list str) (a : args) :
  takes_value opt = true ->
  parse_from (opt :: value :: after) a
  = parse_from after (apply_value opt value a).
Proof.
  intros H. apply takes_value_cases in H.
  destruct H as [ -> | [ -> | [ -> | -> ] ] ]; reflexivity.
Qed.

Lemma parse_from_help (rest : list str) (a : args) :
  parse_from (OPT_HELP :: rest) a = parse_from rest (request_help a).
Proof. destruct rest; reflexivity. Qed.

Lemma parse_from_unknown (arg : str) (rest : list str) (a : args) :
  takes_value arg = false -> str_eqb arg OPT_HELP = false ->
  parse_from (arg :: rest) a = Exits 1%N.
Proof.
  intros H Hh. apply takes_value_false in H.
  destruct H as (H1 & H2 & H3 & H4).
  rewrite parse_from_cons, H1, H2, H3, H4, Hh. reflexivity.
Qed.

Lemma parse_from_last (opt : str) (a : args) :
  takes_value opt = true ->
  parse_from [opt] a
  = if str_eqb opt OPT_AUTO
    then Returns (Args (configFile a) (appIcon a) (logoIcon a) true (help a))
    else Exits 1%N.
Proof.
  intros H. apply takes_value_cases in H.
  destruct H as [ -> | [ -> | [ -> | -> ] ] ]; reflexivity.
Qed.

Lemma accepted_value_inv (opt value : str) (after : list str) :
  takes_value opt = true ->
  accepted (opt :: value :: after) -> accepted after.
Proof.
  intros Ht H.
  inversion H as [|rest Hr E|o v rest _ Hr E|]; subst; [|assumption].
  discriminate Ht.
Qed.

Lemma accepted_help_inv (rest : list str) :
  accepted (OPT_HELP :: rest) -> accepted rest.
Proof.
  intros H.
  inversion H as [|r Hr E|o v r Ht Hr E|]; subst; [assumption|].
  discriminate Ht.
Qed.

Lemma parse_from_accepts (n : nat) :
  forall argv a, length argv <= n ->
    (accepted argv /\ exists a', parse_from argv a = Returns a') \/
    (~ accepted argv /\ parse_from argv a = Exits 1%N).
Proof.
  induction n as [|n IH]; intros argv a Hlen.
  - destruct argv; [|simpl in Hlen; lia].
    left. split; [constructor|]. now exists a.
  - destruct argv as [|arg rest].
    { left. split; [constructor|]. now exists a. }
    destruct (takes_value arg) eqn:Ht.
    + destruct rest as [|value after].
      * rewrite parse_from_last by assumption.
        destruct (str_eqb arg OPT_AUTO) eqn:Ea.
        -- apply str_eqb_eq in Ea. subst arg. left.
           split; [constructor|]. eauto.
        -- right. split; [|reflexivity]. intros H.
           inversion H as [|r Hr E|o v r Ht' Hr E|E]; subst.
           ++ discriminate Ht.
           ++ discriminate Ea.
      * rewrite parse_from_value by assumption.
        destruct (IH after (apply_value arg value a)) as [[Hacc Hret]|[Hn He]].
        -- simpl in Hlen. lia.
        -- left. split; [now constructor|assumption].
        -- right. split; [|assumption]. intros H. apply Hn.
           now apply accepted_value_inv with arg value.
    + destruct (str_eqb arg OPT_HELP) eqn:Eh.
      * apply str_eqb_eq in Eh. subst arg. rewrite parse_from_help.
        destruct (IH rest (request_help a)) as [[Hacc Hret]|[Hn He]].
        -- simpl in Hlen. lia.
        -- left. split; [now constructor|assumption].
        -- right. split; [|assumption]. intros H. apply Hn.
           now apply accepted_help_inv.
      * right. split; [|now apply parse_from_unknown].
        intros H.
        inversion H as [|r Hr E|o v r Ht' Hr E|E]; subst.
        -- discriminate Eh.
        -- congruence.
        -- discriminate Ht.
Qed.

Lemma parse_from_complete (xs : list str) :
  complete xs ->
  forall a, exists a1,
    parse_from xs a = Returns a1 /\
    forall ys, parse_from (xs ++ ys) a = parse_from ys a1.
Proof.
  induction 1 as [|rest _ IH|opt value rest Ht _ IH]; intros a.
  - exists a. split; reflexivity.
  - destruct (IH (request_help a)) as (a1 & H1 & H2).
    exists a1. split.
    + now rewrite parse_from_help.
    + intros ys. cbn [app]. now rewrite parse_from_help.
  - destruct (IH (apply_value opt value a)) as (a1 & H1 & H2).
    exists a1. split.
    + now rewrite parse_from_value.
    + intros ys. cbn [app]. now rewrite parse_from_value.
Qed.

End PrepareArgsFacts.

(** X19.  [parseArgs] returns exactly on the argument lists made of
    [--help], of one of [--file], [--app-icon], [--logo] and
    [--autoVersionCode] followed by any one argument as its value, and of
    [--autoVersionCode] alone as the very last argument; on every other
    list it ends the process with code 1.  So [--file], [--app-icon] or
    [--logo] as the last argument is an unknown option, and an option
    written where a value is expected is taken as the value. *)
Theorem parseArgs_returns_iff (process_argv : list str) :
  ((exists a, PrepareArgs.parseArgs process_argv = PrepareArgs.Returns a)
   <-> PrepareArgs.accepted (skipn 2 process_argv)) /\
  (PrepareArgs.parseArgs process_argv = PrepareArgs.Exits 1%N
   <-> ~ PrepareArgs.accepted (skipn 2 process_argv)).
Proof.
  unfold PrepareArgs.parseArgs.
  destruct (@PrepareArgsFacts.parse_from_accepts
              (length (skipn 2 process_argv)) (skipn 2 process_argv)
              PrepareArgs.initial_args (le_n _))
    as [[Hacc (a' & Hret)]|[Hn He]].
  - split.
    + split; [intros _; assumption|intros _; eauto].
    + split; [intros E; congruence|intros Hn; contradiction].
  - split.
    + split; [intros (a' & E); congruence|intros H; contradiction].
    + split; [intros _; assumption|intros _; assumption].
Qed.

Lemma parseArgs_returns_iff_witness :
  PrepareArgs.parseArgs [lit "node"; lit "prepare.js"; PrepareArgs.OPT_FILE]
  = PrepareArgs.Exits 1%N.
Proof.
  apply (proj2 (proj2 (parseArgs_returns_iff
                         [lit "node"; lit "prepare.js";
                          PrepareArgs.OPT_FILE]))).
  cbn [skipn]. intros H.
  inversion H as [|r Hr E|o v r Ht Hr E|E]; discriminate.
Defined.

(** X20.  The loop of [parseArgs] reads its arguments from left to right
    without looking back: after a list in which every option is complete
    ([--help], or an option with its value) it continues on what follows
    from the record reached so far.  So an option with its value given
    last decides its field, whatever was given before. *)
Theorem complete_arguments_compose (xs : list str) (a : PrepareArgs.args) :
  PrepareArgs.complete xs ->
  exists a1,
    PrepareArgs.parse_from xs a = PrepareArgs.Returns a1 /\
    (forall ys,
       PrepareArgs.parse_from (xs ++ ys) a = PrepareArgs.parse_from ys a1) /\
    (forall opt value,
       PrepareArgs.takes_value opt = true ->
       PrepareArgs.parse_from (xs ++ [opt; value]) a
       = PrepareArgs.Returns (PrepareArgs.apply_value opt value a1)).
Proof.
  intros H.
  destruct (PrepareArgsFacts.parse_from_complete H a) as (a1 & H1 & H2).
  exists a1. split; [assumption|]. split; [assumption|].
  intros opt value Ht. rewrite H2.
  now rewrite PrepareArgsFacts.parse_from_value.
Qed.

Lemma complete_arguments_compose_witness :
  exists a1,
    PrepareArgs.parse_from
      [PrepareArgs.OPT_FILE; lit "a.json"; PrepareArgs.OPT_HELP]
      PrepareArgs.initial_args
    = PrepareArgs.Returns a1 /\
    (forall ys,
       PrepareArgs.parse_from
         ([PrepareArgs.OPT_FILE; lit "a.json"; PrepareArgs.OPT_HELP] ++ ys)
         PrepareArgs.initial_args
       = PrepareArgs.parse_from ys a1) /\
    (forall opt value,
       PrepareArgs.takes_value opt = true ->
       PrepareArgs.parse_from
         ([PrepareArgs.OPT_FILE; lit "a.json"; PrepareArgs.OPT_HELP]
            ++ [opt; value])
         PrepareArgs.initial_args
       = PrepareArgs.Returns (PrepareArgs.apply_value opt value a1)).
Proof.
  apply complete_arguments_compose.
  apply PrepareArgs.complete_value; [reflexivity|].
  apply PrepareArgs.complete_help. apply PrepareArgs.complete_nil.
Defined.

(** ** The Android step of the preparation script *)

Section SetupDependence.

Variable JSON_parse : str -> option json.
Variable ToString : json -> str.
Variables (configFile : str) (config : options).

Lemma setup_keeps_other_files (w : world) (q : str) :
  q <> KeychainsAndroid.manifestPath config ->
  files (snd (setupKeychainsAndroid JSON_parse ToString configFile config w))
        q
  = files w q.
Proof.
  intros Hq.
  destruct (setup_cases JSON_parse ToString configFile config w)
    as (cfgevs & _ & _ & Hrun).
  destruct (fst (load_packages JSON_parse ToString configFile config w))
    as [|p ps]; [now rewrite Hrun|].
  destruct (files w (KeychainsAndroid.manifestPath config)) as [D|];
    [|now rewrite Hrun].
  destruct (edit_manifest D (p :: ps)); rewrite Hrun; [|reflexivity].
  cbn [snd files].
  destruct (str_eqb q (KeychainsAndroid.manifestPath config)) eqn:E;
    [|reflexivity].
  apply str_eqb_eq in E. contradiction.
Qed.

Lemma setup_depends_on_two_files (w1 w2 : world) :
  files w1 configFile = files w2 configFile ->
  files w1 (KeychainsAndroid.manifestPath config)
  = files w2 (KeychainsAndroid.manifestPath config) ->
  fst (setupKeychainsAndroid JSON_parse ToString configFile config w1)
  = fst (setupKeychainsAndroid JSON_parse ToString configFile config w2) /\
  files (snd (setupKeychainsAndroid JSON_parse ToString configFile config w1))
        (KeychainsAndroid.manifestPath config)
  = files (snd (setupKeychainsAndroid JSON_parse ToString configFile config
                  w2))
          (KeychainsAndroid.manifestPath config).
Proof.
  intros Hc Hm.
  destruct (setup_cases JSON_parse ToString configFile config w1)
    as (ev1 & _ & _ & H1).
  destruct (setup_cases JSON_parse ToString configFile config w2)
    as (ev2 & _ & _ & H2).
  rewrite !load_packages_value in H1, H2. rewrite <- Hc, <- Hm in H2.
  destruct (match packages config with
            | [] =>
                match files w1 configFile with
                | Some content =>
                    match JSON_parse content with
                    | Some (JObject members) =>
                        match assoc KEYCHAINS_KEY members with
                        | Some (JArray items) => map ToString items
                        | _ => []
                        end
                    | _ => []
                    end
                | None => []
                end
            | _ :: _ => packages config
            end) as [|p ps].
  - rewrite H1, H2. split; [reflexivity|]. cbn [snd files]. exact Hm.
  - destruct (files w1 (KeychainsAndroid.manifestPath config)) as [D|] eqn:E.
    + destruct (edit_manifest D (p :: ps)); rewrite H1, H2;
        (split; [reflexivity|]); cbn [snd files].
      * now rewrite str_eqb_refl.
      * now rewrite <- Hm.
    + rewrite H1, H2. split; [reflexivity|]. cbn [snd files].
      now rewrite <- Hm.
Qed.

End SetupDependence.

Section AndroidConfigRun.

Import PrepareAndroid.

Variable JSON_parse : str -> option json.
Variable ToString : json -> str.
Variable replace : regex -> str -> str -> str.
Variable next_version_code : str -> str.
Variable config : PrepareAndroid.config.

Lemma updateAndroidConfig_missing (w : world) :
  files w gradlePath = None \/ files w stringsPath = None \/
  files w colorsPath = None \/ files w PrepareAndroid.manifestPath = None ->
  exists evs,
    updateAndroidConfig JSON_parse ToString replace next_version_code config w
    = (Exited 1%N, World (files w) (events w ++ evs)) /\
    Forall (fun e => is_write e = false) evs.
Proof.
  intros H. unfold updateAndroidConfig, bind, existsSync, ret, record.
  cbn [files events].
  destruct (files w gradlePath) as [G|] eqn:EG; cbn [negb files events].
  2:{ exists [ExistsSync gradlePath]. split; [reflexivity|].
      repeat constructor. }
  destruct (files w stringsPath) as [S|] eqn:ES; cbn [negb files events].
  2:{ exists [ExistsSync gradlePath; ExistsSync stringsPath].
      split; [now rewrite <- app_assoc|]. repeat constructor. }
  destruct (files w colorsPath) as [C|] eqn:EC; cbn [negb files events].
  2:{ exists [ExistsSync gradlePath; ExistsSync stringsPath;
              ExistsSync colorsPath].
      split; [now rewrite <- !app_assoc|]. repeat constructor. }
  destruct (files w PrepareAndroid.manifestPath) as [M|] eqn:EM;
    cbn [negb files events].
  2:{ exists [ExistsSync gradlePath; ExistsSync stringsPath;
              ExistsSync colorsPath; ExistsSync PrepareAndroid.manifestPath].
      split; [now rewrite <- !app_assoc|]. repeat constructor. }
  destruct H as [H|[H|[H|H]]]; discriminate.
Qed.

Lemma run_then_completed (p : bool * world) :
  (let (_, w') := p in (Completed, w')) = (Completed, snd p).
Proof. now destruct p. Qed.

Ltac finish_run :=
  eexists; split; [apply run_then_completed|]; cbn [files];
  change (str_eqb gradlePath gradlePath) with true;
  change (str_eqb gradlePath colorsNightPath) with false;
  change (str_eqb gradlePath colorsPath) with false;
  change (str_eqb gradlePath stringsPath) with false;
  change (str_eqb stringsPath gradlePath) with false;
  change (str_eqb stringsPath colorsNightPath) with false;
  change (str_eqb stringsPath colorsPath) with false;
  change (str_eqb stringsPath stringsPath) with true;
  change (str_eqb colorsPath gradlePath) with false;
  change (str_eqb colorsPath colorsNightPath) with false;
  change (str_eqb colorsPath colorsPath) with true;
  cbn iota;
  (split; [assumption || reflexivity|]);
  (split; [assumption || reflexivity|]);
  (split; [assumption || reflexivity|]);
  intros q H1 H2 H3 H4;
  repeat match goal with
         | |- context [str_eqb q ?p] =>
             let E := fresh "E" in
             destruct (str_eqb q p) eqn:E;
             [apply str_eqb_eq in E; contradiction|]
         end;
  reflexivity.

Lemma updateAndroidConfig_run (w : world) (G S C M : str) :
  files w gradlePath = Some G -> files w stringsPath = Some S ->
  files w colorsPath = Some C ->
  files w PrepareAndroid.manifestPath = Some M ->
  exists w1,
    updateAndroidConfig JSON_parse ToString replace next_version_code config w
    = (Completed,
       snd (setupKeychainsAndroid JSON_parse ToString (CONFIG_FILE config)
              defaultOptions w1)) /\
    files w1 gradlePath
    = Some (if autoVersionCode config
            then update_gradle replace next_version_code config G
            else G) /\
    files w1 stringsPath
    = Some (replace RE_APP_NAME S (app_name_text (APP_NAME config))) /\
    files w1 colorsPath = Some (update_colors replace config C) /\
    (forall q, q <> stringsPath -> q <> colorsPath -> q <> colorsNightPath ->
       q <> gradlePath -> files w1 q = files w q).
Proof.
  intros EG ES EC EM.
  unfold updateAndroidConfig, update_night_colors, bind, existsSync,
    readFileSync, writeFileSync, ret, record.
  cbn [files events]. rewrite EG. cbn [negb files events].
  rewrite ES. cbn [negb files events]. rewrite EC. cbn [negb files events].
  rewrite EM. cbn [negb files events].
  rewrite EG. cbn beta iota. cbn [files events]. rewrite ES.
  cbn beta iota. cbn [files events].
  change (str_eqb colorsPath stringsPath) with false. cbn iota.
  rewrite EC. cbn beta iota. cbn [files events].
  change (str_eqb colorsNightPath colorsPath) with false.
  change (str_eqb colorsNightPath stringsPath) with false. cbn iota.
  destruct (files w colorsNightPath) as [N|] eqn:EN; cbn [negb files events].
  - change (str_eqb colorsNightPath colorsPath) with false.
    change (str_eqb colorsNightPath stringsPath) with false. cbn iota.
    rewrite EN. cbn [negb].
    destruct (autoVersionCode config); finish_run.
  - destruct (autoVersionCode config); finish_run.
Qed.

End AndroidConfigRun.

(** X21.  [updateAndroidConfig] ends the process with code 1 exactly when
    [build.gradle], [strings.xml], [colors.xml] or the manifest is
    missing.  It then stops at the first missing one, in that order: all it
    has done is one existence check for each file up to that one, and no
    file has changed. *)
Theorem android_config_ending
    (JSON_parse : str -> option json) (ToString : json -> str)
    (replace : PrepareAndroid.regex -> str -> str -> str)
    (next_version_code : str -> str)
    (config : PrepareAndroid.config) (w : world) :
  let run :=
    PrepareAndroid.updateAndroidConfig JSON_parse ToString replace
      next_version_code config w in
  let checked :=
    [PrepareAndroid.gradlePath; PrepareAndroid.stringsPath;
     PrepareAndroid.colorsPath; PrepareAndroid.manifestPath] in
  (fst run = PrepareAndroid.Exited 1%N <->
   Exists (fun p => files w p = None) checked) /\
  (forall k,
     k < 4 ->
     files w (nth k checked []) = None ->
     Forall (fun p => files w p <> None) (firstn k checked) ->
     run = (PrepareAndroid.Exited 1%N,
            World (files w)
              (events w ++ map ExistsSync (firstn (S k) checked)))).
Proof.
  intros run checked. split.
  - assert (Hcases :
              Exists (fun p => files w p = None) checked \/
              exists G S C M,
                files w PrepareAndroid.gradlePath = Some G /\
                files w PrepareAndroid.stringsPath = Some S /\
                files w PrepareAndroid.colorsPath = Some C /\
                files w PrepareAndroid.manifestPath = Some M).
    { unfold checked.
      destruct (files w PrepareAndroid.gradlePath) as [G|] eqn:EG;
        [|left; now constructor].
      destruct (files w PrepareAndroid.stringsPath) as [S|] eqn:ES;
        [|left; now do 2 constructor].
      destruct (files w PrepareAndroid.colorsPath) as [C|] eqn:EC;
        [|left; now do 3 constructor].
      destruct (files w PrepareAndroid.manifestPath) as [M|] eqn:EM;
        [|left; now do 4 constructor].
      right. exists G, S, C, M. auto. }
    destruct Hcases as [Hm|(G & S & C & M & EG & ES & EC & EM)].
    + assert (Hm' :
                files w PrepareAndroid.gradlePath = None \/
                files w PrepareAndroid.stringsPath = None \/
                files w PrepareAndroid.colorsPath = None \/
                files w PrepareAndroid.manifestPath = None).
      { unfold checked in Hm. rewrite !Exists_cons, Exists_nil in Hm.
        tauto. }
      destruct (@updateAndroidConfig_missing JSON_parse ToString replace
                  next_version_code config w Hm') as (evs & Hrun & _).
      fold run in Hrun. rewrite Hrun. cbn [fst]. split; auto.
    + destruct (@updateAndroidConfig_run JSON_parse ToString replace
                  next_version_code config w G S C M EG ES EC EM)
        as (w1 & Hrun & _).
      fold run in Hrun. rewrite Hrun. cbn [fst].
      split; [discriminate|]. unfold checked.
      rewrite !Exists_cons, Exists_nil, EG, ES, EC, EM.
      intros [H|[H|[H|[H|[]]]]]; discriminate.
  - intros k Hk Hnone Hsome. unfold run, checked in *.
    unfold PrepareAndroid.updateAndroidConfig, bind, existsSync, ret, record.
    cbn [files events].
    destruct k as [|[|[|[|k]]]]; [| | | |lia]; cbn [nth] in Hnone;
      cbn [firstn] in Hsome;
      repeat match goal with
             | H : Forall _ (_ :: _) |- _ =>
                 let H1 := fresh "Hs" in
                 pose proof (Forall_inv H) as H1;
                 apply Forall_inv_tail in H; cbn beta in H1
             end.
    + rewrite Hnone. reflexivity.
    + destruct (files w PrepareAndroid.gradlePath); [|congruence].
      cbn [negb files events]. rewrite Hnone. cbn [negb firstn map].
      now rewrite <- app_assoc.
    + destruct (files w PrepareAndroid.gradlePath); [|congruence].
      cbn [negb files events].
      destruct (files w PrepareAndroid.stringsPath); [|congruence].
      cbn [negb files events]. rewrite Hnone. cbn [negb firstn map].
      now rewrite <- !app_assoc.
    + destruct (files w PrepareAndroid.gradlePath); [|congruence].
      cbn [negb files events].
      destruct (files w PrepareAndroid.stringsPath); [|congruence].
      cbn [negb files events].
      destruct (files w PrepareAndroid.colorsPath); [|congruence].
      cbn [negb files events]. rewrite Hnone. cbn [negb firstn map].
      now rewrite <- !app_assoc.
Qed.

Lemma android_config_ending_witness :
  PrepareAndroid.updateAndroidConfig MoreExamples.config_json
    MoreExamples.string_of_json MoreExamples.replace_all
    MoreExamples.next_code MoreExamples.android_config
    (World (fun q => if str_eqb q PrepareAndroid.gradlePath
                     then Some (lit "versionCode 1") else None) [])
  = (PrepareAndroid.Exited 1%N,
     World (fun q => if str_eqb q PrepareAndroid.gradlePath
                     then Some (lit "versionCode 1") else None)
       [ExistsSync PrepareAndroid.gradlePath;
        ExistsSync PrepareAndroid.stringsPath]).
Proof.
  apply (proj2 (android_config_ending MoreExamples.config_json
                  MoreExamples.string_of_json MoreExamples.replace_all
                  MoreExamples.next_code MoreExamples.android_config
                  (World (fun q => if str_eqb q PrepareAndroid.gradlePath
                                   then Some (lit "versionCode 1") else None)
                     [])) 1).
  - lia.
  - reflexivity.
  - repeat constructor. discriminate.
Defined.

(** X22.  When the four files exist, [updateAndroidConfig] always rewrites
    [strings.xml] and [colors.xml], but [build.gradle] only when
    [autoVersionCode] is set: without it the file keeps its content, and
    the new application id and version name are not saved. *)
Theorem gradle_saved_only_with_auto
    (JSON_parse : str -> option json) (ToString : json -> str)
    (replace : PrepareAndroid.regex -> str -> str -> str)
    (next_version_code : str -> str)
    (config : PrepareAndroid.config) (w : world) (G S C M : str) :
  files w PrepareAndroid.gradlePath = Some G ->
  files w PrepareAndroid.stringsPath = Some S ->
  files w PrepareAndroid.colorsPath = Some C ->
  files w PrepareAndroid.manifestPath = Some M ->
  let w' :=
    snd (PrepareAndroid.updateAndroidConfig JSON_parse ToString replace
           next_version_code config w) in
  files w' PrepareAndroid.gradlePath
  = Some (if PrepareAndroid.autoVersionCode config
          then PrepareAndroid.update_gradle replace next_version_code
                 config G
          else G) /\
  files w' PrepareAndroid.stringsPath
  = Some (replace PrepareAndroid.RE_APP_NAME S
            (PrepareAndroid.app_name_text (PrepareAndroid.APP_NAME config)))
  /\
  files w' PrepareAndroid.colorsPath
  = Some (PrepareAndroid.update_colors replace config C).
Proof.
  intros EG ES EC EM w'.
  destruct (@updateAndroidConfig_run JSON_parse ToString replace
              next_version_code config w G S C M EG ES EC EM)
    as (w1 & Hrun & Hg & Hs & Hc & _).
  unfold w'. rewrite Hrun. cbn [snd].
  rewrite !setup_keeps_other_files by discriminate. auto.
Qed.

Lemma gradle_saved_only_with_auto_witness :
  let w' :=
    snd (PrepareAndroid.updateAndroidConfig MoreExamples.config_json
           MoreExamples.string_of_json MoreExamples.replace_all
           MoreExamples.next_code MoreExamples.android_config
           MoreExamples.android_world) in
  files w' PrepareAndroid.gradlePath
  = Some (if PrepareAndroid.autoVersionCode MoreExamples.android_config
          then PrepareAndroid.update_gradle MoreExamples.replace_all
                 MoreExamples.next_code MoreExamples.android_config
                 (lit "versionCode 1")
          else lit "versionCode 1") /\
  files w' PrepareAndroid.stringsPath
  = Some (MoreExamples.replace_all PrepareAndroid.RE_APP_NAME
            (lit "<resources/>")
            (PrepareAndroid.app_name_text
               (PrepareAndroid.APP_NAME MoreExamples.android_config)))
  /\
  files w' PrepareAndroid.colorsPath
  = Some (PrepareAndroid.update_colors MoreExamples.replace_all
            MoreExamples.android_config (lit "<resources/>")).
Proof.
  apply (@gradle_saved_only_with_auto MoreExamples.config_json
           MoreExamples.string_of_json MoreExamples.replace_all
           MoreExamples.next_code MoreExamples.android_config
           MoreExamples.android_world (lit "versionCode 1")
           (lit "<resources/>") (lit "<resources/>")
           Examples.manifest_plain); reflexivity.
Defined.

(** X23.  For the manifest, the Android step of the preparation script
    acts as [setupKeychainsAndroid] alone would on the project as it was:
    when the four files exist and the configuration file is none of
    [strings.xml], the two [colors.xml] and [build.gradle], the manifest
    afterwards is the one [setupKeychainsAndroid] leaves when run first. *)
Theorem manifest_as_by_setup_alone
    (JSON_parse : str -> option json) (ToString : json -> str)
    (replace : PrepareAndroid.regex -> str -> str -> str)
    (next_version_code : str -> str)
    (config : PrepareAndroid.config) (w : world) (G S C M : str) :
  files w PrepareAndroid.gradlePath = Some G ->
  files w PrepareAndroid.stringsPath = Some S ->
  files w PrepareAndroid.colorsPath = Some C ->
  files w PrepareAndroid.manifestPath = Some M ->
  PrepareAndroid.CONFIG_FILE config <> PrepareAndroid.stringsPath ->
  PrepareAndroid.CONFIG_FILE config <> PrepareAndroid.colorsPath ->
  PrepareAndroid.CONFIG_FILE config <> PrepareAndroid.colorsNightPath ->
  PrepareAndroid.CONFIG_FILE config <> PrepareAndroid.gradlePath ->
  files (snd (PrepareAndroid.updateAndroidConfig JSON_parse ToString replace
                next_version_code config w))
        PrepareAndroid.manifestPath
  = files (snd (setupKeychainsAndroid JSON_parse ToString
                  (PrepareAndroid.CONFIG_FILE config) defaultOptions w))
          PrepareAndroid.manifestPath.
Proof.
  intros EG ES EC EM H1 H2 H3 H4.
  destruct (@updateAndroidConfig_run JSON_parse ToString replace
              next_version_code config w G S C M EG ES EC EM)
    as (w1 & Hrun & _ & _ & _ & Hother).
  rewrite Hrun. cbn [snd].
  apply (@setup_depends_on_two_files JSON_parse ToString
           (PrepareAndroid.CONFIG_FILE config) defaultOptions w1 w).
  - now apply Hother.
  - apply Hother; discriminate.
Qed.

Lemma manifest_as_by_setup_alone_witness :
  files (snd (PrepareAndroid.updateAndroidConfig MoreExamples.config_json
                MoreExamples.string_of_json MoreExamples.replace_all
                MoreExamples.next_code MoreExamples.android_config
                MoreExamples.android_world))
        PrepareAndroid.manifestPath
  = files (snd (setupKeychainsAndroid MoreExamples.config_json
                  MoreExamples.string_of_json
                  (PrepareAndroid.CONFIG_FILE MoreExamples.android_config)
                  defaultOptions MoreExamples.android_world))
          PrepareAndroid.manifestPath.
Proof.
  apply (@manifest_as_by_setup_alone MoreExamples.config_json
           MoreExamples.string_of_json MoreExamples.replace_all
           MoreExamples.next_code MoreExamples.android_config
           MoreExamples.android_world (lit "versionCode 1")
           (lit "<resources/>") (lit "<resources/>")
           Examples.manifest_plain);
    try reflexivity; discriminate.
Defined.

(** ** The two project detectors *)

Section Detectors.

Variable path_join : str -> str -> str.
Variable existsSync_dir : str -> bool.
Variable readdirSync : listing.
Variable iosPath : str.

Lemma scan_project_dirs_agrees (entries : list dirent) :
  (forall e, In e entries -> is_candidate e = true ->
     not_excluded e = true ->
     readdirSync (path_join iosPath (name e)) <> None) ->
  GoogleServiceInfo.scan_project_dirs path_join readdirSync iosPath entries
  = Some (first_project_dir path_join readdirSync iosPath
            (map name (filter not_excluded (filter is_candidate entries)))).
Proof.
  induction entries as [|e es IH]; intros Hall; [reflexivity|].
  assert (IH' := IH (fun x Hx => Hall x (or_intror Hx))).
  cbn [GoogleServiceInfo.scan_project_dirs filter].
  fold (is_candidate e).
  destruct (is_candidate e) eqn:Ec; [|exact IH'].
  cbn [filter]. unfold not_excluded at 1.
  destruct (existsb (str_eqb (name e)) EXCLUDED) eqn:Ex; cbn [negb];
    [exact IH'|].
  cbn [map first_project_dir].
  assert (Hne : not_excluded e = true) by (unfold not_excluded; now rewrite Ex).
  specialize (Hall e (or_introl eq_refl) Ec Hne).
  destruct (readdirSync (path_join iosPath (name e))) as [subs|];
    [|contradiction].
  destruct (has_xcodeproj (map name subs)); [reflexivity|exact IH'].
Qed.

Lemma scan_project_dirs_throws (pre post : list dirent) (e : dirent) :
  GoogleServiceInfo.scan_project_dirs path_join readdirSync iosPath pre
  = Some None ->
  is_candidate e = true -> not_excluded e = true ->
  readdirSync (path_join iosPath (name e)) = None ->
  GoogleServiceInfo.scan_project_dirs path_join readdirSync iosPath
    (pre ++ e :: post) = None.
Proof.
  intros Hpre Hc Hx Hr. induction pre as [|x xs IH].
  - cbn [app GoogleServiceInfo.scan_project_dirs]. fold (is_candidate e).
    rewrite Hc. unfold not_excluded in Hx.
    destruct (existsb (str_eqb (name e)) EXCLUDED); [discriminate|].
    now rewrite Hr.
  - cbn [app GoogleServiceInfo.scan_project_dirs] in *.
    fold (is_candidate x) in *.
    destruct (is_candidate x); [|now apply IH].
    destruct (existsb (str_eqb (name x)) EXCLUDED); [now apply IH|].
    destruct (readdirSync (path_join iosPath (name x))) as [subs|];
      [|discriminate].
    destruct (has_xcodeproj (map name subs)); [discriminate|now apply IH].
Qed.

End Detectors.

(** X24.  The project detector of the Google service module agrees with
    [findIosProjectDir] of the keychain module on a directory that exists
    and whose eligible subdirectories can all be listed.  They differ on a
    subdirectory that cannot be listed: [findIosProjectDir] skips it,
    [findIosProjectName] lets the exception escape when it reaches one
    before finding a project. *)
Theorem project_detectors_agree (path_join : str -> str -> str)
    (existsSync_dir : str -> bool) (readdirSync : listing) (iosPath : str)
    (entries : list dirent) :
  existsSync_dir iosPath = true ->
  readdirSync iosPath = Some entries ->
  ((forall e, In e entries -> is_candidate e = true ->
      not_excluded e = true ->
      readdirSync (path_join iosPath (name e)) <> None) ->
   GoogleServiceInfo.findIosProjectName path_join existsSync_dir readdirSync
     iosPath
   = Some (findIosProjectDir path_join readdirSync iosPath)) /\
  (forall pre e post,
     entries = pre ++ e :: post ->
     GoogleServiceInfo.scan_project_dirs path_join readdirSync iosPath pre
     = Some None ->
     is_candidate e = true -> not_excluded e = true ->
     readdirSync (path_join iosPath (name e)) = None ->
     GoogleServiceInfo.findIosProjectName path_join existsSync_dir
       readdirSync iosPath = None).
Proof.
  intros Hex Hls. unfold GoogleServiceInfo.findIosProjectName,
    findIosProjectDir. rewrite Hex, Hls. cbn [negb]. split.
  - intros Hall. rewrite scan_project_dirs_agrees by exact Hall.
    now destruct (first_project_dir path_join readdirSync iosPath
                    (map name (filter not_excluded
                                 (filter is_candidate entries)))).
  - intros pre e post -> Hpre Hc Hx Hr.
    now rewrite (@scan_project_dirs_throws path_join readdirSync iosPath
                   pre post e Hpre Hc Hx Hr).
Qed.

Lemma project_detectors_agree_witness :
  GoogleServiceInfo.findIosProjectName MoreExamples.slash_join
    (fun _ => true) MoreExamples.ios_listing MoreExamples.ios_dir
  = Some (findIosProjectDir MoreExamples.slash_join MoreExamples.ios_listing
            MoreExamples.ios_dir).
Proof.
  refine (proj1 (@project_detectors_agree MoreExamples.slash_join
                   (fun _ => true) MoreExamples.ios_listing
                   MoreExamples.ios_dir _ eq_refl eq_refl) _).
  intros e [<-|[<-|[<-|[<-|[]]]]] Hc Hx;
    try (vm_compute in Hc; discriminate Hc); vm_compute; discriminate.
Defined.
